(** * DATN market-analytics core: a shallow embedding and its properties

    The development follows the server side of the repository:

    - [WebSocketManager] (price history, connection handler, portfolio
      tracking, broadcast),
    - [TechnicalAnalysisService] (pattern detection, volatility metrics),
    - [AIAnalysisService] (the recommendation cache around the OpenAI call).

    Numbers.  A JavaScript [number] is modelled by [num]: an exact rational,
    the two infinities, or NaN.  Arithmetic follows IEEE 754 on the special
    values (0/0, inf - inf and 0 * inf are NaN, a comparison with NaN is
    false) and is exact on finite values: rounding (binary64 in JavaScript,
    binary32 inside TensorFlow.js tensors) and the sign of zero are not
    modelled.  Finite results are kept in lowest terms, so two finite
    results are equal exactly when they denote the same rational.  The
    concrete inputs used below are small integers and halves, on which the
    floating-point operations involved are exact.

    Time.  The server is asynchronous.  What does not await (the connection
    handler, [broadcast], [updatePriceHistory]) runs to its end and is
    modelled as such.  [analyzeMarket] awaits its request: [AIAnalysis]
    takes a call in one piece and [AIAnalysisAsync] cuts it at the [await],
    so that calls interleave.  The market loop, the tracker, the request
    handlers and the storage functions are taken one call after the other;
    the statements about them say so where it matters. *)

From Stdlib Require Import ZArith QArith Qabs Qround Lia Lqa.
From stdpp Require Import gmap strings list sorting.

Local Open Scope Z_scope.
Local Open Scope nat_scope.

(** Closed decidable goals (membership, distinctness) by evaluation. *)
Ltac by_evaluation := apply (bool_decide_unpack _); vm_compute; exact I.

(** ** Numbers *)

Module Num.

Inductive num : Type :=
| Fin (q : Q)
| PInf
| NInf
| NaN.

Definition zero : num := Fin 0.
Definition ofZ (z : Z) : num := Fin (inject_Z z).
Definition ofNat (n : nat) : num := ofZ (Z.of_nat n).

Definition isNaN (x : num) : bool :=
  match x with NaN => true | _ => false end.

Definition isFinite (x : num) : bool :=
  match x with Fin _ => true | _ => false end.

Definition Qis0 (q : Q) : bool := Qeq_bool q 0.
Definition Qneg (q : Q) : bool := negb (Qle_bool 0 q).

Definition neg (x : num) : num :=
  match x with
  | Fin q => Fin (Qred (- q))
  | PInf => NInf
  | NInf => PInf
  | NaN => NaN
  end.

Definition add (x y : num) : num :=
  match x, y with
  | NaN, _ | _, NaN => NaN
  | Fin a, Fin b => Fin (Qred (a + b))
  | PInf, NInf | NInf, PInf => NaN
  | PInf, _ | _, PInf => PInf
  | NInf, _ | _, NInf => NInf
  end.

Definition sub (x y : num) : num := add x (neg y).

(** The infinity of the sign of a product or quotient. *)
Definition signedInf (negative : bool) : num :=
  if negative then NInf else PInf.

Definition mul (x y : num) : num :=
  match x, y with
  | NaN, _ | _, NaN => NaN
  | Fin a, Fin b => Fin (Qred (a * b))
  | Fin a, PInf | PInf, Fin a =>
      if Qis0 a then NaN else signedInf (Qneg a)
  | Fin a, NInf | NInf, Fin a =>
      if Qis0 a then NaN else signedInf (negb (Qneg a))
  | PInf, PInf | NInf, NInf => PInf
  | PInf, NInf | NInf, PInf => NInf
  end.

Definition div (x y : num) : num :=
  match x, y with
  | NaN, _ | _, NaN => NaN
  | Fin a, Fin b =>
      if Qis0 b
      then (if Qis0 a then NaN else signedInf (Qneg a))
      else Fin (Qred (a / b))
  | Fin _, PInf | Fin _, NInf => zero
  | PInf, Fin b => signedInf (Qneg b)
  | NInf, Fin b => signedInf (negb (Qneg b))
  | PInf, PInf | PInf, NInf | NInf, PInf | NInf, NInf => NaN
  end.

(** [Math.abs]. *)
Definition abs (x : num) : num :=
  match x with
  | Fin q => Fin (Qred (Qabs q))
  | PInf | NInf => PInf
  | NaN => NaN
  end.

(** [x < y]; false as soon as one side is NaN. *)
Definition lt (x y : num) : bool :=
  match x, y with
  | NaN, _ | _, NaN => false
  | Fin a, Fin b => negb (Qle_bool b a)
  | NInf, NInf | PInf, _ => false
  | NInf, _ => true
  | Fin _, PInf => true
  | Fin _, NInf => false
  end.

(** [x > y]. *)
Definition gt (x y : num) : bool := lt y x.

(** [x <= y], again false on NaN. *)
Definition le (x y : num) : bool :=
  match x, y with
  | NaN, _ | _, NaN => false
  | _, _ => negb (lt y x)
  end.

(** The element-wise minimum and maximum that [tf.min] and [tf.max] reduce
    with; NaN propagates. *)
Definition min (x y : num) : num :=
  match x, y with
  | NaN, _ | _, NaN => NaN
  | _, _ => if lt y x then y else x
  end.

Definition max (x y : num) : num :=
  match x, y with
  | NaN, _ | _, NaN => NaN
  | _, _ => if lt x y then y else x
  end.

(** JavaScript truthiness of a number: 0 and NaN are falsy. *)
Definition truthy (x : num) : bool :=
  match x with
  | Fin q => negb (Qis0 q)
  | NaN => false
  | PInf | NInf => true
  end.

(** [x || y] on numbers. *)
Definition or (x y : num) : num := if truthy x then x else y.

(** [Math.floor] of a finite number, as an integer. *)
Definition floorZ (x : num) : Z :=
  match x with
  | Fin q => Qfloor q
  | _ => 0%Z
  end.

End Num.

Import Num.

Declare Scope num_scope.
Delimit Scope num_scope with num.
Bind Scope num_scope with num.
Infix "+" := add : num_scope.
Infix "-" := sub : num_scope.
Infix "*" := mul : num_scope.
Infix "/" := div : num_scope.

(** Decimal literals used by the sources. *)
Definition n0_7 : num := Fin (7 # 10).
Definition n0_5 : num := Fin (1 # 2).
Definition n0_05 : num := Fin (5 # 100).

(** ** WebSocketManager: the bounded price history

    [priceHistory] is a [Map<string, number[]>]; [updatePriceHistory]
    creates the array on first use, pushes the price and shifts the oldest
    element out once the length exceeds 100.  The array is mutated in place,
    so the map entry is rewritten with the new contents. *)

Module PriceHistory.

Definition updatePriceHistory (symbol : string) (price : num)
    (priceHistory : gmap string (list num)) : gmap string (list num) :=
  let priceHistory :=
    match priceHistory !! symbol with
    | None => <[symbol := []]> priceHistory
    | Some _ => priceHistory
    end in
  let history := default [] (priceHistory !! symbol) in
  let history := history ++ [price] in
  let history :=
    if decide (100 < length history) then tail history else history in
  <[symbol := history]> priceHistory.

(** [this.priceHistory.get(symbol) || []], as the readers of the history
    take it. *)
Definition getHistory (symbol : string)
    (priceHistory : gmap string (list num)) : list num :=
  default [] (priceHistory !! symbol).

(** A run of appends from the freshly constructed manager. *)
Definition appendAll (ticks : list (string * num)) : gmap string (list num) :=
  fold_left (fun ph t => updatePriceHistory t.1 t.2 ph) ticks ∅.

(** The prices appended for one symbol, oldest first. *)
Definition appended (symbol : string) (ticks : list (string * num)) : list num :=
  (filter (fun t => t.1 = symbol) ticks).*2.

(** The [k] most recent elements of a sequence. *)
Definition mostRecent {A} (k : nat) (l : list A) : list A :=
  drop (length l - k) l.

End PriceHistory.

(** ** TechnicalAnalysisService *)

Module TechnicalAnalysis.

Inductive PatternType : Type :=
| triangle
| head_and_shoulders
| double_top
| double_bottom.

Record PatternResult : Type := {
  type : PatternType;
  confidence : num;
  startIndex : nat;
  endIndex : nat
}.

Inductive VolatilityTrend : Type := increasing | decreasing | stable.

Record RiskMetrics : Type := {
  valueAtRisk : num;
  expectedShortfall : num
}.

Record VolatilityMetrics : Type := {
  historicalVolatility : num;
  relativeVolatility : num;
  volatilityTrend : VolatilityTrend;
  riskMetrics : RiskMetrics
}.

Definition PATTERN_WINDOW : nat := 30.
Definition VOLATILITY_WINDOW : nat := 30.

(** [arr.slice(-k)]: the last [k] elements, the whole array when it is
    shorter. *)
Definition sliceLast {A} (k : nat) (arr : list A) : list A :=
  drop (length arr - k) arr.

(** [arr[i]] read as a number: a missing element is [undefined], which
    arithmetic turns into NaN. *)
Definition at_ (arr : list num) (i : nat) : num := default NaN (arr !! i).

(** [tf.min] and [tf.max] over all the elements of a tensor. *)
Definition tf_min (t : list num) : num :=
  match t with
  | [] => PInf
  | x :: t' => fold_left Num.min t' x
  end.

Definition tf_max (t : list num) : num :=
  match t with
  | [] => NInf
  | x :: t' => fold_left Num.max t' x
  end.

(** The normalisation [(x - min) / (max - min)], element-wise. *)
Definition normalize (t : list num) : list num :=
  let lo := tf_min t in
  let hi := tf_max t in
  map (fun x => ((x - lo) / (hi - lo))%num) t.

Definition triangleKernel : list num :=
  [Fin 1; n0_5; Fin 0; neg n0_5; neg (Fin 1)].

Definition hsKernel : list num :=
  [Fin 1; neg (Fin 1); Fin 2; neg (Fin 1); Fin 1].

(** One output cell of the convolution: the products of the kernel with
    the input cells it covers, accumulated from 0. *)
Definition dot (xs kernel : list num) : num :=
  fold_left add (zip_with mul xs kernel) zero.

(** [tf.conv2d(input, kernel, 1, 'valid')] on a one-channel series, read
    as the comments of the source describe it: the kernel slides along the
    window with stride 1, no padding and no kernel flip, which gives
    [length input - length kernel + 1] cells.  This is the convolution
    with the kernel laid along the series.  The call with the tensor
    layouts it is written with ([1, 30, 1, 1] against [1, 5, 1, 1]) is
    taken up in [Tensor] and [TechnicalAnalysisService] below: there the
    library throws, and the [catch] of [detectPatterns] returns the empty
    list. *)
Definition conv2d_valid (input kernel : list num) : list num :=
  map (fun i => dot (take (length kernel) (drop i input)) kernel)
      (seq 0 (length input + 1 - length kernel)).

(** The loop body shared by the two scans: [i] is the index of the first
    cell of [data]. *)
Fixpoint scan (ty : PatternType) (i : nat) (data : list num)
    : list PatternResult :=
  match data with
  | [] => []
  | x :: data' =>
      let confidence := abs x in
      (if gt confidence n0_7
       then [{| type := ty; confidence := confidence;
                startIndex := i; endIndex := i + 4 |}]
       else [])
      ++ scan ty (S i) data'
  end.

(** [detectPatterns] with convolutions that return: whatever
    [TechnicalAnalysisService.detectPatterns] reports, this detector
    reports.  No operation here throws, so the [catch] branch (log and
    return the empty list) has no counterpart. *)
Definition detectPatterns (prices : list num) : list PatternResult :=
  if decide (length prices < PATTERN_WINDOW) then []
  else
    let priceWindow := sliceLast PATTERN_WINDOW prices in
    let normalized := normalize priceWindow in
    let triangleData := conv2d_valid normalized triangleKernel in
    let hsData := conv2d_valid normalized hsKernel in
    scan triangle 0 triangleData ++ scan head_and_shoulders 0 hsData.

(** *** Sample data and statements about the detector *)

(** An alternating history: 2, 1, 2, 1, ... (30 prices). *)
Definition zigzag : list num :=
  flat_map (fun _ => [Fin 2; Fin 1]) (seq 0 15).

(** [a] is a lower bound of [y]; holds of no NaN. *)
Definition boundedBelow (a : Q) (y : num) : Prop :=
  match y with
  | Fin q => (a <= q)%Q
  | PInf => True
  | _ => False
  end.

Definition boundedAbove (b : Q) (y : num) : Prop :=
  match y with
  | Fin q => (q <= b)%Q
  | NInf => True
  | _ => False
  end.

(** A normalised cell: NaN, or a rational between 0 and 1. *)
Definition unitOrNaN (x : num) : Prop :=
  match x with
  | Fin q => (0 <= q <= 1)%Q
  | NaN => True
  | _ => False
  end.

(** A confidence that is NaN or at most [b]. *)
Definition confidenceWithin (b : Q) (c : num) : Prop :=
  match c with
  | Fin q => (q <= b)%Q
  | NaN => True
  | _ => False
  end.

(** The claim that every confidence lies in [0, 1]. *)
Definition confidenceInUnitInterval (prices : list num) : Prop :=
  forall p, p ∈ detectPatterns prices ->
            le zero (confidence p) = true /\ le (confidence p) (Fin 1) = true.

(** *** Volatility

    [Math.log] and [Math.sqrt] are not rational functions; the metrics are
    defined over any two functions standing for them. *)

Section Volatility.

Variable Math_log : num -> num.
Variable Math_sqrt : num -> num.

(** The loop [for (i = 1; i < prices.length; i++)
    returns.push(Math.log(prices[i] / prices[i - 1]))]. *)
Fixpoint logReturns (prices : list num) : list num :=
  match prices with
  | [] => []
  | prev :: rest =>
      match rest with
      | [] => []
      | cur :: _ => Math_log (cur / prev)%num :: logReturns rest
      end
  end.

Definition sum (xs : list num) : num := fold_left add xs zero.

(** [tf.moments(t).variance]: the mean of the squared deviations. *)
Definition variance (xs : list num) : num :=
  let n := ofNat (length xs) in
  let mean := (sum xs / n)%num in
  (sum (map (fun x => ((x - mean) * (x - mean))%num) xs) / n)%num.

(** [arr.sort((a, b) => a - b)]: [b] moves before [a] when the comparator
    is positive.  Written as a stable insertion sort. *)
Fixpoint insertSorted (a : num) (sorted : list num) : list num :=
  match sorted with
  | [] => [a]
  | b :: sorted' =>
      if gt (a - b)%num zero then b :: insertSorted a sorted'
      else a :: sorted
  end.

Definition sortAscending (xs : list num) : list num :=
  foldr insertSorted [] xs.

(** [Math.floor(returns.length * 0.05)]. *)
Definition varIndexOf (returns : list num) : nat :=
  Z.to_nat (floorZ (ofNat (length returns) * n0_05)%num).

Definition n252 : num := Fin 252.
Definition n1_1 : num := Fin (11 # 10).
Definition n0_9 : num := Fin (9 # 10).

Definition calculateVolatility (prices : list num)
    : option VolatilityMetrics :=
  if decide (length prices < VOLATILITY_WINDOW) then None
  else
    let returns := logReturns prices in
    let historicalVolatility :=
      (Math_sqrt (variance returns) * Math_sqrt n252)%num in
    let recentReturns := sliceLast VOLATILITY_WINDOW returns in
    let recentVol :=
      (Math_sqrt (variance recentReturns) * Math_sqrt n252)%num in
    let trend :=
      if gt recentVol (historicalVolatility * n1_1)%num then increasing
      else if lt recentVol (historicalVolatility * n0_9)%num then decreasing
      else stable in
    let sortedReturns := sortAscending returns in
    let varIndex := varIndexOf returns in
    let valueAtRisk := neg (at_ sortedReturns varIndex) in
    let tailReturns := take varIndex sortedReturns in
    let expectedShortfall :=
      (neg (fold_left add tailReturns zero) / ofNat varIndex)%num in
    Some {| historicalVolatility := historicalVolatility;
            relativeVolatility := (recentVol / historicalVolatility)%num;
            volatilityTrend := trend;
            riskMetrics := {| valueAtRisk := valueAtRisk;
                              expectedShortfall := expectedShortfall |} |}.

(** The divisor of the expected-shortfall mean for a given history. *)
Definition shortfallDivisor (prices : list num) : num :=
  ofNat (varIndexOf (logReturns prices)).

End Volatility.

(** Thirty prices rising from 100 to 129. *)
Definition risingPrices : list num :=
  map (fun i => ofNat (100 + i)) (seq 0 30).

End TechnicalAnalysis.

(** ** AIAnalysisService: the recommendation cache

    The service keeps [analysisCache : Map<string, {result, timestamp}>].
    The OpenAI request and the [JSON.parse] of its answer are the oracle:
    a reply carries the time the awaited request took and either the parsed
    analysis or nothing, when the request or the parse throws.  [Date.now()]
    is the [now] field of the state, in milliseconds.  A call is taken here
    in one piece, nothing running while its request is pending;
    [AIAnalysisAsync] below cuts it at its [await]. *)

Module AIAnalysis.

Import TechnicalAnalysis.

Inductive Recommendation : Type := buy | sell | hold.
Inductive RiskLevel : Type := low | medium | high.

Record AIAnalysisResult : Type := {
  recommendation : Recommendation;
  aiConfidence : num;
  reasoning : list string;
  marketSentiment : string;
  riskLevel : RiskLevel
}.

Record CacheEntry : Type := {
  result : AIAnalysisResult;
  timestamp : Z
}.

(** What [analyzeTechnicals] hands over. *)
Record TechnicalData : Type := {
  patterns : list PatternResult;
  volatility : option VolatilityMetrics
}.

Record PriceContext : Type := {
  current : num;
  change24h : string;
  change1h : string
}.

Record MarketContext : Type := {
  ctxSymbol : string;
  ctxPrice : PriceContext;
  ctxTechnicalAnalysis : TechnicalData
}.

Record OracleReply : Type := {
  latency : N;
  content : option AIAnalysisResult
}.

Record AIState : Type := {
  analysisCache : gmap string CacheEntry;
  now : Z;
  oracleLog : list MarketContext
}.

Definition CACHE_DURATION : Z := 10000.

Definition initialState (t0 : Z) : AIState :=
  {| analysisCache := ∅; now := t0; oracleLog := [] |}.

(** Time passing between two calls. *)
Definition elapse (ms : N) (st : AIState) : AIState :=
  {| analysisCache := analysisCache st;
     now := (now st + Z.of_N ms)%Z;
     oracleLog := oracleLog st |}.

Definition defaultResult : AIAnalysisResult :=
  {| recommendation := hold;
     aiConfidence := n0_5;
     reasoning := ["Technical analysis system is calibrating"%string];
     marketSentiment := "neutral";
     riskLevel := medium |}.


Section Service.

(** [openai.chat.completions.create] followed by [JSON.parse]; the first
    argument counts the requests made before this one. *)
Variable openai : nat -> MarketContext -> OracleReply.

(** The template [`${change >= 0 ? '+' : ''}${change.toFixed(2)}%`]. *)
Variable formatChange : num -> string.

Definition calculatePriceChange (prices : list num) (period : nat) : string :=
  if decide (length prices < period) then "0.00%"%string
  else
    let currentPrice := at_ prices (length prices - 1) in
    let previousPrice := at_ prices (length prices - period) in
    let change :=
      (((currentPrice - previousPrice) / previousPrice) * Fin 100)%num in
    formatChange change.

(** The cache test [cached && Date.now() - cached.timestamp < CACHE_DURATION]. *)
Definition fresh (st : AIState) (cached : option CacheEntry) : bool :=
  match cached with
  | Some c => bool_decide (now st - timestamp c < CACHE_DURATION)%Z
  | None => false
  end.

Definition cacheSet (symbol : string) (r : AIAnalysisResult) (st : AIState)
    : AIState :=
  {| analysisCache :=
       <[symbol := {| result := r; timestamp := now st |}]> (analysisCache st);
     now := now st;
     oracleLog := oracleLog st |}.

(** The awaited request: it is logged, and the clock has advanced by its
    latency when the call resumes. *)
Definition request (ctx : MarketContext) (st : AIState)
    : option AIAnalysisResult * AIState :=
  let reply := openai (length (oracleLog st)) ctx in
  (content reply,
   {| analysisCache := analysisCache st;
      now := (now st + Z.of_N (latency reply))%Z;
      oracleLog := oracleLog st ++ [ctx] |}).

(** The [marketContext] object sent to the model. *)
Definition marketContextOf (symbol : string) (currentPrice : num)
    (technicalData : TechnicalData) (historicalPrices : list num)
    : MarketContext :=
  {| ctxSymbol := symbol;
     ctxPrice :=
       {| current := currentPrice;
          change24h := calculatePriceChange historicalPrices 24;
          change1h := calculatePriceChange historicalPrices 60 |};
     ctxTechnicalAnalysis := technicalData |}.

Definition analyzeMarket (symbol : string) (currentPrice : num)
    (technicalData : TechnicalData) (historicalPrices : list num)
    (st : AIState) : AIAnalysisResult * AIState :=
  let cached := analysisCache st !! symbol in
  match (if fresh st cached then cached else None) with
  | Some c => (result c, st)
  | None =>
      let marketContext :=
        marketContextOf symbol currentPrice technicalData historicalPrices in
      let '(response, st) := request marketContext st in
      match response with
      | Some analysis => (analysis, cacheSet symbol analysis st)
      | None => (defaultResult, cacheSet symbol defaultResult st)
      end
  end.

(** The claim that a second call less than 10 s after a first one never
    reaches the oracle and returns the first call's result. *)
Definition dedupAfterAnyCall : Prop :=
  forall (st : AIState) (symbol : string) (p1 p2 : num)
         (td1 td2 : TechnicalData) (h1 h2 : list num) (d : N),
    (Z.of_N d < CACHE_DURATION)%Z ->
    let '(r1, st1) := analyzeMarket symbol p1 td1 h1 st in
    let '(r2, st2) := analyzeMarket symbol p2 td2 h2 (elapse d st1) in
    r2 = r1 /\ oracleLog st2 = oracleLog st1.


End Service.

(** *** Sample oracles and states *)

Definition sampleAnalysis : AIAnalysisResult :=
  {| recommendation := buy;
     aiConfidence := Fin (4 # 5);
     reasoning := ["momentum"%string];
     marketSentiment := "bullish";
     riskLevel := low |}.

(** An oracle that answers [sampleAnalysis] after 300 ms. *)
Definition promptOracle (n : nat) (ctx : MarketContext) : OracleReply :=
  {| latency := 300%N; content := Some sampleAnalysis |}.


Definition noFormat (change : num) : string := "".

Definition noTechnicals : TechnicalData :=
  {| patterns := []; volatility := None |}.

(** The state 9.5 s after a first call made at time 0 and answered by
    [promptOracle] at 0.3 s: the clock reads 9.8 s. *)
Definition agedState : AIState :=
  elapse 9500%N
    (analyzeMarket promptOracle noFormat "BTC/USD" (Fin 95000) noTechnicals []
       (initialState 0)).2.

End AIAnalysis.

(** ** WebSocketManager: subscribers, snapshots and portfolio valuation

    A JavaScript [Map] iterates in insertion order and [set] on a present
    key keeps its place: [lastMarketData] is an association list.  The
    [Set<WebSocket>] of clients holds references to socket objects, which
    live in a store indexed by reference. *)

Module Hub.

Import TechnicalAnalysis AIAnalysis.

Record MarketData : Type := {
  symbol : string;
  exchange : string;
  price : num;
  volume24h : num;
  mdTimestamp : Z;
  patternAnalysis : option (list PatternResult);
  volatilityMetrics : option VolatilityMetrics;
  aiAnalysis : option AIAnalysisResult
}.

Fixpoint Map_set {V} (k : string) (v : V) (m : list (string * V))
    : list (string * V) :=
  match m with
  | [] => [(k, v)]
  | (k', v') :: m' =>
      if decide (k' = k) then (k, v) :: m' else (k', v') :: Map_set k v m'
  end.

Fixpoint Map_get {V} (k : string) (m : list (string * V)) : option V :=
  match m with
  | [] => None
  | (k', v') :: m' => if decide (k' = k) then Some v' else Map_get k m'
  end.

Definition Set_add (r : nat) (s : list nat) : list nat :=
  if decide (r ∈ s) then s else s ++ [r].

Definition Set_delete (r : nat) (s : list nat) : list nat :=
  filter (fun r' => r' ≠ r) s.

Inductive ReadyState : Type := CONNECTING | OPEN | CLOSING | CLOSED.

Global Instance ReadyState_eq_dec : EqDecision ReadyState.
Proof. solve_decision. Defined.

(** A socket of the [ws] library, as far as the manager uses it.
    [sendThrows] tells for which payloads the synchronous [send] raises;
    [sent] collects the payloads handed to the transport.  [flushDelay] is
    the time the transport needs to flush a frame to the peer, [None] for a
    peer that never drains: [send] returns at once whatever it is, and the
    manager does not read it. *)
Record WebSocket : Type := {
  readyState : ReadyState;
  sendThrows : string -> bool;
  sent : list string;
  flushDelay : option nat
}.

(** The socket after a [send] that returned. *)
Definition afterSend (ws : WebSocket) (data : string) : WebSocket :=
  {| readyState := readyState ws;
     sendThrows := sendThrows ws;
     sent := sent ws ++ [data];
     flushDelay := flushDelay ws |}.

(** [ws.send(data)]: [None] when it throws. *)
Definition wsSend (ws : WebSocket) (data : string) : option WebSocket :=
  if sendThrows ws data then None else Some (afterSend ws data).

Record Manager : Type := {
  clients : list nat;
  sockets : gmap nat WebSocket;
  lastMarketData : list (string * MarketData)
}.

Definition initialManager : Manager :=
  {| clients := []; sockets := ∅; lastMarketData := [] |}.

Definition withClients (cs : list nat) (st : Manager) : Manager :=
  {| clients := cs; sockets := sockets st;
     lastMarketData := lastMarketData st |}.

Definition withSocket (r : nat) (ws : WebSocket) (st : Manager) : Manager :=
  {| clients := clients st; sockets := <[r := ws]> (sockets st);
     lastMarketData := lastMarketData st |}.

(** The ["close"] and ["error"] handlers of a client. *)
Definition onClose (r : nat) (st : Manager) : Manager :=
  withClients (Set_delete r (clients st)) st.

(** The body of [clients.forEach] in [broadcast]. *)
Definition broadcastTo (data : string) (st : Manager) (client : nat)
    : Manager :=
  match sockets st !! client with
  | Some ws =>
      if decide (readyState ws = OPEN) then
        match wsSend ws data with
        | Some ws' => withSocket client ws' st
        | None => withClients (Set_delete client (clients st)) st
        end
      else st
  | None => st
  end.

Definition broadcast (data : string) (st : Manager) : Manager :=
  fold_left (broadcastTo data) (clients st) st.

Section Manager.

Variable JSON_stringify : MarketData -> string.

(** The body of [lastMarketData.forEach] in the connection handler:
    [try { if (data) ws.send(JSON.stringify(data)) } catch { log }].
    A [MarketData] object is always truthy. *)
Definition sendInitial (r : nat) (st : Manager) (entry : string * MarketData)
    : Manager :=
  match sockets st !! r with
  | Some ws =>
      match wsSend ws (JSON_stringify entry.2) with
      | Some ws' => withSocket r ws' st
      | None => st
      end
  | None => st
  end.

(** The ["connection"] handler for a new socket [ws] with reference [r]. *)
Definition onConnection (r : nat) (ws : WebSocket) (st : Manager) : Manager :=
  let st := withSocket r ws (withClients (Set_add r (clients st)) st) in
  fold_left (sendInitial r) (lastMarketData st) st.

(** The end of one symbol's turn in the market loop:
    [lastMarketData.set(symbol, marketData)] then
    [broadcast(JSON.stringify(marketData))]. *)
Definition publish (st : Manager) (marketData : MarketData) : Manager :=
  let st :=
    {| clients := clients st; sockets := sockets st;
       lastMarketData :=
         Map_set (symbol marketData) marketData (lastMarketData st) |} in
  broadcast (JSON_stringify marketData) st.

(** What happens to a running manager: a symbol's snapshot is published,
    a socket connects, a client's socket closes or errors. *)
Inductive Event : Type :=
| Publish (marketData : MarketData)
| Connect (r : nat) (ws : WebSocket)
| Close (r : nat).

Definition step (st : Manager) (e : Event) : Manager :=
  match e with
  | Publish marketData => publish st marketData
  | Connect r ws => onConnection r ws st
  | Close r => onClose r st
  end.

Definition run (events : list Event) : Manager :=
  fold_left step events initialManager.

End Manager.

(** What [broadcast] does to one client's socket: an open socket whose
    [send] returns gets the payload, any other is left as it is. *)
Definition deliver (data : string) (ws : WebSocket) : WebSocket :=
  if decide (readyState ws = OPEN) then
    if sendThrows ws data then ws else afterSend ws data
  else ws.

(** The client's socket is open and its [send] throws on the payload. *)
Definition throwsOpen (socks : gmap nat WebSocket) (data : string) (c : nat)
    : bool :=
  match socks !! c with
  | Some ws => bool_decide (readyState ws = OPEN) && sendThrows ws data
  | None => false
  end.

(** A channel that does not accept a push: it is not open, or its [send]
    throws. *)
Definition failsToAccept (ws : WebSocket) (data : string) : Prop :=
  readyState ws <> OPEN \/ sendThrows ws data = true.

(** A channel whose send is still not flushed after [timeout]. *)
Definition exceedsTimeout (timeout : nat) (ws : WebSocket) : Prop :=
  match flushDelay ws with
  | Some delay => timeout < delay
  | None => True
  end.

(** The claim that a broadcast removes every channel that fails to accept
    the push or exceeds the per-send timeout. *)
Definition deadSubscribersRemoved (timeout : nat) (data : string)
    (st : Manager) : Prop :=
  forall c ws,
    c ∈ clients st -> sockets st !! c = Some ws ->
    failsToAccept ws data \/ exceedsTimeout timeout ws ->
    c ∉ clients (broadcast data st).

(** The snapshots published in a run, oldest first. *)
Definition published (events : list Event) : list MarketData :=
  omap (fun e => match e with Publish md => Some md | _ => None end) events.

(** The snapshot last published for a symbol in a run of ticks. *)
Definition lastPublished (sym : string) (ticks : list MarketData)
    : option MarketData :=
  last (filter (fun md => symbol md = sym) ticks).

(** *** Portfolio valuation

    A row of the [portfolio] table; [amount] is the number that
    [parseFloat(position.amount.toString())] reads from the stored
    decimal. *)
Record Portfolio : Type := {
  id : nat;
  userId : nat;
  positionSymbol : string;
  amount : num;
  averagePrice : num
}.

(** [storage.getUserPortfolio(userId)]. *)
Definition getUserPortfolio (table : list Portfolio) (uid : nat)
    : list Portfolio :=
  filter (fun p => userId p = uid) table.

(** [this.lastMarketData.get(symbol)?.price || 0]. *)
Definition currentPriceOf (lmd : list (string * MarketData)) (sym : string)
    : num :=
  match Map_get sym lmd with
  | Some data => Num.or (price data) zero
  | None => zero
  end.

(** The valuation [portfolio.reduce((sum, position) => sum +
    parseFloat(position.amount.toString()) * currentPrice, 0)]. *)
Definition totalValue (portfolio : list Portfolio)
    (lmd : list (string * MarketData)) : num :=
  fold_left
    (fun sum position =>
       (sum + amount position * currentPriceOf lmd (positionSymbol position))%num)
    portfolio zero.

(** [updatePortfolioValue]: the call [storage.recordPortfolioValue(1,
    totalValue)] it makes, if it makes one.  The tracker follows user 1. *)
Definition updatePortfolioValue (table : list Portfolio)
    (lmd : list (string * MarketData)) : option (nat * num) :=
  let portfolio := getUserPortfolio table 1 in
  if decide (0 < length portfolio) then Some (1, totalValue portfolio lmd)
  else None.

(** The contribution of one holding as the specification words it:
    quantity times current price, a symbol without a price counting
    for 0. *)
Definition specTerm (prices : gmap string num) (h : Portfolio) : num :=
  match prices !! positionSymbol h with
  | Some p => (amount h * p)%num
  | None => zero
  end.

(** The valuation as the specification words it: the sum of the
    contributions of the holdings. *)
Definition specTotalValue (holdings : list Portfolio)
    (prices : gmap string num) : num :=
  foldr add zero (map (specTerm prices) holdings).

(** The price map read off the last snapshots. *)
Definition priceMap (lmd : list (string * MarketData)) : gmap string num :=
  foldr (fun e m => <[e.1 := price e.2]> m) ∅ lmd.

(** *** Auxiliary notions for the valuation *)

(** A finite number in lowest terms. *)
Definition canonical (x : num) : Prop :=
  exists q, x = Fin q /\ Qred q = q.

(** The rational a finite number denotes. *)
Definition toQ (x : num) : Q :=
  match x with Fin q => q | _ => 0%Q end.

Definition Qsum (qs : list Q) : Q := foldr Qplus 0%Q qs.

(** The contribution of one holding as the code computes it. *)
Definition codeTerm (lmd : list (string * MarketData)) (p : Portfolio) : num :=
  (amount p * currentPriceOf lmd (positionSymbol p))%num.

(** *** Sample managers and tables *)

(** One holding of 0.5 BTC for user 1, and BTC last seen at 95000. *)
Definition btcTable : list Portfolio :=
  [{| id := 1; userId := 1; positionSymbol := "BTC";
      amount := n0_5; averagePrice := Fin 90000 |}].

Definition btcSnapshot : MarketData :=
  {| symbol := "BTC"; exchange := "crypto"; price := Fin 95000;
     volume24h := Fin 5500; mdTimestamp := 1700000000;
     patternAnalysis := None; volatilityMetrics := None;
     aiAnalysis := None |}.

Definition neverThrows (data : string) : bool := false.
Definition alwaysThrows (data : string) : bool := true.

Definition healthySocket : WebSocket :=
  {| readyState := OPEN; sendThrows := neverThrows; sent := [];
     flushDelay := Some 5 |}.

Definition brokenSocket : WebSocket :=
  {| readyState := OPEN; sendThrows := alwaysThrows; sent := [];
     flushDelay := Some 5 |}.

(** An open socket whose peer never drains. *)
Definition stalledSocket : WebSocket :=
  {| readyState := OPEN; sendThrows := neverThrows; sent := [];
     flushDelay := None |}.

Definition closingSocket : WebSocket :=
  {| readyState := CLOSING; sendThrows := neverThrows; sent := [];
     flushDelay := Some 5 |}.

Definition crowded : Manager :=
  {| clients := [1; 2; 3; 4];
     sockets := <[1 := healthySocket]> (<[2 := brokenSocket]>
                  (<[3 := stalledSocket]> (<[4 := closingSocket]> ∅)));
     lastMarketData := [] |}.

Definition ethSnapshot (p : num) (t : Z) : MarketData :=
  {| symbol := "ETH/USD"; exchange := "crypto"; price := p;
     volume24h := Fin 5200; mdTimestamp := t;
     patternAnalysis := None; volatilityMetrics := None;
     aiAnalysis := None |}.

Definition btcSnapshotAt (p : num) (t : Z) : MarketData :=
  {| symbol := "BTC/USD"; exchange := "crypto"; price := p;
     volume24h := Fin 5500; mdTimestamp := t;
     patternAnalysis := None; volatilityMetrics := None;
     aiAnalysis := None |}.

(** A serialisation that tells the sample snapshots apart. *)
Definition sampleStringify (md : MarketData) : string :=
  symbol md ++ (if decide (mdTimestamp md = 1700000000%Z) then "@0" else "@1").

End Hub.


(** * TensorFlow.js: the convolution call as the library takes it

    [tf.conv2d(x, filter, 1, 'valid')] reads [x] as [batch, height, width,
    channels] and [filter] as [filterHeight, filterWidth, inChannels,
    outChannels].  Without padding and with stride 1 the output has
    [height - filterHeight + 1] rows and [width - filterWidth + 1] columns;
    the library cannot build a tensor one of whose sizes is negative, and
    the call throws.  A tensor is its shape and its values in row-major
    order. *)

Module Tensor.

Import Num.

Record Tensor4D : Type := {
  shape : nat * nat * nat * nat;
  values : list num
}.

(** The value at position [a, b, c, d]. *)
Definition at4 (t : Tensor4D) (a b c d : nat) : num :=
  let '(_, n1, n2, n3) := shape t in
  default NaN (values t !! (((a * n1 + b) * n2 + c) * n3 + d)).

(** One output cell: the products of the filter with the input cells under
    it, accumulated from 0. *)
Definition cell (x filter : Tensor4D) (b i j o : nat) : num :=
  let '(_, _, _, inChannels) := shape x in
  let '(filterHeight, filterWidth, _, _) := shape filter in
  fold_left add
    (flat_map
       (fun di =>
          flat_map
            (fun dj =>
               map (fun c =>
                      (at4 x b (i + di) (j + dj) c * at4 filter di dj c o)%num)
                 (seq 0 inChannels))
            (seq 0 filterWidth))
       (seq 0 filterHeight))
    zero.

(** [tf.conv2d(x, filter, 1, 'valid')]; [None] when the call throws: the
    channels of input and filter differ, or an output size would be
    negative. *)
Definition conv2d (x filter : Tensor4D) : option Tensor4D :=
  let '(batch, inHeight, inWidth, inChannels) := shape x in
  let '(filterHeight, filterWidth, filterChannels, outChannels) :=
    shape filter in
  if decide (inChannels = filterChannels) then
    if decide (filterHeight <= inHeight + 1 /\ filterWidth <= inWidth + 1)
    then
      let outHeight := inHeight + 1 - filterHeight in
      let outWidth := inWidth + 1 - filterWidth in
      Some {| shape := (batch, outHeight, outWidth, outChannels);
              values :=
                flat_map
                  (fun b =>
                     flat_map
                       (fun i =>
                          flat_map
                            (fun j =>
                               map (fun o => cell x filter b i j o)
                                 (seq 0 outChannels))
                            (seq 0 outWidth))
                       (seq 0 outHeight))
                  (seq 0 batch) |}
    else None
  else None.

(** [t.squeeze().array()] as the loops of [detectPatterns] read it, a
    [number[]] indexed up to its [length].  Sizes of 1 are dropped.  What
    is left of rank 1 is the array of the values; a scalar has no [length]
    and the loops do not run; with a higher rank the elements are arrays
    themselves, which [Math.abs] does not turn into a number above the
    threshold: they stand as NaN. *)
Definition squeezedArray (t : Tensor4D) : list num :=
  let '(n0, n1, n2, n3) := shape t in
  match filter (fun n => n <> 1) [n0; n1; n2; n3] with
  | [] => []
  | [_] => values t
  | n :: _ => replicate n NaN
  end.

End Tensor.

(** * TechnicalAnalysisService.detectPatterns, call by call

    [src/unnamed/part_003], lines 29-123, with the tensor shapes the calls
    are written with: the window is reshaped to [1, 30, 1, 1] and each
    kernel is built as [1, 5, 1, 1], a filter one row high and five
    columns wide over an input one column wide.  Whatever throws inside
    the [try] ends in the [catch], which logs and returns the empty
    list. *)

Module TechnicalAnalysisService.

Import Num Tensor TechnicalAnalysis.

Definition triangleKernel : Tensor4D :=
  {| shape := (1, 5, 1, 1); values := TechnicalAnalysis.triangleKernel |}.

Definition hsKernel : Tensor4D :=
  {| shape := (1, 5, 1, 1); values := TechnicalAnalysis.hsKernel |}.

(** [tf.reshape(normalized, [1, PATTERN_WINDOW, 1, 1])]. *)
Definition reshaped (normalized : list num) : Tensor4D :=
  {| shape := (1, PATTERN_WINDOW, 1, 1); values := normalized |}.

Definition detectPatterns (prices : list num) : list PatternResult :=
  if decide (length prices < PATTERN_WINDOW) then []
  else
    let priceWindow := sliceLast PATTERN_WINDOW prices in
    let normalized := normalize priceWindow in
    match conv2d (reshaped normalized) triangleKernel with
    | None => []
    | Some triangleConv =>
        match conv2d (reshaped normalized) hsKernel with
        | None => []
        | Some hsConv =>
            let triangleData := squeezedArray triangleConv in
            let hsData := squeezedArray hsConv in
            scan triangle 0 triangleData
            ++ scan head_and_shoulders 0 hsData
        end
    end.

(** The kernels laid along the series, five rows high and one column
    wide: the layout under which the call returns. *)
Definition alongSeries (kernel : list num) : Tensor4D :=
  {| shape := (5, 1, 1, 1); values := kernel |}.


End TechnicalAnalysisService.

(** * AIAnalysisService with calls in flight

    [analyzeMarket] tests the cache, and on a miss awaits the OpenAI
    request before it stores the result.  While the request is pending the
    event loop runs other callers: nothing in the service records that a
    request is under way.  Here a call is cut at its [await].  The part up
    to the [await] (the cache test and, on a miss, the sending of the
    request) is one event; the part after it (the store, with [Date.now()]
    as it reads then, and the return) is another.  Between the two any
    other event may take place.  Calls carry an identifier so that what
    each one returned can be told apart. *)

Module AIAnalysisAsync.

Import TechnicalAnalysis AIAnalysis.

(** A call suspended at [await openai.chat.completions.create(...)]: the
    symbol it is for, and what its request settles to ([None] when the
    request or the parse of the answer throws). *)
Record Suspended : Type := {
  forSymbol : string;
  outcome : option AIAnalysisResult
}.

Record Service : Type := {
  state : AIState;
  suspended : gmap nat Suspended;
  returned : gmap nat AIAnalysisResult
}.

Definition idle (st : AIState) : Service :=
  {| state := st; suspended := ∅; returned := ∅ |}.

Inductive Event : Type :=
| Call (id : nat) (symbol : string) (currentPrice : num)
    (technicalData : TechnicalData) (historicalPrices : list num)
| Settle (id : nat)
| Wait (ms : N).

Section Service.

Variable openai : nat -> MarketContext -> OracleReply.
Variable formatChange : num -> string.

(** [analyzeMarket] up to its [await]: a fresh entry is returned at once;
    otherwise the request is sent and the call is suspended. *)
Definition start (id : nat) (symbol : string) (currentPrice : num)
    (technicalData : TechnicalData) (historicalPrices : list num)
    (sv : Service) : Service :=
  let cached := analysisCache (state sv) !! symbol in
  match (if fresh (state sv) cached then cached else None) with
  | Some c =>
      {| state := state sv;
         suspended := suspended sv;
         returned := <[id := result c]> (returned sv) |}
  | None =>
      let marketContext :=
        marketContextOf formatChange symbol currentPrice technicalData
          historicalPrices in
      let reply := openai (length (oracleLog (state sv))) marketContext in
      {| state :=
           {| analysisCache := analysisCache (state sv);
              now := now (state sv);
              oracleLog := oracleLog (state sv) ++ [marketContext] |};
         suspended :=
           <[id := {| forSymbol := symbol; outcome := content reply |}]>
             (suspended sv);
         returned := returned sv |}
  end.

(** [analyzeMarket] from its [await] on: the analysis, or the default
    result when the request or the parse threw, is stored under the symbol
    with the time of the store and returned. *)
Definition resume (id : nat) (sv : Service) : Service :=
  match suspended sv !! id with
  | Some call =>
      let r :=
        match outcome call with
        | Some analysis => analysis
        | None => defaultResult
        end in
      {| state := cacheSet (forSymbol call) r (state sv);
         suspended := delete id (suspended sv);
         returned := <[id := r]> (returned sv) |}
  | None => sv
  end.

Definition step (sv : Service) (e : Event) : Service :=
  match e with
  | Call id symbol currentPrice technicalData historicalPrices =>
      start id symbol currentPrice technicalData historicalPrices sv
  | Settle id => resume id sv
  | Wait ms =>
      {| state := elapse ms (state sv);
         suspended := suspended sv;
         returned := returned sv |}
  end.

Definition run (sv : Service) (events : list Event) : Service :=
  fold_left step events sv.

(** The symbol whose entry an event stores, if it stores one. *)
Definition stores (sv : Service) (e : Event) : option string :=
  match e with
  | Settle id => forSymbol <$> suspended sv !! id
  | _ => None
  end.

(** No event of the run stores an entry for [symbol]. *)
Fixpoint quiet (symbol : string) (sv : Service) (events : list Event)
    : Prop :=
  match events with
  | [] => True
  | e :: events' =>
      stores sv e <> Some symbol /\ quiet symbol (step sv e) events'
  end.


End Service.

(** The time that passes in a run. *)
Definition elapsed (events : list Event) : Z :=
  foldr (fun e t => match e with Wait ms => (Z.of_N ms + t)%Z | _ => t end)
    0%Z events.

(** The event belongs to call [id]. *)
Definition ofCall (id : nat) (e : Event) : Prop :=
  match e with
  | Call id' _ _ _ _ => id' = id
  | Settle id' => id' = id
  | Wait _ => False
  end.

(** Answers that can be told apart: the answer to the [n]-th request has
    a confidence of [n / 10]. *)
Definition answer (n : nat) : AIAnalysisResult :=
  {| recommendation := buy;
     aiConfidence := Fin (Z.of_nat n # 10);
     reasoning := ["momentum"%string];
     marketSentiment := "bullish";
     riskLevel := low |}.

Definition numberedOracle (n : nat) (ctx : MarketContext) : OracleReply :=
  {| latency := 300%N; content := Some (answer n) |}.

Definition btc (id : nat) : Event :=
  Call id "BTC/USD" (Fin 95000) noTechnicals [].

Definition eth (id : nat) : Event :=
  Call id "ETH/USD" (Fin 3200) noTechnicals [].

End AIAnalysisAsync.

(** * Further parts of the server

    The rest of the code around the claims: the market loop, the storage
    layer the portfolio tracker writes to, and notions used to state their
    properties. *)

(** ** Order notions on numbers *)

Module Ordering.

(** A number that is NaN, or not below zero: what [Math.sqrt] returns. *)
Definition nonNegOrNaN (x : num) : Prop :=
  match x with
  | Fin q => (0 <= q)%Q
  | PInf | NaN => True
  | NInf => False
  end.

(** [x <= y] holds. *)
Definition leq (x y : num) : Prop := le x y = true.

End Ordering.

(** ** WebSocketManager: the market loop

    [startSimulatedDataFeed] keeps an object [basePrice] from symbol to
    price and, every second, takes each entry in turn: a new price is
    drawn, appended to the history, analysed, and the snapshot is stored
    and broadcast.  [Math.random()] is an input of the model: one draw for
    the price and one for the volume of each symbol.  The body of the loop
    is a [try]; no operation of the model throws.  A firing is taken
    here as running to its end before the next one begins, which is what
    the source does as long as the requests a firing awaits are answered
    within the second; firings that overlap because a request outlasts
    the period are not modelled. *)

Module Feed.

Import PriceHistory TechnicalAnalysis AIAnalysis Hub.

Record FeedState : Type := {
  basePrice : list (string * num);
  priceHistory : gmap string (list num);
  aiState : AIState;
  manager : Manager
}.

Definition initialBasePrice : list (string * num) :=
  [("BTC/USD"%string, Fin 95000); ("ETH/USD"%string, Fin 3200);
   ("SOL/USD"%string, Fin 140); ("ADA/USD"%string, Fin (7 # 10));
   ("DOT/USD"%string, Fin (44 # 5)); ("AVAX/USD"%string, Fin 38);
   ("MATIC/USD"%string, Fin (11 # 10)); ("LINK/USD"%string, Fin 22);
   ("UNI/USD"%string, Fin 12); ("AAVE/USD"%string, Fin 115)].

Definition initialFeed (t0 : Z) : FeedState :=
  {| basePrice := initialBasePrice;
     priceHistory := ∅;
     aiState := initialState t0;
     manager := initialManager |}.

(** The new price: [price + price * volatility * randomFactor] with
    [volatility = 0.001] and [randomFactor = (Math.random() - 0.5) * 2]. *)
Definition nextPrice (price random : num) : num :=
  let volatility := Fin (1 # 1000) in
  let randomFactor := ((random - n0_5) * Fin 2)%num in
  let change := (price * volatility * randomFactor)%num in
  (price + change)%num.

(** [Math.random() * 1000 + 5000]. *)
Definition nextVolume (random : num) : num :=
  (random * Fin 1000 + Fin 5000)%num.

Section Loop.

Variable Math_log : num -> num.
Variable Math_sqrt : num -> num.
Variable openai : nat -> MarketContext -> OracleReply.
Variable formatChange : num -> string.
Variable JSON_stringify : MarketData -> string.

(** [analyzeTechnicals(symbol)]. *)
Definition analyzeTechnicals (symbol : string)
    (ph : gmap string (list num)) : TechnicalData :=
  let prices := getHistory symbol ph in
  {| patterns := TechnicalAnalysisService.detectPatterns prices;
     volatility := calculateVolatility Math_log Math_sqrt prices |}.

(** The snapshot assembled for a symbol; [nowMs] is [Date.now()]. *)
Definition assemble (symbol : string) (newPrice volume : num) (nowMs : Z)
    (technicals : TechnicalData) (aiResult : AIAnalysisResult) : MarketData :=
  {| symbol := symbol;
     exchange := "crypto";
     price := newPrice;
     volume24h := volume;
     mdTimestamp := (nowMs / 1000)%Z;
     patternAnalysis :=
       if decide (0 < length (patterns technicals))
       then Some (patterns technicals) else None;
     volatilityMetrics := volatility technicals;
     aiAnalysis := Some aiResult |}.

(** One symbol's turn in the loop. *)
Definition processSymbol (symbol : string) (price : num)
    (randomPrice randomVolume : num) (st : FeedState) : FeedState :=
  let newPrice := nextPrice price randomPrice in
  let basePrice := Map_set symbol newPrice (basePrice st) in
  let ph := updatePriceHistory symbol newPrice (priceHistory st) in
  let technicals := analyzeTechnicals symbol ph in
  let '(aiResult, ai) :=
    analyzeMarket openai formatChange symbol newPrice technicals
      (getHistory symbol ph) (aiState st) in
  let marketData :=
    assemble symbol newPrice (nextVolume randomVolume) (now ai)
      technicals aiResult in
  {| basePrice := basePrice;
     priceHistory := ph;
     aiState := ai;
     manager := publish JSON_stringify (manager st) marketData |}.

(** The snapshot a turn publishes, given the state before it. *)
Definition snapshotOf (symbol : string) (price randomPrice randomVolume : num)
    (st : FeedState) : MarketData :=
  let newPrice := nextPrice price randomPrice in
  let ph := updatePriceHistory symbol newPrice (priceHistory st) in
  let technicals := analyzeTechnicals symbol ph in
  let call :=
    analyzeMarket openai formatChange symbol newPrice technicals
      (getHistory symbol ph) (aiState st) in
  assemble symbol newPrice (nextVolume randomVolume) (now call.2)
    technicals call.1.

(** What a firing leaves for an entry [(symbol, price)] of [basePrice]:
    the symbol's last snapshot carries the new price, which is also the
    last element of the symbol's history; its volatility metrics are those
    of that history and it carries no pattern analysis (the detector
    reports none); the history is the one of before the firing with the
    new price appended. *)
Definition settled (draws : string -> num * num)
    (before : gmap string (list num)) (st : FeedState)
    (entry : string * num) : Prop :=
  let newPrice := nextPrice entry.2 (draws entry.1).1 in
  let history := getHistory entry.1 (priceHistory st) in
  history = getHistory entry.1 (updatePriceHistory entry.1 newPrice before)
  /\ last history = Some newPrice
  /\ exists md,
       Map_get entry.1 (lastMarketData (manager st)) = Some md
       /\ symbol md = entry.1
       /\ price md = newPrice
       /\ volatilityMetrics md = calculateVolatility Math_log Math_sqrt history
       /\ patternAnalysis md = None
       /\ is_Some (aiAnalysis md).

(** The turn of one entry [(symbol, price)] of [basePrice]; [draws] gives
    the two random numbers of each symbol. *)
Definition turn (draws : string -> num * num) (st : FeedState)
    (entry : string * num) : FeedState :=
  processSymbol entry.1 entry.2 (draws entry.1).1 (draws entry.1).2 st.

(** One firing of the interval: every entry of [basePrice], as it stands
    when the firing starts, in order. *)
Definition marketTick (draws : string -> num * num) (st : FeedState)
    : FeedState :=
  fold_left (turn draws) (basePrice st) st.

(** Successive firings. *)
Definition marketTicks (draws : list (string -> num * num)) (st : FeedState)
    : FeedState :=
  fold_left (fun st d => marketTick d st) draws st.

End Loop.

(** A draw of [Math.random()]: a rational in [0, 1). *)
Definition isRandom (r : num) : Prop :=
  match r with
  | Fin q => (0 <= q < 1)%Q
  | _ => False
  end.

(** A finite, strictly positive price. *)
Definition positivePrice (p : num) : Prop :=
  match p with
  | Fin q => (0 < q)%Q
  | _ => False
  end.

(** [p'] is a finite price within 0.1% of the finite price [p]. *)
Definition withinTenthPercent (p p' : num) : Prop :=
  match p, p' with
  | Fin q, Fin q' => (q * (999 # 1000) <= q' <= q * (1001 # 1000))%Q
  | _, _ => False
  end.

(** The entry a turn leaves in [basePrice]. *)
Definition moved (draws : string -> num * num) (entry : string * num)
    : string * num :=
  (entry.1, nextPrice entry.2 (draws entry.1).1).

(** Draws at the middle of the range: prices do not move. *)
Definition steadyDraws (symbol : string) : num * num := (n0_5, n0_5).

(** Draws of 3/4 for the price: every price rises by 0.05%. *)
Definition risingDraws (symbol : string) : num * num := (Fin (3 # 4), n0_5).

End Feed.

(** ** Subscribers over a run of events *)

Module Subscribers.

Import Hub.

(** The event is a new connection under the reference [r]. *)
Definition reconnects (r : nat) (e : Event) : Prop :=
  match e with
  | Connect r' _ => r' = r
  | _ => False
  end.

(** The event neither connects nor closes the reference [r]. *)
Definition foreignTo (r : nat) (e : Event) : Prop :=
  match e with
  | Publish _ => True
  | Connect r' _ => r' <> r
  | Close r' => r' <> r
  end.

End Subscribers.

(** ** DatabaseStorage

    The tables are lists of rows in insertion order; a [serial] key is
    drawn from a counter per table.  A decimal column is modelled by the
    number written to it: the rounding of [numeric(18, 8)] is not modelled,
    no more than that of floating point.  Dates are milliseconds.  Database
    failures are not modelled. *)

Module Storage.

Import Hub.

Record PortfolioHistory : Type := {
  phId : nat;
  phUserId : nat;
  phTotalValue : num;
  phTimestamp : Z
}.

Record Trade : Type := {
  tradeId : nat;
  tradeUserId : nat;
  tradeSymbol : string;
  tradeExchange : string;
  tradeAmount : num;
  tradePrice : num;
  tradeType : string;
  tradeStatus : string;
  tradeFee : num;
  tradeTimestamp : Z
}.

Record User : Type := {
  uid : nat;
  username : string;
  password : string;
  balance : num
}.

Record DB : Type := {
  users : list User;
  portfolio : list Portfolio;
  portfolioHistory : list PortfolioHistory;
  trades : list Trade;
  nextPortfolioId : nat;
  nextHistoryId : nat;
  nextTradeId : nat
}.

Definition withPortfolio (rows : list Portfolio) (next : nat) (db : DB) : DB :=
  {| users := users db; portfolio := rows;
     portfolioHistory := portfolioHistory db; trades := trades db;
     nextPortfolioId := next; nextHistoryId := nextHistoryId db;
     nextTradeId := nextTradeId db |}.

Definition withHistory (rows : list PortfolioHistory) (next : nat) (db : DB)
    : DB :=
  {| users := users db; portfolio := portfolio db;
     portfolioHistory := rows; trades := trades db;
     nextPortfolioId := nextPortfolioId db; nextHistoryId := next;
     nextTradeId := nextTradeId db |}.

Definition withTrades (rows : list Trade) (next : nat) (db : DB) : DB :=
  {| users := users db; portfolio := portfolio db;
     portfolioHistory := portfolioHistory db; trades := rows;
     nextPortfolioId := nextPortfolioId db; nextHistoryId := nextHistoryId db;
     nextTradeId := next |}.

Definition withUsers (rows : list User) (db : DB) : DB :=
  {| users := rows; portfolio := portfolio db;
     portfolioHistory := portfolioHistory db; trades := trades db;
     nextPortfolioId := nextPortfolioId db; nextHistoryId := nextHistoryId db;
     nextTradeId := nextTradeId db |}.

Definition hourMs : Z := 3600000.

(** [subHours(date, n)] of date-fns: [n] hours of 3 600 000 ms earlier. *)
Definition subHours (date : Z) (n : Z) : Z := (date - n * hourMs)%Z.

(** The history rows of one user. *)
Definition historyOf (userId : nat) (rows : list PortfolioHistory)
    : list PortfolioHistory :=
  filter (fun h => phUserId h = userId) rows.

(** One [db.insert(schema.portfolioHistory).values(...)]. *)
Definition insertHistory (userId : nat) (value : num) (timestamp : Z)
    (db : DB) : DB :=
  withHistory
    (portfolioHistory db
     ++ [{| phId := nextHistoryId db; phUserId := userId;
            phTotalValue := value; phTimestamp := timestamp |}])
    (S (nextHistoryId db)) db.

(** [totalValue * (1 + variance)] with
    [variance = (Math.random() - 0.5) * 0.02]. *)
Definition seedValue (totalValue random : num) : num :=
  let variance := ((random - n0_5) * Fin (2 # 100))%num in
  (totalValue * (Fin 1 + variance))%num.

Section Dates.

(** [subDays(date, n)] of date-fns moves the calendar day in local time;
    it is left as a parameter. *)
Variable subDays : Z -> Z -> Z.

(** The fifteen dates of the initial history. *)
Definition seedTimestamps (now : Z) : list Z :=
  [subDays now 7; subDays now 6; subDays now 5; subDays now 4;
   subDays now 3; subDays now 2; subDays now 1;
   subHours now 20; subHours now 16; subHours now 12; subHours now 8;
   subHours now 4; subHours now 2; subHours now 1; now].

(** [recordPortfolioValue(userId, totalValue)].  [now] is the clock when
    it runs and [randoms] gives the draw of [Math.random()] for each of the
    fifteen initial points.  The inserts of [Promise.all] are taken in the
    order of the array.  The read of the history and the inserts are one
    step: no other call runs between them. *)
Definition recordPortfolioValue (userId : nat) (totalValue : num)
    (now : Z) (randoms : nat -> num) (db : DB) : DB :=
  let history := take 1 (historyOf userId (portfolioHistory db)) in
  if decide (length history = 0) then
    fold_left
      (fun db point =>
         insertHistory userId (seedValue totalValue (randoms point.1))
           point.2 db)
      (imap (fun i timestamp => (i, timestamp)) (seedTimestamps now)) db
  else insertHistory userId totalValue now db.

(** One firing of the portfolio loop: [updatePortfolioValue] on the stored
    positions and the last snapshots, and the recording of the value it
    computes. *)
Definition portfolioTick (lmd : list (string * MarketData)) (now : Z)
    (randoms : nat -> num) (db : DB) : DB :=
  match updatePortfolioValue (portfolio db) lmd with
  | Some (userId, totalValue) =>
      recordPortfolioValue userId totalValue now randoms db
  | None => db
  end.

End Dates.

(** *** Positions *)

(** [select().from(portfolio).where(userId, symbol).limit(1)]. *)
Definition findPosition (userId : nat) (symbol : string)
    (rows : list Portfolio) : list Portfolio :=
  take 1 (filter (fun p => Hub.userId p = userId /\ positionSymbol p = symbol)
            rows).

Definition dust : num := Fin (1 # 100000000).

(** [updatePortfolio(userId, symbol, type, amount, price)].  The column
    [lastUpdated] is not modelled. *)
Definition updatePortfolio (userId : nat) (symbol : string) (type : string)
    (amount price : num) (db : DB) : DB :=
  let existingPosition := findPosition userId symbol (portfolio db) in
  let newAmount := if decide (type = "buy"%string) then amount else neg amount in
  match existingPosition with
  | existing :: _ =>
      let currentAmount := Hub.amount existing in
      let currentAvgPrice := averagePrice existing in
      let totalAmount := (currentAmount + newAmount)%num in
      if lt (abs totalAmount) dust then
        withPortfolio
          (filter (fun p => id p <> id existing) (portfolio db))
          (nextPortfolioId db) db
      else
        let newAvgPrice :=
          if decide (type = "buy"%string)
          then ((currentAmount * currentAvgPrice + amount * price)
                / totalAmount)%num
          else currentAvgPrice in
        withPortfolio
          (map (fun p =>
                  if decide (id p = id existing)
                  then {| id := id p; userId := Hub.userId p;
                          positionSymbol := positionSymbol p;
                          amount := totalAmount;
                          averagePrice := newAvgPrice |}
                  else p) (portfolio db))
          (nextPortfolioId db) db
  | [] =>
      if decide (type = "buy"%string) then
        withPortfolio
          (portfolio db
           ++ [{| id := nextPortfolioId db; userId := userId;
                  positionSymbol := symbol; amount := amount;
                  averagePrice := price |}])
          (S (nextPortfolioId db)) db
      else db
  end.

(** The value at cost of some positions:
    [reduce((sum, pos) => sum + amount * averagePrice, 0)]. *)
Definition costBasis (positions : list Portfolio) : num :=
  fold_left (fun sum pos => (sum + amount pos * averagePrice pos)%num)
    positions zero.

(** The key of a position. *)
Definition keyOf (p : Portfolio) : nat * string :=
  (Hub.userId p, positionSymbol p).

(** The signed amount a trade adds to a position, and the position it
    makes of an existing one. *)
Definition signedAmount (type : string) (amount : num) : num :=
  if decide (type = "buy"%string) then amount else neg amount.

Definition tradedPosition (existing : Portfolio) (type : string)
    (amount price : num) : Portfolio :=
  let totalAmount := (Hub.amount existing + signedAmount type amount)%num in
  {| id := id existing; userId := Hub.userId existing;
     positionSymbol := positionSymbol existing;
     amount := totalAmount;
     averagePrice :=
       if decide (type = "buy"%string)
       then ((Hub.amount existing * averagePrice existing + amount * price)
             / totalAmount)%num
       else averagePrice existing |}.

(** What the table must satisfy for keys to be keys: distinct [id]s, all
    below the counter, and at most one position per user and symbol. *)
Definition wellKeyed (db : DB) : Prop :=
  NoDup (map id (portfolio db))
  /\ Forall (fun p => id p < nextPortfolioId db) (portfolio db)
  /\ NoDup (map (fun p => (Hub.userId p, positionSymbol p)) (portfolio db)).

(** The position of a user in a symbol, if any. *)
Definition positionOf (userId : nat) (symbol : string) (db : DB)
    : option Portfolio :=
  head (findPosition userId symbol (portfolio db)).

(** The rows the initial history consists of, given the first free key
    and the dates with their positions. *)
Definition seedRows (userId : nat) (totalValue : num) (randoms : nat -> num)
    (next : nat) (points : list (nat * Z)) : list PortfolioHistory :=
  imap (fun k point =>
          {| phId := next + k; phUserId := userId;
             phTotalValue := seedValue totalValue (randoms point.1);
             phTimestamp := point.2 |}) points.

(** [subDays] where a day always lasts 24 hours (a server on UTC). *)
Definition utcSubDays (date : Z) (n : Z) : Z := (date - n * 24 * hourMs)%Z.

Definition emptyDB : DB :=
  {| users := []; portfolio := []; portfolioHistory := []; trades := [];
     nextPortfolioId := 1; nextHistoryId := 0; nextTradeId := 1 |}.

(** User 1 holds 0.5 BTC and has a history started at a value of 47500. *)
Definition startedDB : DB :=
  recordPortfolioValue utcSubDays 1 (Fin 47500) 1700000000000
    (fun _ => n0_5) (withPortfolio btcTable 2 emptyDB).

(** A value within 1% of a finite non-negative total. *)
Definition withinOnePercent (total value : num) : Prop :=
  match total, value with
  | Fin t, Fin v => (t * (99 # 100) <= v <= t * (101 # 100))%Q
  | _, _ => False
  end.

End Storage.

(** * Trades: [createTrade] and the handler of [POST /api/trades]

    The handler of [src/server/routes.ts] with the storage functions it
    calls.  The database answers every statement (no connection failure),
    requests are handled one after the other, and the clock readings and
    random draws are arguments. *)

Module Trading.

Import Num Hub Storage.

(** A request body as [insertTradeSchema] types it.  [userId] is taken as
    a natural number. *)
Record InsertTrade : Type := {
  itUserId : nat;
  itSymbol : string;
  itAmount : num;
  itPrice : num;
  itType : string;
  itExchange : option string;
  itFee : option num
}.

(** [insertTradeSchema.parse] succeeds: [amount] and [price] positive,
    [type] one of buy and sell, [fee], if given, at least 0. *)
Definition parses (t : InsertTrade) : bool :=
  gt (itAmount t) zero
  && gt (itPrice t) zero
  && (bool_decide (itType t = "buy"%string)
      || bool_decide (itType t = "sell"%string))
  && match itFee t with
     | Some fee => le zero fee
     | None => true
     end.

(** [storage.getUser(id)]: the first row of that id. *)
Definition getUser (id : nat) (db : DB) : option User :=
  head (filter (fun u => uid u = id) (users db)).

Definition setBalance (newBalance : num) (u : User) : User :=
  {| uid := uid u; username := username u; password := password u;
     balance := newBalance |}.

(** [storage.updateUserBalance(id, newBalance)]: the updated row, or
    [None] where the source throws "User not found". *)
Definition updateUserBalance (id : nat) (newBalance : num) (db : DB)
    : option (User * DB) :=
  let rows :=
    map (fun u => if decide (uid u = id) then setBalance newBalance u else u)
      (users db) in
  match filter (fun u => uid u = id) rows with
  | user :: _ => Some (user, withUsers rows db)
  | [] => None
  end.

(** [insertTrade.exchange || 'crypto']: the empty string is falsy. *)
Definition exchangeOr (exchange : option string) : string :=
  match exchange with
  | Some e => if decide (e = ""%string) then "crypto"%string else e
  | None => "crypto"%string
  end.

(** [insertTrade.fee || 0]. *)
Definition feeOr (fee : option num) : num :=
  match fee with
  | Some f => Num.or f zero
  | None => zero
  end.

Section Clock.

Variable subDays : Z -> Z -> Z.

(** [storage.createTrade(insertTrade)]: the trade row, the position update
    and the recording of the user's positions valued at cost.  [tradeTime]
    is the clock at the insert of the trade, [recordTime] the clock in
    [recordPortfolioValue]. *)
Definition createTrade (insertTrade : InsertTrade) (tradeTime recordTime : Z)
    (randoms : nat -> num) (db : DB) : Trade * DB :=
  let trade :=
    {| tradeId := nextTradeId db;
       tradeUserId := itUserId insertTrade;
       tradeSymbol := itSymbol insertTrade;
       tradeExchange := exchangeOr (itExchange insertTrade);
       tradeAmount := itAmount insertTrade;
       tradePrice := itPrice insertTrade;
       tradeType := itType insertTrade;
       tradeStatus := "completed";
       tradeFee := feeOr (itFee insertTrade);
       tradeTimestamp := tradeTime |} in
  let db1 := withTrades (trades db ++ [trade]) (S (nextTradeId db)) db in
  let db2 :=
    updatePortfolio (itUserId insertTrade) (itSymbol insertTrade)
      (itType insertTrade) (itAmount insertTrade) (itPrice insertTrade) db1 in
  let portfolio := getUserPortfolio (portfolio db2) (itUserId insertTrade) in
  let totalValue := costBasis portfolio in
  (trade,
   recordPortfolioValue subDays (itUserId insertTrade) totalValue recordTime
     randoms db2).

(** What the handler answers. *)
Inductive Response : Type :=
| Ok (trade : Trade)      (* 200, [res.json(trade)] *)
| UserNotFound            (* 404 *)
| InsufficientBalance     (* 400 *)
| InvalidTrade            (* 400, [parse] threw *)
| Failed.                 (* 400, a storage call threw *)

(** The handler of [POST /api/trades]. *)
Definition postTrade (body : InsertTrade) (tradeTime recordTime : Z)
    (randoms : nat -> num) (db : DB) : Response * DB :=
  if negb (parses body) then (InvalidTrade, db)
  else
    let tradeData := body in
    match getUser (itUserId tradeData) db with
    | None => (UserNotFound, db)
    | Some user =>
        let tradeTotal := (itAmount tradeData * itPrice tradeData)%num in
        let currentBalance := balance user in
        if bool_decide (itType tradeData = "buy"%string)
           && gt tradeTotal currentBalance
        then (InsufficientBalance, db)
        else
          let '(trade, db1) :=
            createTrade tradeData tradeTime recordTime randoms db in
          let newBalance :=
            if decide (itType tradeData = "buy"%string)
            then (currentBalance - tradeTotal)%num
            else (currentBalance + tradeTotal)%num in
          match updateUserBalance (uid user) newBalance db1 with
          | None => (Failed, db1)
          | Some (_, db2) =>
              (Ok trade,
               updatePortfolio (itUserId tradeData) (itSymbol tradeData)
                 (itType tradeData) (itAmount tradeData) (itPrice tradeData)
                 db2)
          end
    end.

End Clock.

(** The request is answered with the trade. *)
Definition accepted (r : Response) : Prop :=
  match r with Ok _ => True | _ => False end.

(** User 1 with a balance of 500000 and no position. *)
Definition newcomerDB : DB :=
  withUsers [{| uid := 1; username := "demo"; password := "demo";
                balance := Fin 500000 |}] emptyDB.

Definition buyTwoEth : InsertTrade :=
  {| itUserId := 1; itSymbol := "ETH"; itAmount := Fin 2;
     itPrice := Fin 3000; itType := "buy"; itExchange := None;
     itFee := None |}.

Definition sellTwoEth : InsertTrade :=
  {| itUserId := 1; itSymbol := "ETH"; itAmount := Fin 2;
     itPrice := Fin 3000; itType := "sell"; itExchange := None;
     itFee := None |}.

End Trading.

(** * The history read back: [getPortfolioHistory]

    [src/server/storage.ts].  Rows come back from [orderBy] and from
    [Array.prototype.sort] in the order of their timestamps, rows of equal
    timestamps in the order they had (a stable sort).  The clock is a
    sequence of readings: an activation reads it once, the recording it
    may start reads the next one, and the activation that follows the one
    after.  The recursion of the source is bounded by [fuel]. *)

Module HistoryView.

Import Num Hub Storage.

(** A point of the timeline: [{ timestamp, value }]. *)
Record Point : Type := {
  ptTimestamp : Z;
  ptValue : num
}.

Fixpoint insertBy {A : Type} (key : A -> Z) (x : A) (l : list A) : list A :=
  match l with
  | [] => [x]
  | y :: l' =>
      if (key x <=? key y)%Z then x :: y :: l' else y :: insertBy key x l'
  end.

(** Stable sort by ascending key. *)
Definition sortBy {A : Type} (key : A -> Z) (l : list A) : list A :=
  foldr (insertBy key) [] l.

(** The start of the window: one hour for '1h', 24 hours for '24h' and
    for anything else. *)
Definition startOf (timeframe : string) (now : Z) : Z :=
  if decide (timeframe = "1h"%string) then subHours now 1
  else subHours now 24.

(** The trades and the snapshots of a user since [startDate]. *)
Definition tradesSince (userId : nat) (startDate : Z) (db : DB)
    : list Trade :=
  sortBy tradeTimestamp
    (filter (fun t => tradeUserId t = userId
                      /\ (startDate <= tradeTimestamp t)%Z) (trades db)).

Definition snapshotsSince (userId : nat) (startDate : Z) (db : DB)
    : list PortfolioHistory :=
  sortBy phTimestamp
    (filter (fun h => phUserId h = userId
                      /\ (startDate <= phTimestamp h)%Z)
       (portfolioHistory db)).

Definition tradePoint (trade : Trade) : Point :=
  {| ptTimestamp := tradeTimestamp trade;
     ptValue := (tradeAmount trade * tradePrice trade)%num |}.

Definition snapshotPoint (snapshot : PortfolioHistory) : Point :=
  {| ptTimestamp := phTimestamp snapshot;
     ptValue := phTotalValue snapshot |}.

(** The rows made of a timeline: ids count from 1. *)
Definition numbered (userId : nat) (timeline : list Point)
    : list PortfolioHistory :=
  imap (fun index point =>
          {| phId := index + 1; phUserId := userId;
             phTotalValue := ptValue point;
             phTimestamp := ptTimestamp point |}) timeline.

Section Clock.

Variable subDays : Z -> Z -> Z.
Variable clock : nat -> Z.
Variable randoms : nat -> nat -> num.

(** [getPortfolioHistory(userId, timeframe)], started at reading [tick]
    of the clock; [None] when [fuel] activations were not enough. *)
Fixpoint getPortfolioHistory (fuel : nat) (userId : nat)
    (timeframe : string) (tick : nat) (db : DB)
    : option (list PortfolioHistory) * DB :=
  match fuel with
  | 0 => (None, db)
  | S fuel' =>
      let now := clock tick in
      let startDate := startOf timeframe now in
      let trades := tradesSince userId startDate db in
      let snapshots := snapshotsSince userId startDate db in
      if bool_decide (length snapshots = 0)
         && bool_decide (length trades = 0)
      then
        let portfolio := getUserPortfolio (portfolio db) userId in
        let totalValue := costBasis portfolio in
        if gt totalValue zero then
          getPortfolioHistory fuel' userId timeframe (S (S tick))
            (recordPortfolioValue subDays userId totalValue
               (clock (S tick)) (randoms (S tick)) db)
        else (Some [], db)
      else
        let timeline :=
          sortBy ptTimestamp
            (map tradePoint trades ++ map snapshotPoint snapshots) in
        (Some (numbered userId timeline), db)
  end.

End Clock.

(** A clock that advances by one second per reading. *)
Definition secondsClock (k : nat) : Z :=
  (1700000000000 + 1000 * Z.of_nat k)%Z.

End HistoryView.

(** * The position calculator

    [src/client/src/components/trading/PositionCalculator.tsx].  The text
    fields arrive parsed: [None] is the empty field, [Some x] a field that
    [parseFloat] reads as [x] (NaN when it is no number). *)

Module PositionCalculator.

Import Num.

Record Sizing : Type := {
  riskAmount : num;
  maxPositionValue : num;
  riskPerUnit : num;
  positionSize : num
}.

Definition calculate (balance riskPercentage : num)
    (entryPrice stopLoss : option num) : Sizing :=
  let maxRiskPercentage := Num.min riskPercentage (Fin 2) in
  let riskAmount := (balance * maxRiskPercentage / Fin 100)%num in
  let maxPositionValue := (balance * n0_5)%num in
  match entryPrice, stopLoss with
  | Some entryPriceNum, Some stopLossNum =>
      let riskPerUnit :=
        if gt entryPriceNum stopLossNum
        then (entryPriceNum - stopLossNum)%num
        else (stopLossNum - entryPriceNum)%num in
      let rawPositionSize := (riskAmount / riskPerUnit)%num in
      {| riskAmount := riskAmount; maxPositionValue := maxPositionValue;
         riskPerUnit := riskPerUnit;
         positionSize :=
           Num.min rawPositionSize (maxPositionValue / entryPriceNum)%num |}
  | _, _ =>
      {| riskAmount := riskAmount; maxPositionValue := maxPositionValue;
         riskPerUnit := zero; positionSize := zero |}
  end.

End PositionCalculator.

(** * The portfolio tracker against the storage

    [startPortfolioTracking] with [storage.recordPortfolioValue]: what a
    firing of the tracker leaves in the history table. *)

Module Tracker.

Import Num Hub Storage.

(** The holdings of a user: the rows of the [portfolio] table that carry
    the user's id. *)
Definition holdingsOf (user : nat) (db : DB) : list Portfolio :=
  filter (fun p => userId p = user) (portfolio db).

(** The claim that a firing of the tracker records, for every user with
    holdings, the sum over the user's holdings of quantity times current
    price: the user's last history point is dated now and carries it. *)
Definition recordedForEveryUser (subDays : Z -> Z -> Z) : Prop :=
  forall (user : nat) (lmd : list (string * MarketData)) (now : Z)
         (randoms : nat -> num) (db : DB),
    holdingsOf user db <> [] ->
    Forall (fun p => isFinite (amount p) = true) (holdingsOf user db) ->
    Forall (fun e => isFinite (price e.2) = true) lmd ->
    exists h,
      last (historyOf user
              (portfolioHistory (portfolioTick subDays lmd now randoms db)))
      = Some h
      /\ phTimestamp h = now
      /\ phTotalValue h = specTotalValue (holdingsOf user db) (priceMap lmd).

(** User 1 holds 0.5 BTC and 1000 DOGE, user 2 holds 3 BTC; only BTC has a
    snapshot. *)
Definition mixedTable : list Portfolio :=
  btcTable
  ++ [{| id := 2; userId := 1; positionSymbol := "DOGE";
         amount := Fin 1000; averagePrice := n0_5 |};
      {| id := 3; userId := 2; positionSymbol := "BTC";
         amount := Fin 3; averagePrice := Fin 90000 |}].

Definition mixedDB : DB := withPortfolio mixedTable 4 emptyDB.

(** Only user 2 holds anything. *)
Definition strangerDB : DB :=
  withPortfolio
    [{| id := 1; userId := 2; positionSymbol := "BTC";
        amount := n0_5; averagePrice := Fin 90000 |}] 2 emptyDB.

End Tracker.
(** * Properties *)

(** ** The price history is bounded and first-in first-out *)

Module PriceHistoryFacts.

Import PriceHistory.

Lemma getHistory_update_same symbol price ph :
  getHistory symbol (updatePriceHistory symbol price ph) =
  let history := getHistory symbol ph ++ [price] in
  if decide (100 < length history) then tail history else history.
Proof.
  unfold getHistory, updatePriceHistory.
  rewrite lookup_insert_eq. simpl.
  destruct (ph !! symbol) as [h|] eqn:E.
  - rewrite E. reflexivity.
  - rewrite lookup_insert_eq. reflexivity.
Qed.

Lemma getHistory_update_other symbol symbol' price ph :
  symbol ≠ symbol' ->
  getHistory symbol' (updatePriceHistory symbol price ph) =
  getHistory symbol' ph.
Proof.
  intros Hne. unfold getHistory, updatePriceHistory.
  rewrite lookup_insert_ne by done.
  destruct (ph !! symbol); [done|].
  by rewrite lookup_insert_ne.
Qed.

Lemma mostRecent_length {A} k (l : list A) :
  length (mostRecent k l) = Nat.min (length l) k.
Proof. unfold mostRecent. rewrite length_drop. lia. Qed.

Lemma tail_drop {A} (l : list A) : tail l = drop 1 l.
Proof. by destruct l. Qed.

Lemma mostRecent_push {A} k (l : list A) (x : A) :
  mostRecent k (l ++ [x]) =
  let h := mostRecent k l ++ [x] in
  if decide (k < length h) then tail h else h.
Proof.
  cbv zeta. rewrite length_app, mostRecent_length. simpl.
  unfold mostRecent. rewrite length_app. simpl.
  destruct (decide (k < Nat.min (length l) k + 1)) as [Hlt|Hge].
  - rewrite <- drop_app_le by lia.
    rewrite tail_drop, drop_drop. f_equal. lia.
  - replace (length l + 1 - k) with 0 by lia.
    replace (length l - k) with 0 by lia.
    reflexivity.
Qed.

Lemma appended_app s t1 t2 : appended s (t1 ++ t2) = appended s t1 ++ appended s t2.
Proof. unfold appended. by rewrite filter_app, fmap_app. Qed.

Lemma getHistory_appendAll ticks s :
  getHistory s (appendAll ticks) = mostRecent 100 (appended s ticks).
Proof.
  unfold appendAll.
  induction ticks as [|[s' p] ticks IH] using rev_ind; [reflexivity|].
  rewrite fold_left_app, appended_app. simpl.
  destruct (decide (s' = s)) as [->|Hne].
  - rewrite getHistory_update_same, IH.
    replace (appended s [(s, p)]) with [p].
    + symmetry. apply mostRecent_push.
    + unfold appended. by rewrite filter_cons_True.
  - rewrite getHistory_update_other by done. rewrite IH.
    replace (appended s [(s', p)]) with (@nil num).
    + by rewrite app_nil_r.
    + unfold appended. by rewrite filter_cons_False.
Qed.

Lemma appended_own s (prices : list num) :
  appended s (map (fun p => (s, p)) prices) = prices.
Proof.
  unfold appended. induction prices as [|p prices IH]; [reflexivity|].
  cbn [map]. rewrite filter_cons_True by done.
  rewrite fmap_cons. cbn [snd]. f_equal. exact IH.
Qed.

(** C1.  After any run of [updatePriceHistory] calls from the empty map,
    the history stored for a symbol is the most recent
    [min (number appended for it) 100] prices appended for that symbol, in
    append order, whatever is appended for other symbols in between.  In
    particular 150 appends leave the last 100: the 50 oldest are gone. *)
Theorem price_history_bounded_fifo (ticks : list (string * num)) (s : string) :
  getHistory s (appendAll ticks) = mostRecent 100 (appended s ticks)
  /\ length (getHistory s (appendAll ticks))
     = Nat.min (length (appended s ticks)) 100
  /\ (forall f : nat -> num,
        getHistory s (appendAll (map (fun i => (s, f i)) (seq 0 150)))
        = map f (seq 50 100)).
Proof.
  split; [apply getHistory_appendAll|].
  split; [rewrite getHistory_appendAll; apply mostRecent_length|].
  intros f. rewrite getHistory_appendAll.
  rewrite <- (map_map f (fun p => (s, p))).
  rewrite appended_own.
  unfold mostRecent. rewrite length_map, length_seq.
  reflexivity.
Qed.

(** Two symbols ticking in turn: each keeps its own prices. *)
Lemma price_history_bounded_fifo_witness :
  getHistory "BTC/USD"
    (appendAll [("BTC/USD"%string, Fin 95000); ("ETH/USD"%string, Fin 3200);
                ("BTC/USD"%string, Fin 95010); ("ETH/USD"%string, Fin 3199)])
  = [Fin 95000; Fin 95010].
Proof.
  destruct (price_history_bounded_fifo
              [("BTC/USD"%string, Fin 95000); ("ETH/USD"%string, Fin 3200);
               ("BTC/USD"%string, Fin 95010); ("ETH/USD"%string, Fin 3199)]
              "BTC/USD") as (H & _ & _).
  rewrite H. vm_compute. reflexivity.
Defined.

End PriceHistoryFacts.

(** ** Facts about the number model *)

Module NumFacts.

Lemma Qis0_true q : Qis0 q = true <-> (q == 0)%Q.
Proof. unfold Qis0. apply Qeq_bool_iff. Qed.

Lemma Qis0_false q : Qis0 q = false <-> ~ (q == 0)%Q.
Proof.
  rewrite <- Qis0_true. destruct (Qis0 q); split; try done.
Qed.

Lemma lt_Fin a b : lt (Fin a) (Fin b) = true <-> (a < b)%Q.
Proof.
  simpl. rewrite negb_true_iff. destruct (Qle_bool b a) eqn:E.
  - apply Qle_bool_iff in E. split; [done|]. intros H.
    exfalso. by apply (Qlt_not_le a b).
  - split; [|done]. intros _. apply Qnot_le_lt. intros H.
    apply Qle_bool_iff in H. congruence.
Qed.

Lemma lt_Fin_false a b : lt (Fin a) (Fin b) = false <-> (b <= a)%Q.
Proof.
  simpl. rewrite negb_false_iff. apply Qle_bool_iff.
Qed.

Lemma lt_irrefl x : lt x x = false.
Proof.
  destruct x; try reflexivity. apply lt_Fin_false. apply Qle_refl.
Qed.

Lemma min_idem x : Num.min x x = x.
Proof. destruct x; try reflexivity. unfold Num.min. by rewrite lt_irrefl. Qed.

Lemma max_idem x : Num.max x x = x.
Proof. destruct x; try reflexivity. unfold Num.max. by rewrite lt_irrefl. Qed.

(** [x - x] is 0 on finite numbers and NaN otherwise; dividing it by
    itself is NaN in both cases. *)
Lemma sub_self_div_self x : ((x - x) / (x - x))%num = NaN.
Proof.
  destruct x as [q| | |]; try reflexivity.
  unfold sub, neg, add, div.
  assert (H : Qis0 (Qred (q + Qred (- q))) = true).
  { apply Qis0_true. rewrite !Qred_correct. ring. }
  by rewrite H.
Qed.

Lemma add_NaN_l x : add NaN x = NaN.
Proof. reflexivity. Qed.

Lemma add_NaN_r x : add x NaN = NaN.
Proof. by destruct x. Qed.

Lemma gt_NaN_l x : gt NaN x = false.
Proof. by destruct x. Qed.

(** A division by a finite non-zero number yields NaN only from a NaN
    dividend. *)
Lemma div_nonzero_NaN x d :
  ~ (d == 0)%Q -> div x (Fin d) = NaN -> x = NaN.
Proof.
  intros Hd. apply Qis0_false in Hd.
  destruct x as [q| | |]; simpl; rewrite ?Hd; try done.
  - destruct (Qneg d); done.
  - destruct (Qneg d); done.
Qed.

End NumFacts.

(** ** Pattern detection *)

Module PatternFacts.

Import TechnicalAnalysis NumFacts.

Lemma sliceLast_length {A} k (arr : list A) :
  k <= length arr -> length (sliceLast k arr) = k.
Proof. intros H. unfold sliceLast. rewrite length_drop. lia. Qed.

Lemma normalize_length t : length (normalize t) = length t.
Proof. unfold normalize. apply length_map. Qed.

Lemma conv2d_valid_length input kernel :
  length (conv2d_valid input kernel) = length input + 1 - length kernel.
Proof. unfold conv2d_valid. by rewrite length_map, length_seq. Qed.

(** What one scan emits: the pattern type it was called for, a confidence
    that is the absolute value of a cell and passed the threshold, and the
    index of that cell. *)
Lemma scan_inv ty i data p :
  p ∈ scan ty i data ->
  type p = ty
  /\ gt (confidence p) n0_7 = true
  /\ endIndex p = startIndex p + 4
  /\ i <= startIndex p < i + length data
  /\ confidence p = abs (at_ data (startIndex p - i)).
Proof.
  revert i. induction data as [|x data IH]; intros i Hp; cbn [scan] in Hp.
  - by apply elem_of_nil in Hp.
  - apply elem_of_app in Hp as [Hp|Hp].
    + destruct (gt (abs x) n0_7) eqn:Hgt; [|by apply elem_of_nil in Hp].
      apply list_elem_of_singleton in Hp. subst p. cbn [type confidence startIndex endIndex length].
      repeat split; try done; try lia.
      by replace (i - i) with 0 by lia.
    + apply IH in Hp as (Hty & Hgt & Hend & Hrange & Hconf).
      repeat split; try done; cbn [length]; try lia.
      rewrite Hconf. unfold at_.
      replace (startIndex p - i) with (S (startIndex p - S i)) by lia.
      reflexivity.
Qed.

(** The two response sequences of a full window have 26 cells. *)
Lemma response_length prices kernel :
  PATTERN_WINDOW <= length prices -> length kernel = 5 ->
  length (conv2d_valid (normalize (sliceLast PATTERN_WINDOW prices)) kernel)
  = 26.
Proof.
  intros Hlen Hk.
  rewrite conv2d_valid_length, normalize_length, sliceLast_length, Hk by done.
  reflexivity.
Qed.

(** The patterns come from the two scans, triangle first. *)
Lemma detectPatterns_inv prices p :
  p ∈ detectPatterns prices ->
  PATTERN_WINDOW <= length prices
  /\ let normalized := normalize (sliceLast PATTERN_WINDOW prices) in
     (p ∈ scan triangle 0 (conv2d_valid normalized triangleKernel)
      \/ p ∈ scan head_and_shoulders 0 (conv2d_valid normalized hsKernel)).
Proof.
  unfold detectPatterns.
  destruct (decide (length prices < PATTERN_WINDOW)) as [Hlt|Hge].
  - intros Hp. by apply elem_of_nil in Hp.
  - intros Hp. split; [lia|]. cbv zeta. by apply elem_of_app in Hp.
Qed.

(** On the alternating history the normalised window is 1, 0, 1, 0, ...
    and the head-and-shoulders response at index 0 is 1 + 0 + 2 + 0 + 1. *)
Lemma zigzag_head_and_shoulders :
  {| type := head_and_shoulders; confidence := Fin 4;
     startIndex := 0; endIndex := 4 |} ∈ detectPatterns zigzag.
Proof. vm_compute. apply list_elem_of_In. vm_compute. tauto. Qed.

(** C10.  Every pattern returned by [detectPatterns] is a triangle or a
    head-and-shoulders (never a double top or bottom), has a confidence
    strictly above 0.7, ends four cells after its start, and starts at an
    index between 0 and 25. *)
Theorem detectPatterns_output_invariant (prices : list num) (p : PatternResult) :
  p ∈ detectPatterns prices ->
  (type p = triangle \/ type p = head_and_shoulders)
  /\ gt (confidence p) n0_7 = true
  /\ endIndex p = startIndex p + 4
  /\ 0 <= startIndex p <= 25.
Proof.
  intros Hp. apply detectPatterns_inv in Hp as [Hlen Hp]. cbv zeta in Hp.
  destruct Hp as [Hp|Hp]; apply scan_inv in Hp as (Hty & Hgt & Hend & Hrange & _);
    rewrite response_length in Hrange by done;
    repeat split; auto; lia.
Qed.

(** The invariant at work on the alternating history: its first
    head-and-shoulders hit. *)
Lemma detectPatterns_output_invariant_witness :
  let p := {| type := head_and_shoulders; confidence := Fin 4;
              startIndex := 0; endIndex := 4 |} in
  p ∈ detectPatterns zigzag
  /\ (type p = triangle \/ type p = head_and_shoulders)
  /\ gt (confidence p) n0_7 = true
  /\ endIndex p = startIndex p + 4
  /\ 0 <= startIndex p <= 25.
Proof.
  cbv zeta.
  pose proof zigzag_head_and_shoulders as H.
  split; [exact H|].
  exact (detectPatterns_output_invariant zigzag _ H).
Defined.

(** *** Flat windows *)

Lemma fold_min_replicate n x : fold_left Num.min (replicate n x) x = x.
Proof. induction n as [|n IH]; [done|]. simpl. by rewrite min_idem. Qed.

Lemma fold_max_replicate n x : fold_left Num.max (replicate n x) x = x.
Proof. induction n as [|n IH]; [done|]. simpl. by rewrite max_idem. Qed.

(** Normalising a window of equal prices divides 0 by 0 (or NaN by NaN)
    in every cell. *)
Lemma normalize_flat n x :
  normalize (replicate (S n) x) = replicate (S n) NaN.
Proof.
  assert (Hcells : forall m,
    map (fun y => ((y - x) / (x - x))%num) (replicate m x) = replicate m NaN).
  { induction m as [|m IH]; [done|].
    cbn [replicate map]. by rewrite sub_self_div_self, IH. }
  unfold normalize.
  replace (tf_min (replicate (S n) x)) with x
    by (symmetry; apply fold_min_replicate).
  replace (tf_max (replicate (S n) x)) with x
    by (symmetry; apply fold_max_replicate).
  apply Hcells.
Qed.

(** C6.  A history of at least 30 prices whose last 30 prices are all
    equal yields no pattern: every normalised cell is NaN, so no response
    passes the threshold. *)
Theorem detectPatterns_flat_window (prices : list num) (v : num) :
  PATTERN_WINDOW <= length prices ->
  (forall x, x ∈ sliceLast PATTERN_WINDOW prices -> x = v) ->
  detectPatterns prices = [].
Proof.
  intros Hlen Hflat. unfold detectPatterns.
  destruct (decide (length prices < PATTERN_WINDOW)) as [Hlt|_]; [done|].
  assert (Hw : sliceLast PATTERN_WINDOW prices = replicate PATTERN_WINDOW v).
  { symmetry. apply replicate_as_Forall. split.
    - by apply sliceLast_length.
    - apply Forall_forall. intros x Hx. symmetry. by apply Hflat. }
  cbv zeta. rewrite Hw. unfold PATTERN_WINDOW. rewrite normalize_flat.
  vm_compute. reflexivity.
Qed.

(** A flat history of 30 prices at 100. *)
Lemma detectPatterns_flat_window_witness :
  PATTERN_WINDOW <= length (replicate 30 (Fin 100))
  /\ (forall x, x ∈ sliceLast PATTERN_WINDOW (replicate 30 (Fin 100)) ->
                x = Fin 100)
  /\ detectPatterns (replicate 30 (Fin 100)) = [].
Proof.
  assert (H1 : PATTERN_WINDOW <= length (replicate 30 (Fin 100))).
  { vm_compute. lia. }
  assert (H2 : forall x,
             x ∈ sliceLast PATTERN_WINDOW (replicate 30 (Fin 100)) ->
             x = Fin 100).
  { intros x Hx. change (x ∈ replicate 30 (Fin 100)) in Hx.
    by apply elem_of_replicate in Hx as [-> _]. }
  split; [exact H1|]. split; [exact H2|].
  exact (detectPatterns_flat_window _ _ H1 H2).
Defined.

(** *** The range of the confidence *)

Lemma min_boundedBelow a x y :
  boundedBelow a (Num.min x y) -> boundedBelow a x /\ boundedBelow a y.
Proof.
  destruct x as [p| | |], y as [q| | |]; try (simpl; tauto).
  unfold Num.min. destruct (lt (Fin q) (Fin p)) eqn:E; simpl; intros H.
  - apply lt_Fin in E. split; [|done]. lra.
  - apply lt_Fin_false in E. split; [done|]. lra.
Qed.

Lemma max_boundedAbove b x y :
  boundedAbove b (Num.max x y) -> boundedAbove b x /\ boundedAbove b y.
Proof.
  destruct x as [p| | |], y as [q| | |]; try (simpl; tauto).
  unfold Num.max. destruct (lt (Fin p) (Fin q)) eqn:E; simpl; intros H.
  - apply lt_Fin in E. split; [|done]. lra.
  - apply lt_Fin_false in E. split; [done|]. lra.
Qed.

Lemma fold_min_boundedBelow a t x0 :
  boundedBelow a (fold_left Num.min t x0) ->
  boundedBelow a x0 /\ Forall (boundedBelow a) t.
Proof.
  revert x0. induction t as [|y t IH]; intros x0 H; simpl in H.
  - by split.
  - apply IH in H as [H Ht]. apply min_boundedBelow in H as [Hx Hy].
    split; [done|]. by constructor.
Qed.

Lemma fold_max_boundedAbove b t x0 :
  boundedAbove b (fold_left Num.max t x0) ->
  boundedAbove b x0 /\ Forall (boundedAbove b) t.
Proof.
  revert x0. induction t as [|y t IH]; intros x0 H; simpl in H.
  - by split.
  - apply IH in H as [H Ht]. apply max_boundedAbove in H as [Hx Hy].
    split; [done|]. by constructor.
Qed.

Lemma tf_min_Fin t a :
  tf_min t = Fin a -> Forall (boundedBelow a) t.
Proof.
  destruct t as [|x t]; [by constructor|]. simpl. intros H.
  destruct (fold_min_boundedBelow a t x) as [Hx Ht].
  { rewrite H. simpl. apply Qle_refl. }
  by constructor.
Qed.

Lemma tf_max_Fin t b :
  tf_max t = Fin b -> Forall (boundedAbove b) t.
Proof.
  destruct t as [|x t]; [by constructor|]. simpl. intros H.
  destruct (fold_max_boundedAbove b t x) as [Hx Ht].
  { rewrite H. simpl. apply Qle_refl. }
  by constructor.
Qed.

Lemma normalize_cell lo hi x :
  match lo with Fin a => boundedBelow a x | _ => True end ->
  match hi with Fin b => boundedAbove b x | _ => True end ->
  x <> NaN -> lo <> NaN -> hi <> NaN ->
  (lo = PInf -> x = PInf) -> (hi = NInf -> x = NInf) ->
  unitOrNaN ((x - lo) / (hi - lo))%num.
Proof.
  intros Hlo Hhi Hx Hl Hh HP HN.
  destruct lo as [a| | |]; try done.
  - destruct hi as [b| | |]; try done.
    + destruct x as [q| | |]; try done. simpl in Hlo, Hhi.
      unfold sub, neg, add, div.
      destruct (Qis0 (Qred (b + Qred (- a)))) eqn:E0.
      * apply Qis0_true in E0. rewrite !Qred_correct in E0.
        assert (E1 : Qis0 (Qred (q + Qred (- a))) = true).
        { apply Qis0_true. rewrite !Qred_correct. lra. }
        by rewrite E1.
      * apply Qis0_false in E0. rewrite !Qred_correct in E0.
        simpl. rewrite !Qred_correct.
        assert (Hpos : (0 < b - a)%Q) by lra.
        split.
        -- apply Qle_shift_div_l; [done|]. lra.
        -- apply Qle_shift_div_r; [done|]. lra.
    + destruct x as [q| | |]; try done; simpl; try lra.
      all: by (unfold zero; simpl; lra).
    + specialize (HN eq_refl). subst x. reflexivity.
  - specialize (HP eq_refl). subst x. by destruct hi.
  - destruct hi as [b| | |]; try done; destruct x as [q| | |]; try done.
Qed.

Lemma min_PInf x y : Num.min x y = PInf -> x = PInf /\ y = PInf.
Proof.
  destruct x as [p| | |], y as [q| | |]; try done.
  unfold Num.min. by destruct (lt (Fin q) (Fin p)).
Qed.

Lemma max_NInf x y : Num.max x y = NInf -> x = NInf /\ y = NInf.
Proof.
  destruct x as [p| | |], y as [q| | |]; try done.
  unfold Num.max. by destruct (lt (Fin p) (Fin q)).
Qed.

Lemma tf_min_PInf t : tf_min t = PInf -> Forall (fun y => y = PInf) t.
Proof.
  destruct t as [|x t]; [by constructor|]. simpl.
  revert x. induction t as [|y t IH]; intros x H; simpl in H.
  - by repeat constructor.
  - apply IH in H. inversion H as [|? ? Hxy Ht]; subst.
    apply min_PInf in Hxy as [-> ->]. by repeat constructor.
Qed.

Lemma tf_max_NInf t : tf_max t = NInf -> Forall (fun y => y = NInf) t.
Proof.
  destruct t as [|x t]; [by constructor|]. simpl.
  revert x. induction t as [|y t IH]; intros x H; simpl in H.
  - by repeat constructor.
  - apply IH in H. inversion H as [|? ? Hxy Ht]; subst.
    apply max_NInf in Hxy as [-> ->]. by repeat constructor.
Qed.

Lemma sub_NaN_r x : (x - NaN)%num = NaN.
Proof. by destruct x. Qed.

Lemma div_NaN_r x : (x / NaN)%num = NaN.
Proof. by destruct x. Qed.

(** Every cell of a normalised window is NaN or lies between 0 and 1,
    whatever the prices are. *)
Lemma normalize_unit t :
  Forall unitOrNaN (normalize t).
Proof.
  unfold normalize. apply Forall_map, Forall_forall. intros x Hx.
  assert (Dx : x = NaN \/ x <> NaN) by (destruct x; auto).
  destruct Dx as [->|Hx']; [done|].
  assert (Dl : tf_min t = NaN \/ tf_min t <> NaN)
    by (destruct (tf_min t); auto).
  destruct Dl as [El|Hl].
  { rewrite El, !sub_NaN_r. by destruct x. }
  assert (Dh : tf_max t = NaN \/ tf_max t <> NaN)
    by (destruct (tf_max t); auto).
  destruct Dh as [Eh|Hh].
  { rewrite Eh. change (NaN - tf_min t)%num with NaN.
    by rewrite div_NaN_r. }
  apply normalize_cell; try done.
  - destruct (tf_min t) as [a| | |] eqn:E; try done.
    apply tf_min_Fin in E. rewrite Forall_forall in E. by apply E.
  - destruct (tf_max t) as [b| | |] eqn:E; try done.
    apply tf_max_Fin in E. rewrite Forall_forall in E. by apply E.
  - intros E. apply tf_min_PInf in E. rewrite Forall_forall in E.
    by apply E.
  - intros E. apply tf_max_NInf in E. rewrite Forall_forall in E.
    by apply E.
Qed.

Lemma hs_cell_bound x0 x1 x2 x3 x4 :
  unitOrNaN x0 -> unitOrNaN x1 -> unitOrNaN x2 -> unitOrNaN x3 ->
  unitOrNaN x4 ->
  confidenceWithin 4 (abs (dot [x0; x1; x2; x3; x4] hsKernel)).
Proof.
  destruct x0 as [q0| | |]; try done; intros H0;
  destruct x1 as [q1| | |]; try done; intros H1;
  destruct x2 as [q2| | |]; try done; intros H2;
  destruct x3 as [q3| | |]; try done; intros H3;
  destruct x4 as [q4| | |]; try done; intros H4.
  simpl in H0, H1, H2, H3, H4.
  unfold dot, hsKernel, zip_with, fold_left, mul, add, neg, abs, zero,
    confidenceWithin.
  rewrite !Qred_correct.
  apply Qabs_Qle_condition. split; lra.
Qed.

Lemma triangle_cell_bound x0 x1 x2 x3 x4 :
  unitOrNaN x0 -> unitOrNaN x1 -> unitOrNaN x2 -> unitOrNaN x3 ->
  unitOrNaN x4 ->
  confidenceWithin (3 # 2) (abs (dot [x0; x1; x2; x3; x4] triangleKernel)).
Proof.
  destruct x0 as [q0| | |]; try done; intros H0;
  destruct x1 as [q1| | |]; try done; intros H1;
  destruct x2 as [q2| | |]; try done; intros H2;
  destruct x3 as [q3| | |]; try done; intros H3;
  destruct x4 as [q4| | |]; try done; intros H4.
  simpl in H0, H1, H2, H3, H4.
  unfold dot, triangleKernel, n0_5, zip_with, fold_left, mul, add, neg, abs,
    zero, confidenceWithin.
  rewrite !Qred_correct.
  apply Qabs_Qle_condition. split; lra.
Qed.

Lemma conv2d_valid_cell input kernel j :
  j < length input + 1 - length kernel ->
  at_ (conv2d_valid input kernel) j
  = dot (take (length kernel) (drop j input)) kernel.
Proof.
  intros Hj. unfold at_, conv2d_valid.
  rewrite list_lookup_fmap, lookup_seq_lt by done. reflexivity.
Qed.

(** The five cells under the kernel at position [j]. *)
Lemma cells_under_kernel (P : num -> Prop) (l : list num) j :
  Forall P l -> j + 5 <= length l ->
  exists x0 x1 x2 x3 x4,
    take 5 (drop j l) = [x0; x1; x2; x3; x4]
    /\ P x0 /\ P x1 /\ P x2 /\ P x3 /\ P x4.
Proof.
  intros HP Hlen.
  assert (HP' : Forall P (take 5 (drop j l))) by by apply Forall_take, Forall_drop.
  assert (Hl : length (take 5 (drop j l)) = 5).
  { rewrite length_take, length_drop. lia. }
  destruct (take 5 (drop j l)) as [|x0 [|x1 [|x2 [|x3 [|x4 [|x5 r]]]]]];
    try done.
  exists x0, x1, x2, x3, x4. split; [done|].
  repeat (apply Forall_cons in HP' as [? HP']). tauto.
Qed.

Lemma response_within prices kernel b j :
  PATTERN_WINDOW <= length prices -> length kernel = 5 ->
  (forall x0 x1 x2 x3 x4,
     unitOrNaN x0 -> unitOrNaN x1 -> unitOrNaN x2 -> unitOrNaN x3 ->
     unitOrNaN x4 ->
     confidenceWithin b (abs (dot [x0; x1; x2; x3; x4] kernel))) ->
  j < 26 ->
  confidenceWithin b
    (abs (at_ (conv2d_valid (normalize (sliceLast PATTERN_WINDOW prices))
                            kernel) j)).
Proof.
  intros Hlen Hk Hcell Hj.
  pose proof (normalize_unit (sliceLast PATTERN_WINDOW prices)) as Hunit.
  assert (Hn : length (normalize (sliceLast PATTERN_WINDOW prices)) = 30).
  { rewrite normalize_length. by apply sliceLast_length. }
  rewrite conv2d_valid_cell by (rewrite Hn, Hk; lia).
  rewrite Hk.
  destruct (cells_under_kernel unitOrNaN _ j Hunit)
    as (x0 & x1 & x2 & x3 & x4 & -> & H0 & H1 & H2 & H3 & H4);
    [rewrite Hn; lia|].
  by apply Hcell.
Qed.

(** A confidence that passed the threshold and is NaN or at most [b] is a
    rational in (0.7, b]. *)
Lemma confidence_range b c :
  gt c n0_7 = true -> confidenceWithin b c ->
  exists q, c = Fin q /\ (7 # 10 < q)%Q /\ (q <= b)%Q.
Proof.
  intros Hgt Hb. destruct c as [q| | |]; try done.
  exists q. split; [done|]. split; [|done].
  by apply lt_Fin in Hgt.
Qed.

(** The convolution along the series does not keep confidences within
    [0, 1].  On the alternating history 2, 1, 2, 1, ... (30 prices) the
    normalised window is 1, 0, 1, 0, ... and the head-and-shoulders
    response at index 0 is 1 + 0 + 2 + 0 + 1 = 4: with the kernels laid
    along the series a pattern of confidence 4 would be reported. *)
Lemma detectPatterns_confidence_above_one :
  PATTERN_WINDOW <= length zigzag
  /\ {| type := head_and_shoulders; confidence := Fin 4;
        startIndex := 0; endIndex := 4 |} ∈ detectPatterns zigzag
  /\ ~ confidenceInUnitInterval zigzag.
Proof.
  pose proof zigzag_head_and_shoulders as H.
  split; [vm_compute; lia|]. split; [exact H|].
  intros Hclaim. apply Hclaim in H as [_ H]. vm_compute in H. discriminate.
Qed.

(** With the kernels laid along the series, every pattern has a rational
    confidence strictly above 0.7 and at most 4; a triangle's is at most
    1.5.  (The confidence is the absolute value of the kernel response
    over cells in [0, 1], which is not scaled to [0, 1].) *)
Theorem detectPatterns_confidence_range (prices : list num) (p : PatternResult) :
  p ∈ detectPatterns prices ->
  exists q, confidence p = Fin q
            /\ (7 # 10 < q)%Q /\ (q <= 4)%Q
            /\ (type p = triangle -> (q <= 3 # 2)%Q).
Proof.
  intros Hp. apply detectPatterns_inv in Hp as [Hlen Hp]. cbv zeta in Hp.
  destruct Hp as [Hp|Hp];
    apply scan_inv in Hp as (Hty & Hgt & _ & Hrange & Hconf);
    rewrite response_length in Hrange by done;
    replace (startIndex p - 0) with (startIndex p) in Hconf by lia.
  - assert (Hb : confidenceWithin (3 # 2) (confidence p)).
    { rewrite Hconf. apply response_within; try done; try lia.
      apply triangle_cell_bound. }
    destruct (confidence_range _ _ Hgt Hb) as (q & Hq & Hlo & Hhi).
    exists q. repeat split; try done. lra.
  - assert (Hb : confidenceWithin 4 (confidence p)).
    { rewrite Hconf. apply response_within; try done; try lia.
      apply hs_cell_bound. }
    destruct (confidence_range _ _ Hgt Hb) as (q & Hq & Hlo & Hhi).
    exists q. repeat split; try done. rewrite Hty. discriminate.
Qed.

(** The bound 4 is reached on the alternating history. *)
Lemma detectPatterns_confidence_range_witness :
  exists p, p ∈ detectPatterns zigzag
            /\ exists q, confidence p = Fin q
                         /\ (7 # 10 < q)%Q /\ (q <= 4)%Q
                         /\ (type p = triangle -> (q <= 3 # 2)%Q).
Proof.
  exists {| type := head_and_shoulders; confidence := Fin 4;
            startIndex := 0; endIndex := 4 |}.
  pose proof zigzag_head_and_shoulders as H.
  split; [exact H|].
  exact (detectPatterns_confidence_range zigzag _ H).
Defined.

End PatternFacts.

(** ** The detector as it is called *)

Module ServiceFacts.

Import Tensor TechnicalAnalysis TechnicalAnalysisService.

(** A filter wider than the input leaves a negative output width: the
    call throws. *)
Lemma conv2d_rejects_wide_filter (x filter : Tensor4D)
    batch inHeight inWidth inChannels filterHeight filterWidth
    filterChannels outChannels :
  shape x = (batch, inHeight, inWidth, inChannels) ->
  shape filter = (filterHeight, filterWidth, filterChannels, outChannels) ->
  inWidth + 1 < filterWidth ->
  conv2d x filter = None.
Proof.
  intros Hx Hf Hwide. unfold conv2d. rewrite Hx, Hf.
  destruct (decide (inChannels = filterChannels)); [|done].
  rewrite decide_False; [done|]. lia.
Qed.

(** Both convolutions of [detectPatterns] throw, whatever the prices. *)
Lemma detectPatterns_conv2d_throws (normalized kernel : list num) :
  conv2d (reshaped normalized)
    {| shape := (1, 5, 1, 1); values := kernel |} = None.
Proof.
  apply (conv2d_rejects_wide_filter _ _ 1 PATTERN_WINDOW 1 1 1 5 1 1);
    [reflexivity|reflexivity|lia].
Qed.

(** No history makes [detectPatterns] report a pattern: a short one is
    turned away, and for any other the first convolution throws and the
    [catch] returns the empty list. *)
Lemma detectPatterns_reports_nothing (prices : list num) :
  TechnicalAnalysisService.detectPatterns prices = [].
Proof.
  unfold TechnicalAnalysisService.detectPatterns.
  destruct (decide (length prices < PATTERN_WINDOW)); [done|].
  unfold TechnicalAnalysisService.triangleKernel.
  by rewrite detectPatterns_conv2d_throws.
Qed.



(** What is reported is among what the convolution along the series
    ([TechnicalAnalysis.detectPatterns]) reports: what holds of every
    pattern of the latter holds of every reported pattern. *)
Lemma reported_within_series_detector (prices : list num) :
  TechnicalAnalysisService.detectPatterns prices
  ⊆ TechnicalAnalysis.detectPatterns prices.
Proof.
  rewrite detectPatterns_reports_nothing. intros p Hp.
  by apply elem_of_nil in Hp.
Qed.

(** With the kernel laid along the series (five rows, one column) the
    library's convolution returns, and it is [conv2d_valid]: the sliding
    product the other detector is written with. *)
Lemma conv2d_along_series (input kernel : list num) :
  length input = PATTERN_WINDOW -> length kernel = 5 ->
  squeezedArray <$> conv2d (reshaped input) (alongSeries kernel)
  = Some (conv2d_valid input kernel).
Proof.
  unfold PATTERN_WINDOW. intros Hi Hk.
  repeat (destruct input as [|? input]; [cbn in Hi; discriminate Hi|]).
  destruct input; [|cbn in Hi; discriminate Hi].
  repeat (destruct kernel as [|? kernel]; [cbn in Hk; discriminate Hk|]).
  destruct kernel; [|cbn in Hk; discriminate Hk].
  vm_compute. reflexivity.
Qed.

End ServiceFacts.

(** ** Volatility: the expected-shortfall divisor *)

Module VolatilityFacts.

Import TechnicalAnalysis NumFacts.

Section Facts.

Variable Math_log : num -> num.
Variable Math_sqrt : num -> num.

Lemma logReturns_length prices :
  length (logReturns Math_log prices) = length prices - 1.
Proof.
  induction prices as [|prev rest IH]; [reflexivity|].
  destruct rest as [|cur rest]; [reflexivity|].
  change (logReturns Math_log (prev :: cur :: rest))
    with (Math_log (cur / prev)%num :: logReturns Math_log (cur :: rest)).
  cbn [length] in *. lia.
Qed.

Lemma insertSorted_length a sorted :
  length (insertSorted a sorted) = S (length sorted).
Proof.
  induction sorted as [|b sorted IH]; [reflexivity|].
  cbn [insertSorted]. destruct (gt (a - b)%num zero); cbn [length]; lia.
Qed.

Lemma sortAscending_length xs : length (sortAscending xs) = length xs.
Proof.
  induction xs as [|x xs IH]; [reflexivity|].
  cbn [sortAscending foldr]. rewrite insertSorted_length.
  fold (sortAscending xs). by rewrite IH.
Qed.

(** [Math.floor(n * 0.05)] is the integer quotient of [n] by 20. *)
Lemma varIndexOf_div returns :
  varIndexOf returns = length returns / 20.
Proof.
  unfold varIndexOf, ofNat, ofZ, n0_05, mul, floorZ.
  rewrite (Qfloor_comp _ _ (Qred_correct _)).
  unfold Qfloor, Qmult, inject_Z, Qnum, Qden.
  change (Z.pos (1 * 100)) with 100%Z.
  rewrite <- (Z2Nat.id (_ / _)%Z), Nat2Z.id.
  2: { apply Z.div_pos; lia. }
  replace (Z.of_nat (length returns) * 5 / 100)%Z
    with (Z.of_nat (length returns) / 20)%Z.
  2: { replace 100%Z with (5 * 20)%Z by reflexivity.
       rewrite Z.mul_comm, Z.div_mul_cancel_l by lia. reflexivity. }
  change 20%Z with (Z.of_nat 20). rewrite <- Nat2Z.inj_div.
  apply Nat2Z.id.
Qed.

Lemma varIndexOf_positive returns :
  20 <= length returns -> 1 <= varIndexOf returns.
Proof.
  intros H. rewrite varIndexOf_div.
  apply (Nat.Div0.div_le_mono _ _ 20) in H.
  by change (20 / 20) with 1 in H.
Qed.

Lemma ofNat_nonzero k : 1 <= k -> exists d, ofNat k = Fin d /\ ~ (d == 0)%Q.
Proof.
  intros Hk. exists (inject_Z (Z.of_nat k)). split; [reflexivity|].
  intros H. unfold Qeq in H. simpl in H. lia.
Qed.

Lemma neg_NaN x : neg x = NaN -> x = NaN.
Proof. by destruct x. Qed.

(** C5.  For a history of at least 30 prices [calculateVolatility] returns
    metrics, the log returns number at least 29, [varIndex] is at least 1,
    the tail averaged by the expected shortfall has [varIndex] elements and
    the divisor of the mean is a non-zero finite number: the expected
    shortfall is NaN only if the sum of the tail already is. *)
Theorem expected_shortfall_divisor_nonzero (prices : list num) :
  VOLATILITY_WINDOW <= length prices ->
  let returns := logReturns Math_log prices in
  let varIndex := varIndexOf returns in
  let tailReturns := take varIndex (sortAscending returns) in
  29 <= length returns
  /\ 1 <= varIndex
  /\ length tailReturns = varIndex
  /\ (exists d, shortfallDivisor Math_log prices = Fin d /\ ~ (d == 0)%Q)
  /\ exists metrics,
       calculateVolatility Math_log Math_sqrt prices = Some metrics
       /\ expectedShortfall (riskMetrics metrics)
          = (neg (fold_left add tailReturns zero)
             / shortfallDivisor Math_log prices)%num
       /\ (expectedShortfall (riskMetrics metrics) = NaN ->
           fold_left add tailReturns zero = NaN).
Proof.
  intros Hlen. cbv zeta. unfold VOLATILITY_WINDOW in Hlen.
  assert (Hr : 29 <= length (logReturns Math_log prices))
    by (rewrite logReturns_length; lia).
  assert (Hv : 1 <= varIndexOf (logReturns Math_log prices))
    by (apply varIndexOf_positive; lia).
  assert (Hd : exists d, shortfallDivisor Math_log prices = Fin d
                         /\ ~ (d == 0)%Q)
    by (by apply ofNat_nonzero).
  split; [done|]. split; [done|]. split.
  { rewrite length_take, sortAscending_length, varIndexOf_div.
    pose proof (Nat.Div0.div_le_upper_bound
                  (length (logReturns Math_log prices)) 20
                  (length (logReturns Math_log prices))).
    lia. }
  split; [done|].
  unfold calculateVolatility.
  destruct (decide (length prices < VOLATILITY_WINDOW)) as [Hlt|_];
    [unfold VOLATILITY_WINDOW in Hlt; lia|].
  eexists. split; [reflexivity|]. cbn [riskMetrics expectedShortfall].
  split; [reflexivity|].
  destruct Hd as (d & Hd & Hnz). unfold shortfallDivisor in Hd.
  rewrite Hd. intros HNaN.
  apply div_nonzero_NaN in HNaN; [|done]. by apply neg_NaN.
Qed.

End Facts.

(** The theorem on the rising history, with the identity standing for the
    two transcendental functions. *)
Lemma expected_shortfall_divisor_nonzero_witness :
  VOLATILITY_WINDOW <= length risingPrices
  /\ 1 <= varIndexOf (logReturns (fun x => x) risingPrices)
  /\ shortfallDivisor (fun x => x) risingPrices = Fin 1.
Proof.
  assert (H : VOLATILITY_WINDOW <= length risingPrices)
    by (vm_compute; lia).
  split; [exact H|].
  destruct (expected_shortfall_divisor_nonzero
              (fun x => x) (fun x => x) risingPrices H)
    as (_ & Hv & _).
  split; [exact Hv|]. vm_compute. reflexivity.
Defined.

End VolatilityFacts.

(** ** The recommendation cache *)

Module AIAnalysisFacts.

Import TechnicalAnalysis AIAnalysis.

Section Facts.

Variable openai : nat -> MarketContext -> OracleReply.
Variable formatChange : num -> string.

(** A cached entry less than 10 s old is returned as it is: no request,
    no change of state. *)
Lemma analyzeMarket_hit symbol price td hist st c :
  analysisCache st !! symbol = Some c ->
  (now st - timestamp c < CACHE_DURATION)%Z ->
  analyzeMarket openai formatChange symbol price td hist st = (result c, st).
Proof.
  intros Hc Hfresh. unfold analyzeMarket. rewrite Hc.
  unfold fresh. by rewrite bool_decide_eq_true_2.
Qed.

(** Without a fresh entry exactly one request is made; the result (the
    parsed analysis, or the default one when the request or the parse
    fails) is stored under the symbol with the time of the store. *)
Lemma analyzeMarket_miss symbol price td hist st :
  fresh st (analysisCache st !! symbol) = false ->
  let ctx := marketContextOf formatChange symbol price td hist in
  let reply := openai (length (oracleLog st)) ctx in
  let r := default defaultResult (content reply) in
  let t := (now st + Z.of_N (latency reply))%Z in
  analyzeMarket openai formatChange symbol price td hist st
  = (r, {| analysisCache :=
             <[symbol := {| result := r; timestamp := t |}]>
               (analysisCache st);
           now := t;
           oracleLog := oracleLog st ++ [ctx] |}).
Proof.
  intros Hmiss. cbv zeta. unfold analyzeMarket. rewrite Hmiss.
  unfold request, cacheSet. cbn.
  by destruct (content _).
Qed.


(** Calls taken one after the other.  When a call for a symbol finds no
    entry less than 10 s old, it makes exactly one request and stores its
    result; a second call for the same symbol less than 10 s after the
    first call returned, nothing having run in between, makes no request
    and returns the same result, whatever its other arguments. *)
Theorem cache_dedup_after_miss (st : AIState) (symbol : string)
    (p1 p2 : num) (td1 td2 : TechnicalData) (h1 h2 : list num) (d : N) :
  fresh st (analysisCache st !! symbol) = false ->
  (Z.of_N d < CACHE_DURATION)%Z ->
  let first := analyzeMarket openai formatChange symbol p1 td1 h1 st in
  let second := analyzeMarket openai formatChange symbol p2 td2 h2 (elapse d first.2) in
  second.1 = first.1
  /\ oracleLog second.2 = oracleLog first.2
  /\ oracleLog first.2 = oracleLog st ++ [marketContextOf formatChange symbol p1 td1 h1]
  /\ analysisCache second.2 = analysisCache first.2.
Proof.
  intros Hmiss Hd. cbv zeta.
  rewrite (analyzeMarket_miss symbol p1 td1 h1 st Hmiss). cbn [fst snd].
  erewrite analyzeMarket_hit; cycle 1.
  - cbn [elapse analysisCache]. apply lookup_insert_eq.
  - cbn [elapse now timestamp]. lia.
  - cbn [fst snd elapse oracleLog analysisCache result]. done.
Qed.


End Facts.

(** *** Concrete runs *)

(** The 10 s run from the store, not from the last call.  A first call
    at time 0 stores its entry at 0.3 s.  A call at 9.8 s is served from
    the cache; the next call, one second later, finds the entry 10.5 s old
    and makes a second request. *)
Lemma second_call_within_10s_requests_again :
  let first :=
    analyzeMarket promptOracle noFormat "BTC/USD" (Fin 95000) noTechnicals []
      agedState in
  let second :=
    analyzeMarket promptOracle noFormat "BTC/USD" (Fin 95000) noTechnicals []
      (elapse 1000%N first.2) in
  length (oracleLog first.2) = 1
  /\ length (oracleLog second.2) = 2
  /\ ~ dedupAfterAnyCall promptOracle noFormat.
Proof.
  cbv zeta. split; [reflexivity|]. split; [reflexivity|].
  intros Hclaim.
  specialize (Hclaim agedState "BTC/USD"%string (Fin 95000) (Fin 95000)
                noTechnicals noTechnicals [] [] 1000%N eq_refl).
  vm_compute in Hclaim. destruct Hclaim as [_ Hlog]. discriminate.
Qed.


Lemma cache_dedup_after_miss_witness :
  let first :=
    analyzeMarket promptOracle noFormat "BTC/USD" (Fin 95000) noTechnicals []
      (initialState 0) in
  let second :=
    analyzeMarket promptOracle noFormat "BTC/USD" (Fin 95100) noTechnicals []
      (elapse 1000%N first.2) in
  fresh (initialState 0) (analysisCache (initialState 0) !! "BTC/USD"%string)
  = false
  /\ (Z.of_N 1000%N < CACHE_DURATION)%Z
  /\ second.1 = first.1
  /\ length (oracleLog second.2) = 1.
Proof.
  cbv zeta.
  assert (H1 : fresh (initialState 0)
                 (analysisCache (initialState 0) !! "BTC/USD"%string) = false)
    by reflexivity.
  assert (H2 : (Z.of_N 1000%N < CACHE_DURATION)%Z) by (vm_compute; reflexivity).
  split; [exact H1|]. split; [exact H2|].
  destruct (cache_dedup_after_miss promptOracle noFormat (initialState 0)
              "BTC/USD" (Fin 95000) (Fin 95100) noTechnicals noTechnicals
              [] [] 1000%N H1 H2) as (Hr & Hlog & Hfirst & _).
  split; [exact Hr|]. rewrite Hlog, Hfirst. reflexivity.
Defined.


End AIAnalysisFacts.

(** ** The recommendation cache with calls in flight *)

Module AIAnalysisAsyncFacts.

Import TechnicalAnalysis AIAnalysis AIAnalysisAsync AIAnalysisFacts.

Section Facts.

Variable openai : nat -> MarketContext -> OracleReply.
Variable formatChange : num -> string.

Local Notation "'step'" := (AIAnalysisAsync.step openai formatChange).
Local Notation "'run'" := (AIAnalysisAsync.run openai formatChange).
Local Notation "'quiet'" := (AIAnalysisAsync.quiet openai formatChange).
Local Notation "'start'" := (AIAnalysisAsync.start openai formatChange).

Lemma run_app sv events events' :
  run sv (events ++ events') = run (run sv events) events'.
Proof. apply fold_left_app. Qed.

Lemma run_cons sv e events : run sv (e :: events) = run (step sv e) events.
Proof. reflexivity. Qed.

(** A call that finds a fresh entry returns it at once and changes nothing
    else. *)
Lemma start_hit id symbol p td h sv c :
  analysisCache (state sv) !! symbol = Some c ->
  (now (state sv) - timestamp c < CACHE_DURATION)%Z ->
  start id symbol p td h sv
  = {| state := state sv; suspended := suspended sv;
       returned := <[id := result c]> (returned sv) |}.
Proof.
  intros Hc Hfresh. unfold AIAnalysisAsync.start. rewrite Hc.
  unfold fresh. by rewrite bool_decide_eq_true_2.
Qed.

(** A call that finds no fresh entry sends its request and is suspended;
    the cache and the clock are as they were. *)
Lemma start_miss id symbol p td h sv :
  fresh (state sv) (analysisCache (state sv) !! symbol) = false ->
  let ctx := marketContextOf formatChange symbol p td h in
  start id symbol p td h sv
  = {| state :=
         {| analysisCache := analysisCache (state sv);
            now := now (state sv);
            oracleLog := oracleLog (state sv) ++ [ctx] |};
       suspended :=
         <[id := {| forSymbol := symbol;
                    outcome :=
                      content (openai (length (oracleLog (state sv))) ctx) |}]>
           (suspended sv);
       returned := returned sv |}.
Proof.
  intros Hmiss. cbv zeta. unfold AIAnalysisAsync.start. by rewrite Hmiss.
Qed.

(** An event that stores nothing for a symbol leaves its entry alone. *)
Lemma step_keeps_entry symbol sv e :
  stores sv e <> Some symbol ->
  analysisCache (state (step sv e)) !! symbol
  = analysisCache (state sv) !! symbol.
Proof.
  destruct e as [id s p td h|id|ms]; cbn [AIAnalysisAsync.step stores].
  - intros _. unfold AIAnalysisAsync.start.
    by destruct (if fresh _ _ then _ else _).
  - unfold resume. destruct (suspended sv !! id) as [call|]; [|done].
    cbn. intros Hne. rewrite lookup_insert_ne; [done|]. congruence.
  - done.
Qed.

(** The clock moves with [Wait] alone. *)
Lemma step_clock sv e :
  now (state (step sv e)) = (now (state sv) + elapsed [e])%Z.
Proof.
  destruct e as [id s p td h|id|ms]; cbn [AIAnalysisAsync.step elapsed foldr].
  - unfold AIAnalysisAsync.start.
    destruct (if fresh _ _ then _ else _); cbn; lia.
  - unfold resume. destruct (suspended sv !! id); cbn; lia.
  - cbn. lia.
Qed.

Lemma elapsed_cons e events :
  elapsed (e :: events) = (elapsed [e] + elapsed events)%Z.
Proof. unfold elapsed. cbn [foldr]. destruct e; lia. Qed.

Lemma elapsed_nonneg events : (0 <= elapsed events)%Z.
Proof.
  induction events as [|e events IH]; [done|].
  unfold elapsed in *. cbn [foldr]. destruct e; lia.
Qed.

(** Over a run that stores nothing for a symbol, the symbol's entry stays
    and the clock has advanced by the time waited. *)
Lemma run_quiet symbol sv events :
  quiet symbol sv events ->
  analysisCache (state (run sv events)) !! symbol
  = analysisCache (state sv) !! symbol
  /\ now (state (run sv events)) = (now (state sv) + elapsed events)%Z.
Proof.
  revert sv. induction events as [|e events IH]; intros sv Hq.
  - cbn. split; [done|lia].
  - destruct Hq as [He Hq]. rewrite run_cons.
    destruct (IH _ Hq) as [Hc Hn]. rewrite Hc, Hn.
    rewrite (step_keeps_entry symbol sv e He), step_clock.
    rewrite (elapsed_cons e events). split; [done|lia].
Qed.

(** Events of other calls leave a call as it is: suspended or not, and
    with what it returned. *)
Lemma step_keeps_call i sv e :
  ~ ofCall i e ->
  suspended (step sv e) !! i = suspended sv !! i
  /\ returned (step sv e) !! i = returned sv !! i.
Proof.
  destruct e as [id s p td h|id|ms]; cbn [AIAnalysisAsync.step ofCall];
    intros Hne.
  - unfold AIAnalysisAsync.start.
    destruct (if fresh _ _ then _ else _); cbn.
    + by rewrite lookup_insert_ne.
    + by rewrite lookup_insert_ne.
  - unfold resume. destruct (suspended sv !! id); [|done]. cbn.
    by rewrite lookup_delete_ne, lookup_insert_ne.
  - done.
Qed.

Lemma run_keeps_call i sv events :
  Forall (fun e => ~ ofCall i e) events ->
  suspended (run sv events) !! i = suspended sv !! i
  /\ returned (run sv events) !! i = returned sv !! i.
Proof.
  revert sv. induction events as [|e events IH]; intros sv Hev; [done|].
  apply Forall_cons in Hev as [He Hev]. rewrite run_cons.
  destruct (IH (step sv e) Hev) as [-> ->]. by apply step_keeps_call.
Qed.

Lemma clock_monotone sv events :
  (now (state sv) <= now (state (run sv events)))%Z.
Proof.
  revert sv. induction events as [|e events IH]; intros sv; [done|].
  rewrite run_cons. etrans; [|apply IH]. rewrite step_clock.
  pose proof (elapsed_nonneg [e]). lia.
Qed.

(** A suspended call that settles stores what it returns, with the time
    of the store. *)
Lemma resume_stores i sv call :
  suspended sv !! i = Some call ->
  let r := default defaultResult (outcome call) in
  returned (resume i sv) !! i = Some r
  /\ analysisCache (state (resume i sv)) !! forSymbol call
     = Some {| result := r; timestamp := now (state sv) |}
  /\ now (state (resume i sv)) = now (state sv)
  /\ oracleLog (state (resume i sv)) = oracleLog (state sv).
Proof.
  intros Hi. cbv zeta. unfold resume. rewrite Hi. cbn.
  rewrite !lookup_insert_eq. by destruct (outcome call).
Qed.

(** The call taken in one piece is the call that nothing interrupts: on a
    miss, the request, the time it takes and the store. *)
Lemma analyzeMarket_uninterrupted id symbol p td h sv :
  let ctx := marketContextOf formatChange symbol p td h in
  let reply := openai (length (oracleLog (state sv))) ctx in
  let events :=
    if fresh (state sv) (analysisCache (state sv) !! symbol)
    then [Call id symbol p td h]
    else [Call id symbol p td h; Wait (latency reply); Settle id] in
  state (run sv events)
  = (analyzeMarket openai formatChange symbol p td h (state sv)).2
  /\ returned (run sv events) !! id
     = Some (analyzeMarket openai formatChange symbol p td h (state sv)).1.
Proof.
  cbv zeta.
  destruct (fresh (state sv) (analysisCache (state sv) !! symbol)) eqn:Hfresh.
  - destruct (analysisCache (state sv) !! symbol) as [c|] eqn:Hc; [|done].
    unfold fresh in Hfresh. apply bool_decide_eq_true_1 in Hfresh.
    rewrite (analyzeMarket_hit openai formatChange symbol p td h (state sv) c)
      by done.
    cbn [AIAnalysisAsync.run fold_left AIAnalysisAsync.step].
    rewrite (start_hit id symbol p td h sv c) by done. cbn.
    by rewrite lookup_insert_eq.
  - rewrite (analyzeMarket_miss openai formatChange symbol p td h (state sv))
      by done.
    cbn [AIAnalysisAsync.run fold_left AIAnalysisAsync.step].
    rewrite (start_miss id symbol p td h sv) by done.
    unfold resume. cbn. rewrite lookup_insert_eq. cbn.
    rewrite lookup_insert_eq. unfold cacheSet. cbn.
    by destruct (content _).
Qed.


(** X7.  A call replaces the entry of its symbol only by one stored at
    least 10 s later, provided no other call for the symbol settles while
    it is under way: when the call has returned, the entry is the one it
    found (which it returned), or one whose timestamp is at least
    [CACHE_DURATION] above the old one. *)
Theorem cache_entry_replaced_after_ttl (sv : Service) (i : nat)
    (symbol : string) (p : num) (td : TechnicalData) (h : list num)
    (meanwhile : list Event) (old : CacheEntry) :
  analysisCache (state sv) !! symbol = Some old ->
  suspended sv !! i = None ->
  Forall (fun e => ~ ofCall i e) meanwhile ->
  quiet symbol (step sv (Call i symbol p td h)) meanwhile ->
  let final := run sv (Call i symbol p td h :: meanwhile ++ [Settle i]) in
  exists new,
    analysisCache (state final) !! symbol = Some new
    /\ ((new = old /\ returned final !! i = Some (result old))
        \/ (timestamp old + CACHE_DURATION <= timestamp new)%Z).
Proof.
  intros Hold Hnew Hmean Hquiet. cbv zeta.
  rewrite run_cons, run_app.
  destruct (run_quiet symbol _ meanwhile Hquiet) as [Hcache Hclock].
  destruct (run_keeps_call i (step sv (Call i symbol p td h)) meanwhile Hmean)
    as [Hsusp Hret].
  cbn [AIAnalysisAsync.step] in *.
  set (sv2 := run (start i symbol p td h sv) meanwhile) in *.
  cbn [AIAnalysisAsync.run fold_left AIAnalysisAsync.step].
  destruct (fresh (state sv) (analysisCache (state sv) !! symbol)) eqn:Hfresh.
  - rewrite Hold in Hfresh. unfold fresh in Hfresh.
    apply bool_decide_eq_true_1 in Hfresh.
    rewrite (start_hit i symbol p td h sv old) in * by done.
    cbn [suspended returned state] in *.
    exists old. unfold resume. rewrite Hsusp, Hnew.
    split; [by rewrite Hcache|]. left. split; [done|].
    by rewrite Hret, lookup_insert_eq.
  - rewrite (start_miss i symbol p td h sv Hfresh) in *. cbv zeta in *.
    cbn [suspended returned state analysisCache now] in *.
    rewrite lookup_insert_eq in Hsusp.
    destruct (resume_stores i sv2 _ Hsusp) as (_ & Hentry & _).
    cbv zeta in Hentry. cbn [forSymbol outcome] in Hentry.
    eexists. split; [exact Hentry|]. right. cbn [timestamp].
    rewrite Hold in Hfresh. unfold fresh in Hfresh.
    apply bool_decide_eq_false_1 in Hfresh.
    pose proof (elapsed_nonneg meanwhile). lia.
Qed.

End Facts.

(** *** Runs with calls in flight *)



(** An entry stored at 0.3 s is found 10 s old at 10.3 s.  The call sends
    a request, a call for ETH starts meanwhile, and at 11 s the call
    settles: the new entry is 10.7 s younger than the old one. *)
Lemma cache_entry_replaced_after_ttl_witness :
  let sv :=
    AIAnalysisAsync.run numberedOracle noFormat (idle (initialState 0))
      [btc 1; Wait 300; Settle 1; Wait 10000] in
  exists new,
    analysisCache
      (state
         (AIAnalysisAsync.run numberedOracle noFormat sv
            (btc 2 :: [Wait 700; eth 3] ++ [Settle 2]))) !! "BTC/USD"%string
    = Some new
    /\ timestamp new = 11000%Z
    /\ result new = answer 1.
Proof.
  cbv zeta.
  destruct (cache_entry_replaced_after_ttl numberedOracle noFormat
              (AIAnalysisAsync.run numberedOracle noFormat
                 (idle (initialState 0))
                 [btc 1; Wait 300; Settle 1; Wait 10000])
              2 "BTC/USD" (Fin 95000) noTechnicals [] [Wait 700; eth 3]
              {| result := answer 0; timestamp := 300 |})
    as (new & Hnew & _).
  - reflexivity.
  - reflexivity.
  - repeat constructor; cbn; lia.
  - vm_compute. repeat split; discriminate.
  - exists new. split; [exact Hnew|].
    vm_compute in Hnew. by injection Hnew as <-.
Defined.

End AIAnalysisAsyncFacts.

(** ** Portfolio valuation *)

Module PortfolioFacts.

Import TechnicalAnalysis AIAnalysis Hub NumFacts.

Lemma priceMap_lookup lmd sym :
  priceMap lmd !! sym = price <$> Map_get sym lmd.
Proof.
  induction lmd as [|[k d] lmd IH]; [reflexivity|].
  cbn [priceMap foldr Map_get fst snd]. fold (priceMap lmd).
  destruct (decide (k = sym)) as [->|Hne].
  - by rewrite lookup_insert_eq.
  - by rewrite lookup_insert_ne.
Qed.

Lemma canonical_eq x y qx qy :
  canonical x -> canonical y -> x = Fin qx -> y = Fin qy -> (qx == qy)%Q ->
  x = y.
Proof.
  intros (q1 & -> & H1) (q2 & -> & H2) [= <-] [= <-] Heq.
  f_equal. rewrite <- H1, <- H2. by apply Qred_complete.
Qed.

Lemma Qred_idem q : Qred (Qred q) = Qred q.
Proof. apply Qred_complete, Qred_correct. Qed.

Lemma canonical_zero : canonical zero.
Proof. by exists 0%Q. Qed.

Lemma canonical_add a b : canonical (Fin a + Fin b)%num.
Proof. eexists. split; [reflexivity|]. apply Qred_idem. Qed.

Lemma canonical_mul a b : canonical (Fin a * Fin b)%num.
Proof. eexists. split; [reflexivity|]. apply Qred_idem. Qed.

Lemma fold_left_add_finite (ts : list num) (z : num) :
  Forall (fun t => isFinite t = true) ts -> canonical z ->
  canonical (fold_left add ts z)
  /\ (toQ (fold_left add ts z) == toQ z + Qsum (map toQ ts))%Q.
Proof.
  revert z. induction ts as [|t ts IH]; intros z Hts Hz.
  - split; [done|]. simpl. ring.
  - apply Forall_cons in Hts as [Ht Hts].
    destruct t as [q| | |]; try done.
    destruct Hz as (qz & -> & Hqz).
    cbn [fold_left].
    destruct (IH (Fin qz + Fin q)%num Hts (canonical_add _ _)) as [Hc Hv].
    split; [done|]. rewrite Hv. cbn [map foldr Qsum toQ add].
    fold (Qsum (map toQ ts)). rewrite Qred_correct. ring.
Qed.

Lemma foldr_add_finite (ts : list num) :
  Forall (fun t => isFinite t = true) ts ->
  canonical (foldr add zero ts)
  /\ (toQ (foldr add zero ts) == Qsum (map toQ ts))%Q.
Proof.
  induction ts as [|t ts IH]; intros Hts.
  - split; [apply canonical_zero|]. reflexivity.
  - apply Forall_cons in Hts as [Ht Hts].
    destruct t as [q| | |]; try done.
    destruct (IH Hts) as [(qr & Hr & Hqr) Hv].
    cbn [foldr]. rewrite Hr in *. split; [apply canonical_add|].
    cbn [map foldr Qsum toQ add] in *.
    fold (Qsum (map toQ ts)). rewrite Qred_correct, Hv. reflexivity.
Qed.

Lemma fold_left_map {A B C} (f : C -> B -> C) (g : A -> B) (l : list A) z :
  fold_left (fun acc x => f acc (g x)) l z = fold_left f (map g l) z.
Proof. revert z. induction l as [|x l IH]; intros z; [done|]. apply IH. Qed.

Lemma Map_get_elem {V} (k : string) (m : list (string * V)) v :
  Map_get k m = Some v -> (k, v) ∈ m.
Proof.
  induction m as [|[k' v'] m IH]; [done|]. cbn [Map_get].
  destruct (decide (k' = k)) as [->|Hne].
  - intros [= ->]. apply list_elem_of_here.
  - intros H. apply list_elem_of_further. by apply IH.
Qed.

Lemma terms_agree lmd p :
  isFinite (amount p) = true ->
  Forall (fun e => isFinite (price e.2) = true) lmd ->
  isFinite (codeTerm lmd p) = true
  /\ isFinite (specTerm (priceMap lmd) p) = true
  /\ (toQ (codeTerm lmd p) == toQ (specTerm (priceMap lmd) p))%Q.
Proof.
  intros Ha Hlmd. unfold codeTerm, specTerm, currentPriceOf.
  rewrite priceMap_lookup.
  destruct (amount p) as [a| | |]; try done.
  destruct (Map_get (positionSymbol p) lmd) as [d|] eqn:E; cbn [fmap option_fmap option_map].
  - apply Map_get_elem in E. rewrite Forall_forall in Hlmd.
    specialize (Hlmd _ E). cbn [snd] in Hlmd.
    destruct (price d) as [pr| | |]; try done.
    unfold Num.or, truthy. destruct (Qis0 pr) eqn:E0; cbn [negb].
    + apply Qis0_true in E0. split; [done|]. split; [done|].
      cbn [mul zero toQ]. rewrite !Qred_correct, E0. reflexivity.
    + split; [done|]. split; [done|]. reflexivity.
  - split; [done|]. split; [done|].
    cbn [mul zero toQ]. rewrite Qred_correct. ring.
Qed.

Lemma totals_agree lmd holdings :
  Forall (fun p => isFinite (amount p) = true) holdings ->
  Forall (fun e => isFinite (price e.2) = true) lmd ->
  fold_left add (map (codeTerm lmd) holdings) zero
  = foldr add zero (map (specTerm (priceMap lmd)) holdings).
Proof.
  intros Hh Hlmd.
  assert (Hterms :
    Forall (fun t => isFinite t = true) (map (codeTerm lmd) holdings)
    /\ Forall (fun t => isFinite t = true)
         (map (specTerm (priceMap lmd)) holdings)
    /\ (Qsum (map toQ (map (codeTerm lmd) holdings))
        == Qsum (map toQ (map (specTerm (priceMap lmd)) holdings)))%Q).
  { induction Hh as [|p holdings Hp Hh IH].
    - repeat split; try constructor.
    - destruct IH as (IH1 & IH2 & IH3).
      destruct (terms_agree lmd p Hp Hlmd) as (T1 & T2 & T3).
      cbn [map]. repeat split; try by constructor.
      cbn [Qsum foldr]. fold (Qsum (map toQ (map (codeTerm lmd) holdings))).
      fold (Qsum (map toQ (map (specTerm (priceMap lmd)) holdings))).
      by rewrite T3, IH3. }
  destruct Hterms as (H1 & H2 & H3).
  destruct (fold_left_add_finite _ zero H1 canonical_zero) as [Hc Hv].
  destruct (foldr_add_finite _ H2) as [Hc' Hv'].
  pose proof Hc as (q1 & E1 & _). pose proof Hc' as (q2 & E2 & _).
  apply (canonical_eq _ _ q1 q2); try done.
  rewrite E1 in Hv. rewrite E2 in Hv'. cbn [toQ zero] in Hv, Hv'.
  rewrite Hv, Hv', H3. ring.
Qed.

(** The valuation formula.  Whatever the holdings and the last
    snapshots, with finite quantities and prices the valuation computed by
    the tracker is the sum over the holdings of quantity times the current
    price of the holding's symbol, a symbol without a snapshot counting
    for 0.  [updatePortfolioValue] hands that total for the holdings of
    user 1, the user it follows, to [storage.recordPortfolioValue] as soon
    as there is a holding. *)
Theorem portfolio_total_is_sum (holdings : list Portfolio)
    (lmd : list (string * MarketData)) :
  Forall (fun p => isFinite (amount p) = true) holdings ->
  Forall (fun e => isFinite (price e.2) = true) lmd ->
  totalValue holdings lmd = specTotalValue holdings (priceMap lmd)
  /\ forall table,
       getUserPortfolio table 1 = holdings -> holdings <> [] ->
       updatePortfolioValue table lmd
       = Some (1, specTotalValue holdings (priceMap lmd)).
Proof.
  intros Hh Hlmd.
  assert (Htotal : totalValue holdings lmd
                   = specTotalValue holdings (priceMap lmd)).
  { unfold totalValue. rewrite (fold_left_map add (codeTerm lmd)).
    unfold specTotalValue. by apply totals_agree. }
  split; [exact Htotal|].
  intros table Htable Hne. unfold updatePortfolioValue. rewrite Htable.
  destruct (decide (0 < length holdings)) as [_|Hn].
  - by rewrite Htotal.
  - destruct holdings; [done|]. cbn [length] in Hn. lia.
Qed.

(** The valuation of 0.5 BTC at 95000 is exactly 47500. *)
Lemma portfolio_total_is_sum_witness :
  totalValue (getUserPortfolio btcTable 1) [("BTC"%string, btcSnapshot)]
  = Fin 47500
  /\ updatePortfolioValue btcTable [("BTC"%string, btcSnapshot)]
     = Some (1, Fin 47500).
Proof.
  assert (H1 : Forall (fun p => isFinite (amount p) = true)
                 (getUserPortfolio btcTable 1))
    by (repeat constructor).
  assert (H2 : Forall (fun e : string * MarketData =>
                         isFinite (price e.2) = true)
                 [("BTC"%string, btcSnapshot)])
    by (repeat constructor).
  assert (H3 : specTotalValue (getUserPortfolio btcTable 1)
                 (priceMap [("BTC"%string, btcSnapshot)]) = Fin 47500)
    by (vm_compute; reflexivity).
  destruct (portfolio_total_is_sum (getUserPortfolio btcTable 1)
              [("BTC"%string, btcSnapshot)] H1 H2) as [Htotal Hrecord].
  split.
  - rewrite Htotal. exact H3.
  - rewrite (Hrecord btcTable eq_refl); [by rewrite H3|discriminate].
Defined.

(** A holding whose symbol has no snapshot adds nothing, and the rows of
    other users are left out. *)
Example portfolio_missing_symbol :
  updatePortfolioValue
    (btcTable ++
     [{| id := 2; userId := 1; positionSymbol := "DOGE";
         amount := Fin 1000; averagePrice := n0_5 |};
      {| id := 3; userId := 2; positionSymbol := "BTC";
         amount := Fin 3; averagePrice := Fin 90000 |}])
    [("BTC"%string, btcSnapshot)]
  = Some (1, Fin 47500).
Proof. vm_compute. reflexivity. Qed.

End PortfolioFacts.

(** ** Subscribers: catch-up on connect and removal on broadcast *)

Module HubFacts.

Import TechnicalAnalysis AIAnalysis Hub.

(** *** The insertion-ordered map *)

Lemma Map_get_set_eq {V} k (v : V) m : Map_get k (Map_set k v m) = Some v.
Proof.
  induction m as [|[k' v'] m IH]; cbn [Map_set Map_get].
  - by rewrite decide_True.
  - destruct (decide (k' = k)) as [->|Hne]; cbn [Map_get].
    + by rewrite decide_True.
    + by rewrite decide_False.
Qed.

Lemma Map_get_set_ne {V} k k' (v : V) m :
  k <> k' -> Map_get k' (Map_set k v m) = Map_get k' m.
Proof.
  intros Hne. induction m as [|[k0 v0] m IH]; cbn [Map_set Map_get].
  - by rewrite decide_False.
  - destruct (decide (k0 = k)) as [->|Hne0]; cbn [Map_get].
    + by rewrite !decide_False.
    + by rewrite IH.
Qed.

Lemma Map_set_keys {V} k (v : V) m k' :
  k' ∈ (Map_set k v m).*1 <-> k' = k \/ k' ∈ m.*1.
Proof.
  induction m as [|[k0 v0] m IH]; cbn [Map_set].
  - rewrite fmap_cons. cbn [fst]. rewrite !elem_of_cons. tauto.
  - destruct (decide (k0 = k)) as [->|Hne]; rewrite !fmap_cons; cbn [fst].
    + rewrite !elem_of_cons. tauto.
    + rewrite !elem_of_cons, IH. tauto.
Qed.

Lemma Map_set_NoDup {V} k (v : V) m :
  NoDup m.*1 -> NoDup (Map_set k v m).*1.
Proof.
  induction m as [|[k0 v0] m IH]; cbn [Map_set]; intros Hnd.
  - rewrite fmap_cons. apply NoDup_singleton.
  - rewrite fmap_cons in Hnd. apply NoDup_cons in Hnd as [Hk0 Hnd].
    destruct (decide (k0 = k)) as [->|Hne]; rewrite fmap_cons; cbn [fst] in *.
    + by apply NoDup_cons.
    + apply NoDup_cons. split; [|by apply IH].
      rewrite Map_set_keys. intros [->|H]; done.
Qed.

(** With distinct keys, the entries of the map are its lookups. *)
Lemma Map_get_entry {V} k (v : V) m :
  NoDup m.*1 -> (k, v) ∈ m <-> Map_get k m = Some v.
Proof.
  induction m as [|[k0 v0] m IH]; intros Hnd; cbn [Map_get].
  - split; [by intros ?%elem_of_nil|done].
  - rewrite fmap_cons in Hnd. apply NoDup_cons in Hnd as [Hk0 Hnd].
    cbn [fst] in Hk0. rewrite elem_of_cons.
    destruct (decide (k0 = k)) as [->|Hne].
    + split.
      * intros [[= ->]|Hin]; [done|].
        exfalso. apply Hk0. apply list_elem_of_fmap. by exists (k, v).
      * intros [= ->]. by left.
    + rewrite <- IH by done. split; [|tauto].
      intros [[= -> ->]|Hin]; [done|done].
Qed.

Lemma lastPublished_snoc sym ticks md :
  lastPublished sym (ticks ++ [md])
  = if decide (symbol md = sym) then Some md else lastPublished sym ticks.
Proof.
  unfold lastPublished. rewrite filter_app.
  destruct (decide (symbol md = sym)) as [E|E].
  - rewrite (filter_cons_True _ md []) by done. rewrite filter_nil.
    apply last_snoc.
  - rewrite (filter_cons_False _ md []) by done. rewrite filter_nil.
    by rewrite app_nil_r.
Qed.

Lemma published_snoc events e :
  published (events ++ [e])
  = published events ++ match e with Publish md => [md] | _ => [] end.
Proof. unfold published. rewrite omap_app. by destruct e. Qed.

Section Facts.

Variable JSON_stringify : MarketData -> string.

(** *** Broadcast *)

Lemma broadcastTo_lastMarketData data st c :
  lastMarketData (broadcastTo data st c) = lastMarketData st.
Proof.
  unfold broadcastTo. destruct (sockets st !! c) as [ws|]; [|done].
  destruct (decide (readyState ws = OPEN)); [|done].
  by destruct (wsSend ws data).
Qed.

Lemma broadcast_fold_lastMarketData data cs st :
  lastMarketData (fold_left (broadcastTo data) cs st) = lastMarketData st.
Proof.
  revert st. induction cs as [|c cs IH]; intros st; [done|].
  cbn [fold_left]. by rewrite IH, broadcastTo_lastMarketData.
Qed.

Lemma broadcast_lastMarketData data st :
  lastMarketData (broadcast data st) = lastMarketData st.
Proof. apply broadcast_fold_lastMarketData. Qed.

(** *** The connection handler *)

Lemma sendInitial_step r st ws entry :
  sockets st !! r = Some ws ->
  sendInitial JSON_stringify r st entry
  = if sendThrows ws (JSON_stringify entry.2) then st
    else withSocket r (afterSend ws (JSON_stringify entry.2)) st.
Proof.
  intros Hws. unfold sendInitial, wsSend. rewrite Hws.
  by destruct (sendThrows ws (JSON_stringify entry.2)).
Qed.

Lemma sendInitial_fold r entries st ws :
  sockets st !! r = Some ws ->
  clients (fold_left (sendInitial JSON_stringify r) entries st) = clients st
  /\ lastMarketData (fold_left (sendInitial JSON_stringify r) entries st)
     = lastMarketData st
  /\ (forall r', r' <> r ->
        sockets (fold_left (sendInitial JSON_stringify r) entries st) !! r'
        = sockets st !! r')
  /\ exists ws',
       sockets (fold_left (sendInitial JSON_stringify r) entries st) !! r
       = Some ws'
       /\ readyState ws' = readyState ws
       /\ sendThrows ws' = sendThrows ws
       /\ sent ws'
          = sent ws
            ++ filter (fun m => sendThrows ws m = false)
                 (map JSON_stringify entries.*2).
Proof.
  revert st ws. induction entries as [|[k d] entries IH]; intros st ws Hws.
  - cbn [fold_left]. split; [done|]. split; [done|]. split; [done|].
    exists ws. split; [done|]. split; [done|]. split; [done|].
    cbn. by rewrite app_nil_r.
  - cbn [fold_left]. rewrite (sendInitial_step r st ws (k, d) Hws).
    cbn [snd]. rewrite fmap_cons. cbn [map snd].
    destruct (sendThrows ws (JSON_stringify d)) eqn:Ethrow.
    + destruct (IH st ws Hws) as (Hc & Hl & Ho & ws' & Hs & Hr & Ht & Hsent).
      split; [done|]. split; [done|]. split; [done|].
      exists ws'. split; [done|]. split; [done|]. split; [done|].
      rewrite Hsent. rewrite filter_cons_False; [done|]. by rewrite Ethrow.
    + destruct (IH (withSocket r (afterSend ws (JSON_stringify d)) st)
                  (afterSend ws (JSON_stringify d)))
        as (Hc & Hl & Ho & ws' & Hs & Hr & Ht & Hsent).
      { cbn. apply lookup_insert_eq. }
      split; [done|]. split; [done|]. split.
      * intros r' Hne. rewrite Ho by done. cbn. by rewrite lookup_insert_ne.
      * exists ws'. split; [done|]. split; [done|]. split; [done|].
        rewrite Hsent. cbn [afterSend sent sendThrows].
        rewrite filter_cons_True by done. by rewrite <- app_assoc.
Qed.

Lemma onConnection_spec r ws st :
  let st' := onConnection JSON_stringify r ws st in
  r ∈ clients st'
  /\ lastMarketData st' = lastMarketData st
  /\ exists ws',
       sockets st' !! r = Some ws'
       /\ sent ws'
          = sent ws
            ++ filter (fun m => sendThrows ws m = false)
                 (map JSON_stringify (lastMarketData st).*2).
Proof.
  cbv zeta. unfold onConnection.
  set (st1 := withSocket r ws (withClients (Set_add r (clients st)) st)).
  destruct (sendInitial_fold r (lastMarketData st1) st1 ws)
    as (Hc & Hl & _ & ws' & Hs & _ & _ & Hsent).
  { cbn. apply lookup_insert_eq. }
  split; [|split; [done|]].
  - rewrite Hc. cbn. unfold Set_add.
    destruct (decide (r ∈ clients st)); [done|].
    apply elem_of_app. right. apply list_elem_of_here.
  - exists ws'. by split.
Qed.

Lemma onConnection_lastMarketData r ws st :
  lastMarketData (onConnection JSON_stringify r ws st) = lastMarketData st.
Proof. by destruct (onConnection_spec r ws st) as (_ & H & _). Qed.

(** *** The last-snapshot map of a running manager *)

Lemma step_lastMarketData st e :
  lastMarketData (step JSON_stringify st e)
  = match e with
    | Publish md => Map_set (symbol md) md (lastMarketData st)
    | _ => lastMarketData st
    end.
Proof.
  destruct e as [md|r ws|r]; cbn [step].
  - unfold publish. by rewrite broadcast_lastMarketData.
  - apply onConnection_lastMarketData.
  - reflexivity.
Qed.

Lemma run_lastMarketData events :
  let lmd := lastMarketData (run JSON_stringify events) in
  NoDup lmd.*1
  /\ forall sym, Map_get sym lmd = lastPublished sym (published events).
Proof.
  cbv zeta. unfold run.
  induction events as [|e events [IHnd IHget]] using rev_ind.
  - split; [constructor|done].
  - rewrite fold_left_app. cbn [fold_left]. rewrite step_lastMarketData.
    rewrite published_snoc.
    destruct e as [md|r ws|r]; rewrite ?app_nil_r; try by split.
    split; [by apply Map_set_NoDup|].
    intros sym. rewrite lastPublished_snoc.
    destruct (decide (symbol md = sym)) as [<-|Hne].
    + apply Map_get_set_eq.
    + rewrite Map_get_set_ne by done. apply IHget.
Qed.

(** C8.  A socket that connects to a running manager is added to the
    clients, and the handler sends it the serialised entries of the
    last-snapshot map, in order and once each; the socket receives those
    its [send] does not throw on.  The map has exactly one entry per symbol
    published so far, holding the snapshot last published (and broadcast)
    for that symbol. *)
Theorem catch_up_on_connect (events : list Event) (r : nat) (ws : WebSocket) :
  let st := run JSON_stringify events in
  let st' := onConnection JSON_stringify r ws st in
  let lmd := lastMarketData st in
  NoDup lmd.*1
  /\ (forall sym d,
        (sym, d) ∈ lmd <-> lastPublished sym (published events) = Some d)
  /\ r ∈ clients st'
  /\ lastMarketData st' = lmd
  /\ exists ws',
       sockets st' !! r = Some ws'
       /\ sent ws'
          = sent ws
            ++ filter (fun m => sendThrows ws m = false)
                 (map JSON_stringify lmd.*2).
Proof.
  cbv zeta.
  destruct (run_lastMarketData events) as [Hnd Hget].
  destruct (onConnection_spec r ws (run JSON_stringify events))
    as (Hin & Hl & Hsent).
  split; [done|]. split.
  - intros sym d. rewrite <- Hget. by apply Map_get_entry.
  - by split.
Qed.

End Facts.

(** *** Broadcast and the set of clients *)

Lemma Set_delete_elem c c' s : c' ∈ Set_delete c s <-> c' ∈ s /\ c' <> c.
Proof. unfold Set_delete. rewrite list_elem_of_filter. tauto. Qed.

Lemma broadcastTo_clients data st c :
  clients (broadcastTo data st c)
  = if throwsOpen (sockets st) data c then Set_delete c (clients st)
    else clients st.
Proof.
  unfold broadcastTo, throwsOpen, wsSend.
  destruct (sockets st !! c) as [ws|]; [|done].
  destruct (decide (readyState ws = OPEN)) as [Ho|Hn].
  - rewrite bool_decide_eq_true_2 by done. cbn [andb].
    by destruct (sendThrows ws data).
  - by rewrite bool_decide_eq_false_2.
Qed.

Lemma broadcastTo_sockets data st c :
  sockets (broadcastTo data st c) = alter (deliver data) c (sockets st).
Proof.
  apply map_eq. intros c'. rewrite lookup_alter.
  unfold broadcastTo, deliver, wsSend.
  destruct (decide (c = c')) as [<-|Hne].
  - destruct (sockets st !! c) as [ws|] eqn:E; [|by rewrite E].
    cbn [fmap option_fmap option_map].
    destruct (decide (readyState ws = OPEN)); [|done].
    destruct (sendThrows ws data); [done|].
    cbn. apply lookup_insert_eq.
  - destruct (sockets st !! c) as [ws|] eqn:E; [|done].
    destruct (decide (readyState ws = OPEN)); [|done].
    destruct (sendThrows ws data); [done|].
    cbn. by rewrite lookup_insert_ne.
Qed.

Lemma throwsOpen_alter_deliver socks data c c' :
  throwsOpen (alter (deliver data) c socks) data c' = throwsOpen socks data c'.
Proof.
  unfold throwsOpen. rewrite lookup_alter.
  destruct (decide (c = c')) as [<-|Hne]; [|done].
  destruct (socks !! c) as [ws|]; [|done].
  cbn [fmap option_fmap option_map]. unfold deliver.
  destruct (decide (readyState ws = OPEN)); [|done].
  destruct (sendThrows ws data) eqn:E; [by rewrite E|].
  cbn [afterSend readyState sendThrows]. by rewrite E.
Qed.

Lemma broadcast_fold data cs st :
  NoDup cs ->
  (forall c,
     c ∈ clients (fold_left (broadcastTo data) cs st)
     <-> c ∈ clients st /\ ~ (c ∈ cs /\ throwsOpen (sockets st) data c = true))
  /\ (forall c,
        sockets (fold_left (broadcastTo data) cs st) !! c
        = if decide (c ∈ cs) then deliver data <$> sockets st !! c
          else sockets st !! c).
Proof.
  revert st. induction cs as [|c0 cs IH]; intros st Hnd.
  - cbn [fold_left]. split.
    + intros c. split; [|tauto]. intros H. split; [done|].
      intros [H' _]. by apply elem_of_nil in H'.
    + intros c. rewrite decide_False; [done|]. apply not_elem_of_nil.
  - apply NoDup_cons in Hnd as [Hc0 Hnd]. cbn [fold_left].
    destruct (IH (broadcastTo data st c0) Hnd) as [IHc IHs].
    split.
    + intros c. rewrite IHc, broadcastTo_clients, broadcastTo_sockets.
      rewrite throwsOpen_alter_deliver, elem_of_cons.
      destruct (throwsOpen (sockets st) data c0) eqn:E0.
      * rewrite Set_delete_elem. split.
        -- intros [[Hin Hne] Hn]. split; [done|].
           intros [[->|Hcs] Ht]; [done|]. by apply Hn.
        -- intros [Hin Hn]. split; [split; [done|]|].
           ++ intros ->. apply Hn. split; [by left|done].
           ++ intros [Hcs Ht]. apply Hn. split; [by right|done].
      * split.
        -- intros [Hin Hn]. split; [done|].
           intros [[->|Hcs] Ht]; [congruence|]. by apply Hn.
        -- intros [Hin Hn]. split; [done|].
           intros [Hcs Ht]. apply Hn. split; [by right|done].
    + intros c. rewrite IHs, broadcastTo_sockets, lookup_alter.
      destruct (decide (c0 = c)) as [<-|Hne].
      * rewrite decide_False by done.
        rewrite decide_True by apply list_elem_of_here. done.
      * destruct (decide (c ∈ cs)) as [Hin|Hnin].
        -- rewrite decide_True by (by apply list_elem_of_further). done.
        -- rewrite decide_False; [done|].
           rewrite elem_of_cons. intros [->|?]; done.
Qed.

(** C9, amended.  At the end of a broadcast the clients are those of
    before except the ones whose socket is open and whose [send] threw:
    these are removed.  An open client whose [send] returns has received
    the payload; a client that is not open is neither sent to nor removed.
    No timeout is involved. *)
Theorem broadcast_removes_throwing_clients (data : string) (st : Manager) :
  NoDup (clients st) ->
  (forall c,
     c ∈ clients (broadcast data st)
     <-> c ∈ clients st /\ throwsOpen (sockets st) data c = false)
  /\ (forall c ws,
        c ∈ clients st -> sockets st !! c = Some ws ->
        readyState ws = OPEN -> sendThrows ws data = false ->
        sockets (broadcast data st) !! c = Some (afterSend ws data))
  /\ (forall c ws,
        sockets st !! c = Some ws -> readyState ws <> OPEN ->
        sockets (broadcast data st) !! c = Some ws)
  /\ lastMarketData (broadcast data st) = lastMarketData st.
Proof.
  intros Hnd. unfold broadcast.
  destruct (broadcast_fold data (clients st) st Hnd) as [Hc Hs].
  split; [|split; [|split]].
  - intros c. rewrite Hc. split.
    + intros [Hin Hn]. split; [done|].
      destruct (throwsOpen (sockets st) data c); [|done].
      exfalso. by apply Hn.
    + intros [Hin Ht]. split; [done|]. intros [_ Ht']. congruence.
  - intros c ws Hin Hws Hopen Hok. rewrite Hs, decide_True by done.
    rewrite Hws. cbn. unfold deliver.
    rewrite decide_True by done. by rewrite Hok.
  - intros c ws Hws Hclosed. rewrite Hs, Hws. unfold deliver.
    destruct (decide (c ∈ clients st)); [|done].
    cbn. by rewrite decide_False.
  - apply broadcast_fold_lastMarketData.
Qed.

(** The clients of a running manager are distinct references. *)
Lemma Set_add_NoDup r s : NoDup s -> NoDup (Set_add r s).
Proof.
  intros Hnd. unfold Set_add. destruct (decide (r ∈ s)) as [Hin|Hnin]; [done|].
  apply NoDup_app. split; [done|]. split; [|apply NoDup_singleton].
  intros x Hx ->%list_elem_of_singleton. done.
Qed.

Lemma Set_delete_NoDup r s : NoDup s -> NoDup (Set_delete r s).
Proof. intros Hnd. unfold Set_delete. by apply NoDup_filter. Qed.

Lemma broadcast_fold_NoDup data cs st :
  NoDup (clients st) -> NoDup (clients (fold_left (broadcastTo data) cs st)).
Proof.
  revert st. induction cs as [|c cs IH]; intros st Hnd; [done|].
  cbn [fold_left]. apply IH. rewrite broadcastTo_clients.
  destruct (throwsOpen (sockets st) data c); [|done].
  by apply Set_delete_NoDup.
Qed.

Lemma run_clients_NoDup (JSON_stringify : MarketData -> string) events :
  NoDup (clients (run JSON_stringify events)).
Proof.
  unfold run. induction events as [|e events IH] using rev_ind.
  - constructor.
  - rewrite fold_left_app. cbn [fold_left].
    destruct e as [md|r ws|r]; cbn [step].
    + unfold publish, broadcast. by apply broadcast_fold_NoDup.
    + unfold onConnection.
      match goal with
      | |- context [fold_left _ ?es ?s] =>
          destruct (sendInitial_fold JSON_stringify r es s ws) as (-> & _)
      end.
      * cbn. apply lookup_insert_eq.
      * cbn. by apply Set_add_NoDup.
    + by apply Set_delete_NoDup.
Qed.

(** *** Concrete managers *)


(** C9, refuted as stated.  Of four clients, a healthy one, one whose
    [send] throws, one whose peer never drains and one that is closing,
    a broadcast removes only the second: whatever the timeout, the stalled
    client stays, and so does the closing one. *)
Lemma stalled_and_closing_clients_stay :
  clients (broadcast "tick" crowded) = [1; 3; 4]
  /\ ~ exists timeout, deadSubscribersRemoved timeout "tick" crowded.
Proof.
  assert (H : clients (broadcast "tick" crowded) = [1; 3; 4])
    by (vm_compute; reflexivity).
  split; [exact H|].
  intros [timeout Hclaim].
  apply (Hclaim 3 stalledSocket).
  - by_evaluation.
  - reflexivity.
  - right. exact I.
  - rewrite H. by_evaluation.
Qed.

Lemma broadcast_removes_throwing_clients_witness :
  NoDup (clients crowded)
  /\ (2 ∈ clients crowded /\ 2 ∉ clients (broadcast "tick" crowded))
  /\ sockets (broadcast "tick" crowded) !! 1
     = Some (afterSend healthySocket "tick").
Proof.
  assert (Hnd : NoDup (clients crowded)) by by_evaluation.
  destruct (broadcast_removes_throwing_clients "tick" crowded Hnd)
    as (Hc & Hs & _ & _).
  split; [exact Hnd|]. split.
  - split.
    + by_evaluation.
    + rewrite Hc. intros [_ Ht]. vm_compute in Ht. discriminate.
  - apply Hs.
    + by_evaluation.
    + reflexivity.
    + reflexivity.
    + reflexivity.
Defined.

(** Two ticks of two symbols, then a connection: the new socket gets the
    second snapshot of each symbol, once. *)
Lemma catch_up_on_connect_witness :
  let events :=
    [Publish (btcSnapshotAt (Fin 95000) 1700000000);
     Publish (ethSnapshot (Fin 3200) 1700000000);
     Publish (btcSnapshotAt (Fin 95010) 1700000001);
     Publish (ethSnapshot (Fin 3199) 1700000001)] in
  exists ws',
    sockets (onConnection sampleStringify 7 healthySocket
               (run sampleStringify events)) !! 7 = Some ws'
    /\ sent ws' = ["BTC/USD@1"%string; "ETH/USD@1"%string].
Proof.
  cbv zeta.
  match goal with
  | |- context [run _ ?es] =>
      destruct (catch_up_on_connect sampleStringify es 7 healthySocket)
        as (_ & _ & _ & _ & ws' & Hws & Hsent)
  end.
  exists ws'. split; [exact Hws|]. rewrite Hsent. vm_compute. reflexivity.
Defined.

End HubFacts.

(** ** More on the technical analysis *)

Module TechnicalAnalysisMore.

Import TechnicalAnalysis Ordering NumFacts PatternFacts VolatilityFacts.

(** *** The shape of the detector's output *)

Lemma scan_shape ty i data :
  Forall (fun p => type p = ty /\ i <= startIndex p) (scan ty i data)
  /\ StronglySorted (fun p q => startIndex p < startIndex q) (scan ty i data)
  /\ length (scan ty i data) <= length data.
Proof.
  revert i. induction data as [|x data IH]; intros i; cbn [scan].
  - repeat split; constructor.
  - destruct (IH (S i)) as (Hall & Hsorted & Hlen).
    assert (Hall' : Forall (fun p => type p = ty /\ i <= startIndex p)
                      (scan ty (S i) data)).
    { eapply Forall_impl; [exact Hall|]. intros p [? ?]. split; [done|lia]. }
    destruct (gt (abs x) n0_7); cbn [app length].
    + split; [|split].
      * constructor; [by split|exact Hall'].
      * constructor; [exact Hsorted|].
        eapply Forall_impl; [exact Hall|]. intros p [_ ?]. cbn. lia.
      * lia.
    + split; [exact Hall'|]. split; [exact Hsorted|]. lia.
Qed.

(** X1.  The output of [detectPatterns] is the triangle hits followed by
    the head-and-shoulders hits, each group in strictly increasing order of
    [startIndex] and of at most 26 patterns: at most 52 patterns, no two
    with the same type and position. *)
Theorem detectPatterns_shape (prices : list num) :
  exists triangles shoulders,
    detectPatterns prices = triangles ++ shoulders
    /\ Forall (fun p => type p = triangle) triangles
    /\ Forall (fun p => type p = head_and_shoulders) shoulders
    /\ StronglySorted (fun p q => startIndex p < startIndex q) triangles
    /\ StronglySorted (fun p q => startIndex p < startIndex q) shoulders
    /\ length triangles <= 26 /\ length shoulders <= 26.
Proof.
  unfold detectPatterns.
  destruct (decide (length prices < PATTERN_WINDOW)) as [Hlt|Hge].
  - exists [], []. split; [done|].
    split; [constructor|]. split; [constructor|].
    split; [constructor|]. split; [constructor|]. cbn. lia.
  - cbv zeta.
    destruct (scan_shape triangle 0
                (conv2d_valid (normalize (sliceLast PATTERN_WINDOW prices))
                   triangleKernel)) as (Ht & Hts & Htl).
    destruct (scan_shape head_and_shoulders 0
                (conv2d_valid (normalize (sliceLast PATTERN_WINDOW prices))
                   hsKernel)) as (Hh & Hhs & Hhl).
    rewrite response_length in Htl, Hhl by (done || lia).
    eexists _, _. split; [reflexivity|].
    split; [eapply Forall_impl; [exact Ht|]; by intros p [? _]|].
    split; [eapply Forall_impl; [exact Hh|]; by intros p [? _]|].
    done.
Qed.

(** X2.  Only the last 30 prices matter to [detectPatterns]: any older
    prices put in front of a window of 30 leave the result unchanged. *)
Theorem detectPatterns_window_only (older window : list num) :
  length window = PATTERN_WINDOW ->
  detectPatterns (older ++ window) = detectPatterns window.
Proof.
  intros Hw. unfold detectPatterns.
  rewrite length_app, Hw.
  rewrite decide_False by lia. rewrite decide_False by lia.
  unfold sliceLast. rewrite length_app, Hw.
  replace (length older + PATTERN_WINDOW - PATTERN_WINDOW)
    with (length older) by lia.
  rewrite drop_app_length.
  replace (PATTERN_WINDOW - PATTERN_WINDOW) with 0 by lia.
  reflexivity.
Qed.

Lemma detectPatterns_window_only_witness :
  detectPatterns ([Fin 7; Fin 9] ++ zigzag) = detectPatterns zigzag.
Proof. apply detectPatterns_window_only. reflexivity. Defined.

(** *** Sorting the returns *)

Section Sorting.

Variable Math_log : num -> num.
Variable Math_sqrt : num -> num.

Lemma insertSorted_perm a sorted : insertSorted a sorted ≡ₚ a :: sorted.
Proof.
  induction sorted as [|b sorted IH]; [done|].
  cbn [insertSorted]. destruct (gt (a - b)%num zero); [|done].
  rewrite IH. apply Permutation_swap.
Qed.

Lemma sortAscending_perm xs : sortAscending xs ≡ₚ xs.
Proof.
  induction xs as [|x xs IH]; [done|].
  cbn [sortAscending foldr]. fold (sortAscending xs).
  by rewrite insertSorted_perm, IH.
Qed.

Lemma leq_Fin a b : leq (Fin a) (Fin b) <-> (a <= b)%Q.
Proof.
  unfold leq, Num.le. rewrite negb_true_iff. apply lt_Fin_false.
Qed.

(** The comparator [a - b] is positive exactly when [b < a]. *)
Lemma comparator_positive a b :
  gt (Fin a - Fin b)%num zero = true <-> (b < a)%Q.
Proof.
  unfold gt, sub, neg, add, zero. rewrite lt_Fin, !Qred_correct.
  split; intros H; lra.
Qed.

Lemma insertSorted_sorted (a : Q) (qs : list Q) :
  StronglySorted leq (map Fin qs) ->
  StronglySorted leq (insertSorted (Fin a) (map Fin qs)).
Proof.
  induction qs as [|b qs IH]; intros Hs; cbn [map insertSorted].
  - repeat constructor.
  - apply StronglySorted_cons in Hs as [Hb Hs].
    destruct (gt (Fin a - Fin b)%num zero) eqn:E.
    + apply comparator_positive in E.
      apply StronglySorted_cons. split; [|by apply IH].
      rewrite insertSorted_perm. constructor; [|done].
      apply leq_Fin. lra.
    + assert (Hab : (a <= b)%Q).
      { apply Qnot_lt_le. intros H. apply comparator_positive in H.
        congruence. }
      apply StronglySorted_cons. split.
      * constructor; [by apply leq_Fin|].
        eapply Forall_impl; [exact Hb|]. intros y Hy.
        destruct y as [q| | |]; try done.
        apply leq_Fin in Hy. apply leq_Fin. lra.
      * by apply StronglySorted_cons.
Qed.

Lemma finite_list (xs : list num) :
  Forall (fun x => isFinite x = true) xs -> exists qs, xs = map Fin qs.
Proof.
  induction 1 as [|x xs Hx _ [qs ->]]; [by exists []|].
  destruct x as [q| | |]; try done. by exists (q :: qs).
Qed.

Lemma sortAscending_Fin qs :
  exists qs', sortAscending (map Fin qs) = map Fin qs'
              /\ StronglySorted leq (map Fin qs').
Proof.
  induction qs as [|a qs (qs' & E & Hs)].
  - exists []. split; [done|constructor].
  - cbn [map sortAscending foldr]. fold (sortAscending (map Fin qs)).
    rewrite E.
    assert (Hf : Forall (fun x => isFinite x = true)
                   (insertSorted (Fin a) (map Fin qs'))).
    { rewrite insertSorted_perm. constructor; [done|].
      apply Forall_map, Forall_forall. done. }
    destruct (finite_list _ Hf) as [qs'' E''].
    exists qs''. split; [done|]. rewrite <- E''. by apply insertSorted_sorted.
Qed.

(** On finite numbers the sort puts the list in ascending order. *)
Lemma sortAscending_sorted xs :
  Forall (fun x => isFinite x = true) xs ->
  StronglySorted leq (sortAscending xs).
Proof.
  intros Hf. destruct (finite_list xs Hf) as [qs ->].
  destruct (sortAscending_Fin qs) as (qs' & -> & Hs). exact Hs.
Qed.

Lemma varIndexOf_lt returns :
  1 <= length returns -> varIndexOf returns < length returns.
Proof.
  intros H. rewrite (varIndexOf_div).
  apply Nat.div_lt; lia.
Qed.

(** X3.  For a history of at least 30 prices the value at risk is read
    inside the sorted returns: [varIndex] is a valid index, and the value
    at risk is the negation of one of the log returns (never of a missing
    element). *)
Theorem value_at_risk_in_bounds (prices : list num) :
  VOLATILITY_WINDOW <= length prices ->
  exists metrics r,
    calculateVolatility Math_log Math_sqrt prices = Some metrics
    /\ sortAscending (logReturns Math_log prices)
         !! varIndexOf (logReturns Math_log prices) = Some r
    /\ r ∈ logReturns Math_log prices
    /\ valueAtRisk (riskMetrics metrics) = neg r.
Proof.
  intros Hlen. unfold VOLATILITY_WINDOW in Hlen.
  assert (Hr : 1 <= length (logReturns Math_log prices))
    by (rewrite logReturns_length; lia).
  pose proof (varIndexOf_lt _ Hr) as Hk.
  rewrite <- (sortAscending_length (logReturns Math_log prices)) in Hk.
  apply lookup_lt_is_Some_2 in Hk as [r Hlookup].
  unfold calculateVolatility.
  destruct (decide (length prices < VOLATILITY_WINDOW)) as [Hlt|_];
    [unfold VOLATILITY_WINDOW in Hlt; lia|].
  eexists _, r. split; [reflexivity|]. split; [exact Hlookup|]. split.
  - rewrite <- sortAscending_perm. by eapply list_elem_of_lookup_2.
  - cbn [riskMetrics valueAtRisk]. unfold at_. by rewrite Hlookup.
Qed.

Lemma Qsum_bound (qs : list Q) (m : Q) :
  Forall (fun q => (q <= m)%Q) qs ->
  (Hub.Qsum qs <= inject_Z (Z.of_nat (length qs)) * m)%Q.
Proof.
  induction 1 as [|q qs Hq _ IH].
  - unfold Hub.Qsum. cbn [foldr length].
    change (inject_Z (Z.of_nat 0)) with 0%Q. lra.
  - cbn [Hub.Qsum foldr length]. fold (Hub.Qsum qs).
    rewrite Nat2Z.inj_succ. unfold Z.succ. rewrite inject_Z_plus.
    change (inject_Z 1) with 1%Q. rewrite Qmult_plus_distr_l.
    set (nm := (inject_Z (Z.of_nat (length qs)) * m)%Q) in *. lra.
Qed.

(** X4.  In exact arithmetic and with finite log returns, the expected
    shortfall of a history of at least 30 prices is never below its value
    at risk: the returns averaged are the ones sorted before the
    value-at-risk return.  (In binary64 the mean of equal returns can
    round to one unit in the last place below them, so the two can be
    that far apart the other way round.) *)
Theorem shortfall_at_least_value_at_risk (prices : list num) :
  VOLATILITY_WINDOW <= length prices ->
  Forall (fun r => isFinite r = true) (logReturns Math_log prices) ->
  exists metrics,
    calculateVolatility Math_log Math_sqrt prices = Some metrics
    /\ leq (valueAtRisk (riskMetrics metrics))
           (expectedShortfall (riskMetrics metrics)).
Proof.
  intros Hlen Hfin.
  assert (Hr : 20 <= length (logReturns Math_log prices))
    by (rewrite logReturns_length; unfold VOLATILITY_WINDOW in Hlen; lia).
  pose proof (varIndexOf_positive _ Hr) as Hk.
  assert (Hk' : varIndexOf (logReturns Math_log prices)
                < length (sortAscending (logReturns Math_log prices))).
  { rewrite sortAscending_length. apply varIndexOf_lt. lia. }
  apply lookup_lt_is_Some_2 in Hk' as [r Hlookup].
  unfold calculateVolatility.
  destruct (decide (length prices < VOLATILITY_WINDOW)) as [Hlt|_]; [lia|].
  eexists. split; [reflexivity|].
  cbn [riskMetrics valueAtRisk expectedShortfall].
  unfold at_. rewrite Hlookup. cbn [default].
  set (returns := logReturns Math_log prices) in *.
  set (k := varIndexOf returns) in *.
  destruct (finite_list returns Hfin) as [qs Eqs].
  destruct (sortAscending_Fin qs) as (qs' & Es & Hsorted).
  rewrite Eqs, Es in *. clear Eqs Es.
  rewrite list_lookup_fmap in Hlookup.
  destruct (qs' !! k) as [qm|] eqn:Ek; [|done].
  injection Hlookup as <-.
  rewrite firstn_map.
  assert (Htail : Forall (fun q => (q <= qm)%Q) (take k qs')).
  { apply Forall_forall. intros q Hq.
    rewrite <- (take_drop k qs'), map_app in Hsorted.
    apply leq_Fin.
    apply (StronglySorted_app_1_elem_of _ _ _ _ _ Hsorted).
    - apply list_elem_of_fmap. by exists q.
    - apply list_elem_of_fmap. exists qm. split; [done|].
      apply (list_elem_of_lookup_2 _ 0). by rewrite lookup_drop, Nat.add_0_r. }
  assert (Hlen_tail : length (take k qs') = k).
  { apply lookup_lt_Some in Ek. rewrite length_take. lia. }
  destruct (PortfolioFacts.fold_left_add_finite
              (map Fin (take k qs')) zero) as [(s & Hs & _) Hsum].
  { apply Forall_map, Forall_forall. done. }
  { apply PortfolioFacts.canonical_zero. }
  rewrite Hs in *. cbn [Hub.toQ zero] in Hsum.
  rewrite map_map in Hsum. cbn [Hub.toQ] in Hsum. rewrite map_id in Hsum.
  pose proof (Qsum_bound _ _ Htail) as Hbound. rewrite Hlen_tail in Hbound.
  assert (Hkpos : (0 < inject_Z (Z.of_nat k))%Q).
  { change 0%Q with (inject_Z 0). rewrite <- Zlt_Qlt. lia. }
  unfold ofNat, ofZ, neg, div.
  assert (Hnz : Qis0 (inject_Z (Z.of_nat k)) = false).
  { apply Qis0_false. intros H. rewrite H in Hkpos. lra. }
  rewrite Hnz. apply leq_Fin. rewrite !Qred_correct.
  apply Qle_shift_div_l; [done|]. lra.
Qed.

(** *** Short histories *)

Lemma nonNegOrNaN_mul x y :
  nonNegOrNaN x -> nonNegOrNaN y -> nonNegOrNaN (x * y)%num.
Proof.
  assert (Hsign : forall a, (0 <= a)%Q -> Qneg a = false).
  { intros a Ha. unfold Qneg. apply negb_false_iff. by apply Qle_bool_iff. }
  destruct x as [a| | |], y as [b| | |]; try done; cbn [nonNegOrNaN mul].
  - intros Ha Hb. rewrite Qred_correct. by apply Qmult_le_0_compat.
  - intros Ha _. destruct (Qis0 a); [done|]. by rewrite Hsign.
  - intros _ Hb. destruct (Qis0 b); [done|]. by rewrite Hsign.
Qed.

(** A volatility compared with itself is neither 10% above nor 10%
    below. *)
Lemma trend_of_equal_volatilities h :
  nonNegOrNaN h ->
  gt h (h * n1_1)%num = false /\ lt h (h * n0_9)%num = false.
Proof.
  destruct h as [q| | |]; try done.
  cbn [nonNegOrNaN]. intros Hq. unfold gt, n1_1, n0_9, mul. split.
  - apply lt_Fin_false. rewrite Qred_correct. lra.
  - apply lt_Fin_false. rewrite Qred_correct. lra.
Qed.

(** X5.  While the history holds 30 or 31 prices, the recent window of 30
    returns is the whole series: the recent and the historical volatility
    are the same number and the trend is always [stable].  (For a square
    root that is never negative.) *)
Theorem short_history_trend_stable (prices : list num) :
  (forall x, nonNegOrNaN (Math_sqrt x)) ->
  VOLATILITY_WINDOW <= length prices <= 31 ->
  exists metrics,
    calculateVolatility Math_log Math_sqrt prices = Some metrics
    /\ volatilityTrend metrics = stable
    /\ relativeVolatility metrics
       = (historicalVolatility metrics / historicalVolatility metrics)%num.
Proof.
  intros Hsqrt [Hlo Hhi]. unfold VOLATILITY_WINDOW in *.
  unfold calculateVolatility.
  destruct (decide (length prices < VOLATILITY_WINDOW)) as [Hlt|_];
    [unfold VOLATILITY_WINDOW in Hlt; lia|].
  assert (Hrecent : sliceLast VOLATILITY_WINDOW (logReturns Math_log prices)
                    = logReturns Math_log prices).
  { unfold sliceLast, VOLATILITY_WINDOW. rewrite logReturns_length.
    replace (length prices - 1 - 30) with 0 by lia. reflexivity. }
  rewrite Hrecent.
  eexists. split; [reflexivity|].
  cbn [volatilityTrend relativeVolatility historicalVolatility].
  split; [|reflexivity].
  destruct (trend_of_equal_volatilities
              (Math_sqrt (variance (logReturns Math_log prices))
               * Math_sqrt n252)%num) as [-> ->]; [|reflexivity].
  by apply nonNegOrNaN_mul.
Qed.

End Sorting.

(** The two theorems on the rising history, with the identity for the
    logarithm and the absolute value for the square root. *)
Lemma shortfall_at_least_value_at_risk_witness :
  exists metrics,
    calculateVolatility (fun x => x) abs risingPrices = Some metrics
    /\ leq (valueAtRisk (riskMetrics metrics))
           (expectedShortfall (riskMetrics metrics)).
Proof.
  apply shortfall_at_least_value_at_risk.
  - vm_compute. lia.
  - apply Forall_forall. intros r Hr.
    apply list_elem_of_In in Hr. vm_compute in Hr.
    repeat (destruct Hr as [<-|Hr]; [reflexivity|]). destruct Hr.
Defined.

Lemma short_history_trend_stable_witness :
  exists metrics,
    calculateVolatility (fun x => x) abs risingPrices = Some metrics
    /\ volatilityTrend metrics = stable.
Proof.
  destruct (short_history_trend_stable (fun x => x) abs risingPrices)
    as (metrics & Hm & Ht & _).
  - intros x. destruct x as [q| | |]; try done. cbn.
    rewrite Qred_correct. apply Qabs_nonneg.
  - vm_compute. lia.
  - exists metrics. by split.
Defined.

Lemma value_at_risk_in_bounds_witness :
  exists metrics r,
    calculateVolatility (fun x => x) abs risingPrices = Some metrics
    /\ r ∈ logReturns (fun x => x) risingPrices
    /\ valueAtRisk (riskMetrics metrics) = neg r.
Proof.
  destruct (value_at_risk_in_bounds (fun x => x) abs risingPrices)
    as (metrics & r & Hm & _ & Hr & Hv).
  - vm_compute. lia.
  - exists metrics, r. by split.
Defined.

End TechnicalAnalysisMore.

(** ** More on the recommendation cache *)

Module AIAnalysisMore.

Import TechnicalAnalysis AIAnalysis AIAnalysisFacts.

Section Facts.

Variable openai : nat -> MarketContext -> OracleReply.
Variable formatChange : num -> string.

(** X6.  Whatever the state, a call of [analyzeMarket] returns exactly
    what the cache holds for the symbol afterwards, leaves the entries of
    all other symbols alone, makes at most one request, and never moves
    the clock back. *)
Theorem analyzeMarket_cache_coherent (symbol : string) (price : num)
    (td : TechnicalData) (hist : list num) (st : AIState) :
  let r := (analyzeMarket openai formatChange symbol price td hist st).1 in
  let st' := (analyzeMarket openai formatChange symbol price td hist st).2 in
  result <$> analysisCache st' !! symbol = Some r
  /\ (forall other, other <> symbol ->
        analysisCache st' !! other = analysisCache st !! other)
  /\ (oracleLog st' = oracleLog st
      \/ oracleLog st'
         = oracleLog st ++ [marketContextOf formatChange symbol price td hist])
  /\ (now st <= now st')%Z.
Proof.
  cbv zeta.
  destruct (fresh st (analysisCache st !! symbol)) eqn:Hfresh.
  - destruct (analysisCache st !! symbol) as [c|] eqn:Hc; [|done].
    unfold fresh in Hfresh. apply bool_decide_eq_true_1 in Hfresh.
    rewrite (analyzeMarket_hit openai formatChange symbol price td hist st c)
      by done.
    cbn [fst snd]. rewrite Hc. split; [done|]. split; [done|].
    split; [by left|lia].
  - rewrite (analyzeMarket_miss openai formatChange symbol price td hist st)
      by done.
    cbn [fst snd analysisCache now oracleLog].
    rewrite lookup_insert_eq. split; [done|]. split.
    + intros other Hne. by rewrite lookup_insert_ne.
    + split; [by right|lia].
Qed.

End Facts.

End AIAnalysisMore.

(** ** The market loop *)

Module FeedFacts.

Import PriceHistory TechnicalAnalysis AIAnalysis Hub Feed.
Import NumFacts PriceHistoryFacts HubFacts.

(** One step of the random walk: from a finite positive price and a draw
    in [0, 1), the new price is finite, positive and within 0.1% of the old
    one. *)
Lemma nextPrice_within_tenth_percent (price random : num) :
  positivePrice price -> isRandom random ->
  withinTenthPercent price (nextPrice price random)
  /\ positivePrice (nextPrice price random).
Proof.
  destruct price as [p| | |]; try done.
  destruct random as [r| | |]; try done.
  cbn [positivePrice isRandom]. intros Hp [Hr0 Hr1].
  unfold nextPrice, n0_5, sub, neg, add, mul.
  cbn [withinTenthPercent positivePrice]. rewrite !Qred_correct.
  assert (H1 : (0 <= p * r)%Q) by (apply Qmult_le_0_compat; lra).
  assert (H2 : (p * r <= p)%Q).
  { rewrite <- (Qmult_1_r p) at 2. apply Qmult_le_l; lra. }
  set (pr := (p * r)%Q) in *.
  assert (E : (p + p * (1 # 1000) * ((r + - (1 # 2)) * 2)
               == p * (999 # 1000) + pr * (2 # 1000))%Q)
    by (unfold pr; ring).
  rewrite E. split; [split|]; lra.
Qed.

Section Facts.

Variable Math_log : num -> num.
Variable Math_sqrt : num -> num.
Variable openai : nat -> MarketContext -> OracleReply.
Variable formatChange : num -> string.
Variable JSON_stringify : MarketData -> string.

Lemma processSymbol_unfold symbol price r1 r2 st :
  processSymbol Math_log Math_sqrt openai formatChange JSON_stringify
    symbol price r1 r2 st
  = {| basePrice := Map_set symbol (nextPrice price r1) (basePrice st);
       priceHistory :=
         updatePriceHistory symbol (nextPrice price r1) (priceHistory st);
       aiState :=
         (analyzeMarket openai formatChange symbol (nextPrice price r1)
            (analyzeTechnicals Math_log Math_sqrt symbol
               (updatePriceHistory symbol (nextPrice price r1)
                  (priceHistory st)))
            (getHistory symbol
               (updatePriceHistory symbol (nextPrice price r1)
                  (priceHistory st)))
            (aiState st)).2;
       manager :=
         publish JSON_stringify (manager st)
           (snapshotOf Math_log Math_sqrt openai formatChange symbol price r1 r2
              st) |}.
Proof.
  unfold processSymbol, snapshotOf. cbv zeta.
  by destruct (analyzeMarket _ _ _ _ _ _ _).
Qed.

Lemma publish_lastMarketData st md :
  lastMarketData (publish JSON_stringify st md)
  = Map_set (symbol md) md (lastMarketData st).
Proof. unfold publish. by rewrite broadcast_lastMarketData. Qed.

Lemma getHistory_update_last symbol price ph :
  last (getHistory symbol (updatePriceHistory symbol price ph)) = Some price.
Proof.
  rewrite getHistory_update_same. cbv zeta.
  destruct (decide (100 < length (getHistory symbol ph ++ [price]))) as [H|H].
  - destruct (getHistory symbol ph) as [|x l] eqn:E.
    + cbn in H. lia.
    + cbn [app tail]. apply last_snoc.
  - apply last_snoc.
Qed.

Lemma Map_set_middle {V} k (v old : V) done rest :
  k ∉ done.*1 ->
  Map_set k v (done ++ (k, old) :: rest) = done ++ (k, v) :: rest.
Proof.
  induction done as [|[k' v'] done IH]; intros Hk; cbn [app Map_set].
  - by rewrite decide_True.
  - rewrite fmap_cons, not_elem_of_cons in Hk. destruct Hk as [Hne Hk].
    cbn [fst] in Hne. rewrite decide_False by done. by rewrite IH.
Qed.

Variable draws : string -> num * num.

Local Notation "'turn'" :=
  (Feed.turn Math_log Math_sqrt openai formatChange JSON_stringify draws).
Local Notation "'moved'" := (Feed.moved draws).

Lemma turn_settles before st entry :
  getHistory entry.1 (priceHistory st) = getHistory entry.1 before ->
  settled Math_log Math_sqrt draws before (turn st entry) entry.
Proof.
  intros Hbefore. unfold Feed.turn. rewrite processSymbol_unfold.
  unfold settled. cbn [priceHistory manager]. cbv zeta.
  split; [|split].
  - rewrite !getHistory_update_same. by rewrite Hbefore.
  - apply getHistory_update_last.
  - rewrite publish_lastMarketData.
    eexists. split.
    + unfold snapshotOf at 1. cbv zeta. cbn [assemble symbol].
      apply Map_get_set_eq.
    + unfold snapshotOf, assemble, analyzeTechnicals.
      cbn [symbol price volatilityMetrics patternAnalysis aiAnalysis
           patterns volatility].
      rewrite ServiceFacts.detectPatterns_reports_nothing.
      split; [done|]. split; [done|]. split; [done|]. split; [done|].
      by eexists.
Qed.

Lemma turn_keeps before st entry other :
  other.1 <> entry.1 ->
  settled Math_log Math_sqrt draws before st other ->
  settled Math_log Math_sqrt draws before (turn st entry) other.
Proof.
  intros Hne (Hh & Hlast & md & Hget & Hrest).
  unfold Feed.turn. rewrite processSymbol_unfold.
  unfold settled. cbn [priceHistory manager]. cbv zeta.
  rewrite getHistory_update_other by done.
  split; [done|]. split; [done|].
  exists md. split; [|done].
  rewrite publish_lastMarketData. rewrite Map_get_set_ne; [done|].
  unfold snapshotOf. cbv zeta. cbn [assemble symbol]. done.
Qed.

Lemma turn_untouched st entry other :
  other <> entry.1 ->
  getHistory other (priceHistory (turn st entry))
  = getHistory other (priceHistory st).
Proof.
  intros Hne. unfold Feed.turn. rewrite processSymbol_unfold.
  cbn [priceHistory]. by rewrite getHistory_update_other.
Qed.

Lemma turn_basePrice st entry :
  basePrice (turn st entry)
  = Map_set entry.1 (moved entry).2 (basePrice st).
Proof. unfold Feed.turn. by rewrite processSymbol_unfold. Qed.

Lemma tick_fold before todo done st :
  NoDup (done ++ todo).*1 ->
  basePrice st = map moved done ++ todo ->
  Forall (settled Math_log Math_sqrt draws before st) done ->
  Forall (fun e => getHistory e.1 (priceHistory st) = getHistory e.1 before)
    todo ->
  basePrice (fold_left turn todo st) = map moved (done ++ todo)
  /\ Forall (settled Math_log Math_sqrt draws before (fold_left turn todo st))
       (done ++ todo).
Proof.
  revert done st. induction todo as [|e todo IH]; intros done st Hnd Hbp Hs Hu.
  - cbn [fold_left]. rewrite app_nil_r in *. by split.
  - cbn [fold_left].
    replace (done ++ e :: todo) with ((done ++ [e]) ++ todo) in *
      by (rewrite <- app_assoc; reflexivity).
    assert (Hkeys : (e.1 ∉ done.*1) /\ (e.1 ∉ todo.*1)).
    { rewrite !fmap_app in Hnd. apply NoDup_app in Hnd as (Hnd1 & Hdisj & _).
      apply NoDup_app in Hnd1 as (_ & Hd & _).
      split.
      - intros Hin. apply (Hd _ Hin). rewrite fmap_cons. apply list_elem_of_here.
      - apply Hdisj. apply elem_of_app. right. rewrite fmap_cons.
        apply list_elem_of_here. }
    destruct Hkeys as [Hdone Htodo].
    apply Forall_cons in Hu as [Hue Hu].
    apply IH; [done| | |].
    + rewrite turn_basePrice, Hbp. destruct e as [k p]. cbn [fst snd].
      rewrite Map_set_middle.
      * rewrite map_app. cbn [map]. by rewrite <- app_assoc.
      * replace (map moved done).*1 with done.*1; [done|].
        clear. induction done as [|[k' p'] done IH]; [done|].
        cbn [map]. rewrite !fmap_cons. by rewrite IH.
    + apply Forall_app. split.
      * apply Forall_forall. intros o Ho.
        rewrite Forall_forall in Hs. apply turn_keeps; [|by apply Hs].
        intros Heq. apply Hdone. rewrite <- Heq.
        apply list_elem_of_fmap. by exists o.
      * apply Forall_singleton. by apply turn_settles.
    + apply Forall_forall. intros o Ho. rewrite turn_untouched.
      * rewrite Forall_forall in Hu. by apply Hu.
      * intros Heq. apply Htodo. rewrite <- Heq.
        apply list_elem_of_fmap. by exists o.
Qed.

Lemma moved_keys entries : (map moved entries).*1 = entries.*1.
Proof.
  induction entries as [|[k p] entries IH]; [done|].
  cbn [map]. rewrite !fmap_cons. by rewrite IH.
Qed.

Lemma marketTick_effect (st : FeedState) :
  NoDup (basePrice st).*1 ->
  basePrice (marketTick Math_log Math_sqrt openai formatChange JSON_stringify
               draws st)
  = map moved (basePrice st)
  /\ Forall
       (settled Math_log Math_sqrt draws (priceHistory st)
          (marketTick Math_log Math_sqrt openai formatChange JSON_stringify
             draws st))
       (basePrice st).
Proof.
  intros Hnd. unfold marketTick.
  apply (tick_fold (priceHistory st) (basePrice st) [] st); try done.
  apply Forall_forall. done.
Qed.

(** X9.  A firing of the market loop that runs to its end before the next
    one begins leaves [basePrice] with the same symbols in the same order,
    each with its new price, and for every symbol the new price is at once
    the price of the symbol's last snapshot and the last element of its
    history; the snapshot's volatility metrics are those of that history,
    it carries no pattern analysis, and the history is the one of before
    with the new price appended.  (Firings overlap in the source when a
    request outlasts the second; then later firings write in between.) *)
Theorem market_tick_settles (st : FeedState) :
  NoDup (basePrice st).*1 ->
  basePrice (marketTick Math_log Math_sqrt openai formatChange JSON_stringify
               draws st)
  = map moved (basePrice st)
  /\ Forall
       (settled Math_log Math_sqrt draws (priceHistory st)
          (marketTick Math_log Math_sqrt openai formatChange JSON_stringify
             draws st))
       (basePrice st).
Proof. apply marketTick_effect. Qed.

(** X8.  One firing with draws in [0, 1) moves every price by at most
    0.1% and keeps it finite and positive; no symbol is added, dropped or
    reordered. *)
Theorem market_tick_random_walk (st : FeedState) :
  NoDup (basePrice st).*1 ->
  Forall (fun e => positivePrice e.2) (basePrice st) ->
  (forall symbol, isRandom (draws symbol).1) ->
  Forall2
    (fun old new =>
       new.1 = old.1 /\ withinTenthPercent old.2 new.2
       /\ positivePrice new.2)
    (basePrice st)
    (basePrice (marketTick Math_log Math_sqrt openai formatChange
                  JSON_stringify draws st)).
Proof.
  intros Hnd Hpos Hdraws.
  destruct (marketTick_effect st Hnd) as [-> _]. clear Hnd.
  induction Hpos as [|[k p] entries Hp _ IH]; [constructor|].
  cbn [map]. constructor; [|exact IH].
  cbn [Feed.moved fst snd] in *. split; [done|].
  by apply nextPrice_within_tenth_percent.
Qed.

End Facts.

(** *** Successive firings *)

Section Run.

Variable Math_log : num -> num.
Variable Math_sqrt : num -> num.
Variable openai : nat -> MarketContext -> OracleReply.
Variable formatChange : num -> string.
Variable JSON_stringify : MarketData -> string.

Local Notation "'ticks'" :=
  (marketTicks Math_log Math_sqrt openai formatChange JSON_stringify).

Lemma calculateVolatility_is_Some prices :
  is_Some (calculateVolatility Math_log Math_sqrt prices)
  <-> VOLATILITY_WINDOW <= length prices.
Proof.
  unfold calculateVolatility.
  destruct (decide (length prices < VOLATILITY_WINDOW)) as [H|H].
  - split; [by intros [? ?]|lia].
  - split; [lia|]. intros _. by eexists.
Qed.

Lemma initial_symbols_NoDup : NoDup initialBasePrice.*1.
Proof. by_evaluation. Qed.

(** What holds of every symbol after [length ds] firings from the start. *)
Lemma ticks_invariant (t0 : Z) (ds : list (string -> num * num)) :
  (basePrice (ticks ds (initialFeed t0))).*1 = initialBasePrice.*1
  /\ forall s, s ∈ initialBasePrice.*1 ->
       length (getHistory s (priceHistory (ticks ds (initialFeed t0))))
       = Nat.min (length ds) 100
       /\ (ds <> [] ->
           exists md,
             Map_get s (lastMarketData (manager (ticks ds (initialFeed t0))))
             = Some md
             /\ symbol md = s
             /\ last (getHistory s (priceHistory (ticks ds (initialFeed t0))))
                = Some (price md)
             /\ volatilityMetrics md
                = calculateVolatility Math_log Math_sqrt
                    (getHistory s (priceHistory (ticks ds (initialFeed t0))))
             /\ patternAnalysis md = None).
Proof.
  induction ds as [|d ds [IHkeys IH]] using rev_ind.
  - split; [done|]. intros s Hs. split; [|done].
    unfold marketTicks, initialFeed, getHistory. cbn. by rewrite lookup_empty.
  - unfold marketTicks in *. rewrite fold_left_app. cbn [fold_left].
    set (st := fold_left _ ds (initialFeed t0)) in *.
    assert (Hnd : NoDup (basePrice st).*1)
      by (rewrite IHkeys; apply initial_symbols_NoDup).
    destruct (marketTick_effect Math_log Math_sqrt openai formatChange
                JSON_stringify d st Hnd) as [Hbp Hsettled].
    split; [by rewrite Hbp, moved_keys|].
    intros s Hs.
    rewrite <- IHkeys in Hs. apply list_elem_of_fmap in Hs as ([k p] & -> & He).
    rewrite Forall_forall in Hsettled.
    destruct (Hsettled _ He) as (Hh & Hlast & md & Hget & Hsym & Hprice
                                 & Hvol & Hpat & _).
    cbn [fst snd] in *.
    destruct (IH k) as [Hlen _].
    { rewrite <- IHkeys. apply list_elem_of_fmap. by exists (k, p). }
    split.
    + rewrite Hh, getHistory_update_same. cbv zeta.
      rewrite length_app, length_app. cbn [length].
      destruct (decide (100 < length (getHistory k (priceHistory st)) + 1))
        as [Hfull|Hroom].
      * destruct (getHistory k (priceHistory st) ++ [_]) as [|x l] eqn:E.
        -- apply (f_equal length) in E. rewrite length_app in E.
           cbn [length] in E. lia.
        -- apply (f_equal length) in E. rewrite length_app in E.
           cbn [length tail] in *. lia.
      * rewrite length_app. cbn [length]. lia.
    + intros _. exists md. rewrite Hprice. done.
Qed.

(** X10.  With firings that each run to their end before the next one
    begins: after [n >= 1] firings from the start, every symbol has a
    history of [min n 100] prices and a last snapshot whose price is the
    last price of that history; the snapshot carries volatility metrics
    exactly when [n >= 30], and never a pattern analysis. *)
Theorem analytics_from_thirtieth_firing (t0 : Z)
    (ds : list (string -> num * num)) (s : string) :
  ds <> [] -> s ∈ initialBasePrice.*1 ->
  exists md,
    Map_get s (lastMarketData (manager (ticks ds (initialFeed t0)))) = Some md
    /\ length (getHistory s (priceHistory (ticks ds (initialFeed t0))))
       = Nat.min (length ds) 100
    /\ last (getHistory s (priceHistory (ticks ds (initialFeed t0))))
       = Some (price md)
    /\ (is_Some (volatilityMetrics md) <-> 30 <= length ds)
    /\ patternAnalysis md = None.
Proof.
  intros Hds Hs.
  destruct (ticks_invariant t0 ds) as [_ H].
  destruct (H s Hs) as [Hlen Hmd].
  destruct (Hmd Hds) as (md & Hget & _ & Hlast & Hvol & Hpat).
  exists md. split; [done|]. split; [done|]. split; [done|]. split; [|done].
  rewrite Hvol, calculateVolatility_is_Some, Hlen.
  unfold VOLATILITY_WINDOW. lia.
Qed.

End Run.

(** *** A concrete feed: steady draws, the sample oracle *)

Lemma steadyDraws_random symbol : isRandom (steadyDraws symbol).1.
Proof. cbn. split; [discriminate|reflexivity]. Qed.

Lemma initial_prices_positive :
  Forall (fun e : string * num => positivePrice e.2) initialBasePrice.
Proof. repeat constructor. Qed.

(** One firing from the start with every price drawn up: BTC moves from
    95000 to 95047.5, which is the whole of its history and the price of
    its snapshot; one price gives no volatility metrics. *)
Lemma market_tick_settles_witness :
  let st :=
    marketTick (fun x => x) abs promptOracle noFormat sampleStringify
      risingDraws (initialFeed 0) in
  basePrice st = map (Feed.moved risingDraws) initialBasePrice
  /\ getHistory "BTC/USD" (priceHistory st) = [Fin (190095 # 2)]
  /\ exists md,
       Map_get "BTC/USD" (lastMarketData (manager st)) = Some md
       /\ price md = Fin (190095 # 2)
       /\ volatilityMetrics md = None
       /\ patternAnalysis md = None.
Proof.
  destruct (market_tick_settles (fun x => x) abs promptOracle noFormat
              sampleStringify risingDraws (initialFeed 0)
              initial_symbols_NoDup) as [Hbase Hsettled].
  apply Forall_cons in Hsettled as [Hbtc _].
  destruct Hbtc as (Hh & _ & md & Hget & _ & Hprice & Hvol & Hpat & _).
  cbv zeta. split; [exact Hbase|]. split; [exact Hh|].
  exists md. split; [exact Hget|]. split; [exact Hprice|].
  split; [|exact Hpat]. rewrite Hvol, Hh. reflexivity.
Defined.

Lemma market_tick_random_walk_witness :
  Forall2
    (fun old new : string * num =>
       new.1 = old.1 /\ withinTenthPercent old.2 new.2
       /\ positivePrice new.2)
    initialBasePrice
    (basePrice (marketTick (fun x => x) abs promptOracle noFormat
                  sampleStringify steadyDraws (initialFeed 0))).
Proof.
  exact (market_tick_random_walk (fun x => x) abs promptOracle noFormat
           sampleStringify steadyDraws (initialFeed 0)
           initial_symbols_NoDup initial_prices_positive
           steadyDraws_random).
Defined.

(** Thirty firings: thirty prices in the history of BTC, and volatility
    metrics in its snapshot. *)
Lemma analytics_from_thirtieth_firing_witness :
  exists md,
    Map_get "BTC/USD"
      (lastMarketData
         (manager
            (marketTicks (fun x => x) abs promptOracle noFormat
               sampleStringify (replicate 30 risingDraws) (initialFeed 0))))
    = Some md
    /\ length
         (getHistory "BTC/USD"
            (priceHistory
               (marketTicks (fun x => x) abs promptOracle noFormat
                  sampleStringify (replicate 30 risingDraws)
                  (initialFeed 0)))) = 30
    /\ is_Some (volatilityMetrics md)
    /\ patternAnalysis md = None.
Proof.
  destruct (analytics_from_thirtieth_firing (fun x => x) abs promptOracle
              noFormat sampleStringify 0 (replicate 30 risingDraws)
              "BTC/USD")
    as (md & Hget & Hlen & _ & Hvol & Hpat).
  - discriminate.
  - by_evaluation.
  - exists md. split; [exact Hget|]. split; [exact Hlen|].
    split; [|exact Hpat]. apply Hvol. cbn. lia.
Defined.

End FeedFacts.

(** ** More on subscribers *)

Module HubMore.

Import TechnicalAnalysis AIAnalysis Hub Subscribers HubFacts.

Section Facts.

Variable JSON_stringify : MarketData -> string.

Lemma run_snoc events e :
  run JSON_stringify (events ++ [e])
  = step JSON_stringify (run JSON_stringify events) e.
Proof. unfold run. by rewrite fold_left_app. Qed.

Lemma Set_add_elem r r' s : r ∈ Set_add r' s <-> r = r' \/ r ∈ s.
Proof.
  unfold Set_add. destruct (decide (r' ∈ s)) as [Hin|Hnin].
  - split; [tauto|]. by intros [->|?].
  - rewrite elem_of_app, list_elem_of_singleton. tauto.
Qed.

(** A connection under another reference leaves a client and its socket
    alone. *)
Lemma onConnection_other r r' ws st :
  r' <> r ->
  sockets (onConnection JSON_stringify r' ws st) !! r = sockets st !! r
  /\ (r ∈ clients (onConnection JSON_stringify r' ws st) <-> r ∈ clients st).
Proof.
  intros Hne. unfold onConnection.
  set (st1 := withSocket r' ws (withClients (Set_add r' (clients st)) st)).
  destruct (sendInitial_fold JSON_stringify r' (lastMarketData st1) st1 ws)
    as (Hc & _ & Ho & _).
  { cbn. apply lookup_insert_eq. }
  split.
  - rewrite Ho by done. cbn. by rewrite lookup_insert_ne.
  - rewrite Hc. cbn. rewrite Set_add_elem. split; [|tauto].
    intros [->|?]; done.
Qed.

(** What a publication does to a client whose socket is open and accepts
    the payload, and to a reference that is not a client. *)
Lemma publish_client st md r ws :
  NoDup (clients st) -> r ∈ clients st -> sockets st !! r = Some ws ->
  readyState ws = OPEN -> sendThrows ws (JSON_stringify md) = false ->
  r ∈ clients (publish JSON_stringify st md)
  /\ sockets (publish JSON_stringify st md) !! r
     = Some (afterSend ws (JSON_stringify md)).
Proof.
  intros Hnd Hin Hws Hopen Hok. unfold publish, broadcast. cbn [clients].
  match goal with
  | |- context [fold_left _ _ ?s] =>
      destruct (broadcast_fold (JSON_stringify md) (clients st) s Hnd)
        as [Hc Hs]
  end.
  split.
  - apply Hc. cbn [clients sockets]. split; [done|]. intros [_ Ht].
    unfold throwsOpen in Ht. rewrite Hws, Hok in Ht.
    by rewrite andb_false_r in Ht.
  - rewrite Hs. cbn [sockets]. rewrite decide_True by done.
    rewrite Hws. cbn. unfold deliver. rewrite decide_True by done.
    by rewrite Hok.
Qed.

Lemma publish_stranger st md r :
  NoDup (clients st) -> r ∉ clients st ->
  (r ∉ clients (publish JSON_stringify st md))
  /\ sockets (publish JSON_stringify st md) !! r = sockets st !! r.
Proof.
  intros Hnd Hnin. unfold publish, broadcast. cbn [clients].
  match goal with
  | |- context [fold_left _ _ ?s] =>
      destruct (broadcast_fold (JSON_stringify md) (clients st) s Hnd)
        as [Hc Hs]
  end.
  split.
  - rewrite Hc. cbn [clients]. tauto.
  - rewrite Hs. cbn [sockets]. by rewrite decide_False.
Qed.

Lemma filter_all {A} (P : A -> Prop) `{!forall x, Decision (P x)} (l : list A) :
  (forall x, P x) -> filter P l = l.
Proof.
  intros HP. induction l as [|x l IH]; [done|].
  rewrite filter_cons_True by done. by rewrite IH.
Qed.

(** X11.  Once a client's socket has closed (or errored), nothing is sent
    to it any more: whatever is published and whoever else connects or
    leaves, the reference is not among the clients and its socket is as it
    was, until a connection is made under that reference again. *)
Theorem closed_client_receives_nothing (before after : list Event) (r : nat) :
  Forall (fun e => ~ reconnects r e) after ->
  (r ∉ clients (run JSON_stringify (before ++ Close r :: after)))
  /\ sockets (run JSON_stringify (before ++ Close r :: after)) !! r
     = sockets (run JSON_stringify before) !! r.
Proof.
  induction after as [|e after IH] using rev_ind; intros Hafter.
  - rewrite run_snoc. cbn [step onClose withClients clients sockets].
    split; [|done]. rewrite Set_delete_elem. tauto.
  - apply Forall_app in Hafter as [Hafter He].
    rewrite Forall_singleton in He.
    destruct (IH Hafter) as [Hnin Hsock].
    replace (before ++ Close r :: after ++ [e])
      with ((before ++ Close r :: after) ++ [e])
      by (rewrite <- app_assoc; reflexivity).
    rewrite run_snoc.
    set (st := run JSON_stringify (before ++ Close r :: after)) in *.
    destruct e as [md|r' ws|r']; cbn [step].
    + destruct (publish_stranger st md r) as [H1 H2]; [|done|].
      * apply run_clients_NoDup.
      * split; [done|]. by rewrite H2.
    + assert (Hne : r' <> r) by (intros ->; by apply He).
      destruct (onConnection_other r r' ws st Hne) as [H1 H2].
      split; [by rewrite H2|]. by rewrite H1.
    + cbn [onClose withClients clients sockets]. split; [|done].
      rewrite Set_delete_elem. tauto.
Qed.

Lemma onConnection_socket r ws st :
  r ∈ clients (onConnection JSON_stringify r ws st)
  /\ exists ws',
       sockets (onConnection JSON_stringify r ws st) !! r = Some ws'
       /\ readyState ws' = readyState ws
       /\ sendThrows ws' = sendThrows ws
       /\ sent ws'
          = sent ws
            ++ filter (fun m => sendThrows ws m = false)
                 (map JSON_stringify (lastMarketData st).*2).
Proof.
  unfold onConnection.
  set (st1 := withSocket r ws (withClients (Set_add r (clients st)) st)).
  destruct (sendInitial_fold JSON_stringify r (lastMarketData st1) st1 ws)
    as (Hc & _ & _ & ws' & Hs & Hr & Ht & Hsent).
  { cbn. apply lookup_insert_eq. }
  split.
  - rewrite Hc. cbn. apply Set_add_elem. by left.
  - exists ws'. done.
Qed.

Lemma subscriber_state (before after : list Event) (r : nat) (ws : WebSocket) :
  readyState ws = OPEN ->
  (forall data, sendThrows ws data = false) ->
  Forall (foreignTo r) after ->
  r ∈ clients (run JSON_stringify (before ++ Connect r ws :: after))
  /\ exists ws',
       sockets (run JSON_stringify (before ++ Connect r ws :: after)) !! r
       = Some ws'
       /\ readyState ws' = OPEN
       /\ sendThrows ws' = sendThrows ws
       /\ sent ws'
          = sent ws
            ++ map JSON_stringify
                 (lastMarketData (run JSON_stringify before)).*2
            ++ map JSON_stringify (published after).
Proof.
  intros Hopen Hok.
  induction after as [|e after IH] using rev_ind; intros Hafter.
  - rewrite run_snoc. cbn [step published omap].
    destruct (onConnection_socket r ws (run JSON_stringify before))
      as (Hin & ws' & Hs & Hr & Ht & Hsent).
    split; [done|]. exists ws'. split; [done|].
    split; [by rewrite Hr|]. split; [done|].
    rewrite Hsent, app_nil_r. f_equal.
    apply filter_all. intros m. apply Hok.
  - apply Forall_app in Hafter as [Hafter He].
    rewrite Forall_singleton in He.
    destruct (IH Hafter) as (Hin & ws' & Hs & Hr & Ht & Hsent).
    replace (before ++ Connect r ws :: after ++ [e])
      with ((before ++ Connect r ws :: after) ++ [e])
      by (rewrite <- app_assoc; reflexivity).
    rewrite run_snoc, published_snoc.
    set (st := run JSON_stringify (before ++ Connect r ws :: after)) in *.
    destruct e as [md|r' ws''|r']; cbn [step foreignTo] in *.
    + assert (Hnd : NoDup (clients st)) by apply run_clients_NoDup.
      destruct (publish_client st md r ws' Hnd Hin Hs Hr) as [H1 H2].
      { rewrite Ht. apply Hok. }
      split; [done|]. exists (afterSend ws' (JSON_stringify md)).
      split; [done|]. cbn [afterSend sent readyState sendThrows].
      split; [done|]. split; [done|]. rewrite Hsent.
      rewrite map_app. cbn [map]. by rewrite <- !app_assoc.
    + destruct (onConnection_other r r' ws'' st He) as [H1 H2].
      split; [by apply H2|]. exists ws'. rewrite H1, app_nil_r. done.
    + cbn [onClose withClients clients sockets]. split.
      * rewrite Set_delete_elem. by split.
      * exists ws'. rewrite app_nil_r. done.
Qed.

(** X12.  A subscriber whose socket is open and accepts every payload
    misses nothing: after its connection, as long as it neither closes nor
    reconnects, its socket has received the catch-up snapshots and then
    every snapshot published since, in order and once each. *)
Theorem healthy_subscriber_receives_all (before after : list Event) (r : nat)
    (ws : WebSocket) :
  readyState ws = OPEN ->
  (forall data, sendThrows ws data = false) ->
  Forall (foreignTo r) after ->
  r ∈ clients (run JSON_stringify (before ++ Connect r ws :: after))
  /\ exists ws',
       sockets (run JSON_stringify (before ++ Connect r ws :: after)) !! r
       = Some ws'
       /\ sent ws'
          = sent ws
            ++ map JSON_stringify
                 (lastMarketData (run JSON_stringify before)).*2
            ++ map JSON_stringify (published after).
Proof.
  intros Hopen Hok Hafter.
  destruct (subscriber_state before after r ws Hopen Hok Hafter)
    as (Hin & ws' & Hs & _ & _ & Hsent).
  split; [done|]. by exists ws'.
Qed.

End Facts.

(** A client connects after a first tick, stays through two more ticks
    and another client's coming and going. *)
Lemma healthy_subscriber_receives_all_witness :
  exists ws',
    sockets
      (run sampleStringify
         ([Publish (btcSnapshotAt (Fin 95000) 1700000000)]
          ++ Connect 7 healthySocket
             :: [Publish (ethSnapshot (Fin 3200) 1700000000);
                 Connect 8 healthySocket;
                 Publish (btcSnapshotAt (Fin 95010) 1700000001);
                 Close 8])) !! 7 = Some ws'
    /\ sent ws'
       = ["BTC/USD@0"%string; "ETH/USD@0"%string; "BTC/USD@1"%string].
Proof.
  destruct (healthy_subscriber_receives_all sampleStringify
              [Publish (btcSnapshotAt (Fin 95000) 1700000000)]
              [Publish (ethSnapshot (Fin 3200) 1700000000);
               Connect 8 healthySocket;
               Publish (btcSnapshotAt (Fin 95010) 1700000001);
               Close 8] 7 healthySocket)
    as (_ & ws' & Hs & Hsent).
  - reflexivity.
  - reflexivity.
  - repeat constructor; discriminate.
  - exists ws'. split; [exact Hs|]. rewrite Hsent. vm_compute. reflexivity.
Defined.

Lemma closed_client_receives_nothing_witness :
  sockets
    (run sampleStringify
       ([Connect 7 healthySocket] ++ Close 7
        :: [Publish (btcSnapshotAt (Fin 95000) 1700000000)])) !! 7
  = Some healthySocket.
Proof.
  destruct (closed_client_receives_nothing sampleStringify
              [Connect 7 healthySocket]
              [Publish (btcSnapshotAt (Fin 95000) 1700000000)] 7)
    as [_ ->].
  - repeat constructor. intros H. exact H.
  - vm_compute. reflexivity.
Defined.

End HubMore.

(** ** The storage layer *)

Module StorageFacts.

Import Hub Storage NumFacts.

Section Facts.

Variable subDays : Z -> Z -> Z.

Lemma historyOf_app userId rows rows' :
  historyOf userId (rows ++ rows')
  = historyOf userId rows ++ historyOf userId rows'.
Proof. unfold historyOf. apply filter_app. Qed.

Lemma seed_fold userId totalValue randoms points db :
  fold_left
    (fun db point =>
       insertHistory userId (seedValue totalValue (randoms point.1))
         point.2 db) points db
  = withHistory
      (portfolioHistory db
       ++ seedRows userId totalValue randoms (nextHistoryId db) points)
      (nextHistoryId db + length points) db.
Proof.
  revert db. induction points as [|p points IH]; intros db.
  - cbn. rewrite app_nil_r, Nat.add_0_r. by destruct db.
  - cbn [fold_left]. rewrite IH. unfold insertHistory, withHistory, seedRows.
    cbn [portfolioHistory nextHistoryId users portfolio trades
         nextPortfolioId nextTradeId imap length].
    rewrite <- app_assoc. cbn [app].
    rewrite Nat.add_0_r. f_equal; [|lia].
    do 2 f_equal. apply imap_ext. intros k x _. cbn. f_equal. lia.
Qed.

Lemma seedRows_owner userId totalValue randoms next points :
  Forall (fun h => phUserId h = userId)
    (seedRows userId totalValue randoms next points).
Proof.
  unfold seedRows. apply Forall_forall. intros h Hh.
  apply elem_of_lookup_imap in Hh as (k & p & -> & _). done.
Qed.

Lemma seedRows_length userId totalValue randoms next points :
  length (seedRows userId totalValue randoms next points) = length points.
Proof. unfold seedRows. apply length_imap. Qed.

(** X13.  [recordPortfolioValue] only appends to the history table and
    touches no other table.  For a user without any history it appends the
    fifteen initial points, each the total scaled by its own draw; for a
    user with history it appends one point: the total itself, dated
    now. *)
Theorem recordPortfolioValue_appends (userId : nat) (totalValue : num)
    (now : Z) (randoms : nat -> num) (db : DB) :
  let db' := recordPortfolioValue subDays userId totalValue now randoms db in
  users db' = users db /\ portfolio db' = portfolio db
  /\ trades db' = trades db
  /\ exists added,
       portfolioHistory db' = portfolioHistory db ++ added
       /\ Forall (fun h => phUserId h = userId) added
       /\ (historyOf userId (portfolioHistory db) = [] ->
           length added = 15
           /\ map phTimestamp added = seedTimestamps subDays now
           /\ map phTotalValue added
              = map (fun i => seedValue totalValue (randoms i)) (seq 0 15))
       /\ (historyOf userId (portfolioHistory db) <> [] ->
           added = [{| phId := nextHistoryId db; phUserId := userId;
                       phTotalValue := totalValue; phTimestamp := now |}]).
Proof.
  cbv zeta. unfold recordPortfolioValue.
  destruct (historyOf userId (portfolioHistory db)) as [|h hs] eqn:E.
  - cbn [take length]. rewrite decide_True by done. rewrite seed_fold.
    cbn [withHistory users portfolio trades portfolioHistory].
    split; [done|]. split; [done|]. split; [done|].
    eexists. split; [reflexivity|].
    split; [apply seedRows_owner|]. split; [|done].
    intros _. split; [reflexivity|]. split; reflexivity.
  - cbn [take length]. rewrite decide_False by done.
    unfold insertHistory.
    cbn [withHistory users portfolio trades portfolioHistory].
    split; [done|]. split; [done|]. split; [done|].
    eexists. split; [reflexivity|].
    split; [by repeat constructor|]. split; [done|]. done.
Qed.

(** X14.  For calls handled one after the other, the initial history is
    created once: whatever the first call for a user did, the next call
    for that user appends exactly one point, carrying the value it was
    given.  (A call reads the history and then inserts; two calls for a
    user that both read before either inserts both create the initial
    points.) *)
Theorem seeding_never_recurs (userId : nat) (v1 v2 : num) (now1 now2 : Z)
    (r1 r2 : nat -> num) (db : DB) :
  let db1 := recordPortfolioValue subDays userId v1 now1 r1 db in
  let db2 := recordPortfolioValue subDays userId v2 now2 r2 db1 in
  historyOf userId (portfolioHistory db1) <> []
  /\ portfolioHistory db2
     = portfolioHistory db1
       ++ [{| phId := nextHistoryId db1; phUserId := userId;
              phTotalValue := v2; phTimestamp := now2 |}].
Proof.
  cbv zeta.
  assert (Hne : historyOf userId
                  (portfolioHistory
                     (recordPortfolioValue subDays userId v1 now1 r1 db))
                <> []).
  { unfold recordPortfolioValue.
    destruct (historyOf userId (portfolioHistory db)) as [|h hs] eqn:E.
    - cbn [take length]. rewrite decide_True by done. rewrite seed_fold.
      cbn [withHistory portfolioHistory]. rewrite historyOf_app, E.
      cbn [app seedTimestamps imap seedRows]. unfold historyOf.
      rewrite filter_cons_True by done. done.
    - cbn [take length]. rewrite decide_False by done.
      unfold insertHistory. cbn [withHistory portfolioHistory].
      rewrite historyOf_app, E. done. }
  split; [exact Hne|].
  unfold recordPortfolioValue at 1.
  destruct (historyOf userId (portfolioHistory _)) as [|h hs]; [done|].
  cbn [take length]. rewrite decide_False by done. reflexivity.
Qed.

Lemma seedValue_within total random :
  (match total with Fin t => (0 <= t)%Q | _ => False end) ->
  Feed.isRandom random ->
  withinOnePercent total (seedValue total random).
Proof.
  destruct total as [t| | |]; try done.
  destruct random as [r| | |]; try done.
  cbn [Feed.isRandom]. intros Ht [Hr0 Hr1].
  unfold seedValue, n0_5, sub, neg, add, mul. cbn [withinOnePercent].
  rewrite !Qred_correct.
  assert (H1 : (0 <= t * r)%Q) by (apply Qmult_le_0_compat; lra).
  assert (H2 : (t * r <= t)%Q).
  { assert (H : (r * t <= 1 * t)%Q) by (apply Qmult_le_compat_r; lra).
    rewrite Qmult_1_l in H. by rewrite Qmult_comm. }
  set (tr := (t * r)%Q) in *.
  assert (E : (t * (1 + (r + - (1 # 2)) * (2 # 100))
               == t * (99 # 100) + tr * (2 # 100))%Q)
    by (unfold tr; ring).
  rewrite E. split; lra.
Qed.

(** X15.  Every point a call of [recordPortfolioValue] appends is within
    1% of the total it was given, for a finite total that is not negative
    and draws in [0, 1): the initial history deviates by at most 1%, a
    later point not at all. *)
Theorem recorded_points_within_one_percent (userId : nat) (totalValue : num)
    (now : Z) (randoms : nat -> num) (db : DB) :
  (match totalValue with Fin t => (0 <= t)%Q | _ => False end) ->
  (forall i, Feed.isRandom (randoms i)) ->
  exists added,
    portfolioHistory
      (recordPortfolioValue subDays userId totalValue now randoms db)
    = portfolioHistory db ++ added
    /\ Forall (fun h => withinOnePercent totalValue (phTotalValue h)) added.
Proof.
  intros Htotal Hrandoms. unfold recordPortfolioValue.
  destruct (decide (length (take 1 (historyOf userId (portfolioHistory db)))
                    = 0)) as [_|_].
  - rewrite seed_fold. cbn [withHistory portfolioHistory].
    eexists. split; [reflexivity|].
    unfold seedRows. apply Forall_forall. intros h Hh.
    apply elem_of_lookup_imap in Hh as (k & p & -> & _).
    cbn [phTotalValue]. by apply seedValue_within.
  - unfold insertHistory. cbn [withHistory portfolioHistory].
    eexists. split; [reflexivity|]. apply Forall_singleton.
    cbn [phTotalValue]. destruct totalValue as [t| | |]; try done.
    cbn [withinOnePercent]. split; lra.
Qed.

End Facts.

(** *** A concrete database *)

Lemma recordPortfolioValue_appends_witness :
  length (portfolioHistory
            (recordPortfolioValue utcSubDays 1 (Fin 47500) 1700000000000
               (fun _ => n0_5) emptyDB)) = 15
  /\ last (portfolioHistory
             (recordPortfolioValue utcSubDays 1 (Fin 47500) 1700000000000
                (fun _ => n0_5) emptyDB))
     = Some {| phId := 14; phUserId := 1; phTotalValue := Fin 47500;
               phTimestamp := 1700000000000 |}.
Proof.
  destruct (recordPortfolioValue_appends utcSubDays 1 (Fin 47500)
              1700000000000 (fun _ => n0_5) emptyDB)
    as (_ & _ & _ & added & Hadded & _ & Hseed & _).
  destruct (Hseed eq_refl) as (Hlen & _ & _).
  split; [by rewrite Hadded, length_app, Hlen|].
  vm_compute. reflexivity.
Defined.

Lemma recorded_points_within_one_percent_witness :
  exists added,
    portfolioHistory
      (recordPortfolioValue utcSubDays 1 (Fin 47500) 1700000000000
         (fun _ => Fin (3 # 4)) emptyDB)
    = added
    /\ Forall (fun h => withinOnePercent (Fin 47500) (phTotalValue h)) added.
Proof.
  destruct (recorded_points_within_one_percent utcSubDays 1 (Fin 47500)
              1700000000000 (fun _ => Fin (3 # 4)) emptyDB)
    as (added & Hadded & Hwithin).
  - discriminate.
  - intros _. split; [discriminate|reflexivity].
  - exists added. split; [exact Hadded|exact Hwithin].
Defined.

End StorageFacts.

(** ** The tracker and what it records *)

Module TrackerFacts.

Import TechnicalAnalysis AIAnalysis Hub Storage Tracker NumFacts.

Section Facts.

Variable subDays : Z -> Z -> Z.

(** The value the tracker computes for user 1: the sum, over the rows of
    user 1, of quantity times current price, a symbol without snapshot
    counting for 0. *)
Lemma tracker_total lmd db :
  holdingsOf 1 db <> [] ->
  Forall (fun p => isFinite (amount p) = true) (holdingsOf 1 db) ->
  Forall (fun e => isFinite (price e.2) = true) lmd ->
  updatePortfolioValue (portfolio db) lmd
  = Some (1, specTotalValue (holdingsOf 1 db) (priceMap lmd)).
Proof.
  intros Hne Hfin Hprices. unfold updatePortfolioValue.
  change (getUserPortfolio (portfolio db) 1) with (holdingsOf 1 db).
  destruct (decide (0 < length (holdingsOf 1 db))) as [_|Hn].
  - do 2 f_equal. unfold totalValue.
    rewrite (PortfolioFacts.fold_left_map add (codeTerm lmd)).
    unfold specTotalValue. by apply PortfolioFacts.totals_agree.
  - destruct (holdingsOf 1 db); [done|]. cbn [length] in Hn. lia.
Qed.

(** C7, amended.  The tracker values user 1.  Whenever user 1 holds
    something (finite quantities, finite prices), a firing computes the
    sum over the rows of user 1 of quantity times the current price of the
    row's symbol, a symbol without snapshot counting for 0, and records
    it for user 1: as one point dated now when user 1 has history already,
    and otherwise as the fifteen initial points, each the sum scaled by
    [1 + (draw - 0.5) * 0.02].  The rows of other users do not enter the
    sum.  (The positions and the history are those the firing reads.) *)
Theorem tracker_records_sum_for_user_one (lmd : list (string * MarketData))
    (now : Z) (randoms : nat -> num) (db : DB) :
  holdingsOf 1 db <> [] ->
  Forall (fun p => isFinite (amount p) = true) (holdingsOf 1 db) ->
  Forall (fun e => isFinite (price e.2) = true) lmd ->
  let total := specTotalValue (holdingsOf 1 db) (priceMap lmd) in
  exists added,
    portfolioHistory (portfolioTick subDays lmd now randoms db)
    = portfolioHistory db ++ added
    /\ Forall (fun h => phUserId h = 1) added
    /\ (historyOf 1 (portfolioHistory db) <> [] ->
        added = [{| phId := nextHistoryId db; phUserId := 1;
                    phTotalValue := total; phTimestamp := now |}])
    /\ (historyOf 1 (portfolioHistory db) = [] ->
        map phTimestamp added = seedTimestamps subDays now
        /\ map phTotalValue added
           = map (fun i => seedValue total (randoms i)) (seq 0 15)).
Proof.
  intros Hne Hfin Hprices. cbv zeta. unfold portfolioTick.
  rewrite tracker_total by done. unfold recordPortfolioValue.
  destruct (historyOf 1 (portfolioHistory db)) as [|h hs] eqn:E.
  - cbn [take length]. rewrite decide_True by done.
    rewrite StorageFacts.seed_fold. cbn [withHistory portfolioHistory].
    eexists. split; [reflexivity|].
    split; [apply StorageFacts.seedRows_owner|].
    split; [done|]. intros _. split; reflexivity.
  - cbn [take length]. rewrite decide_False by done.
    unfold insertHistory. cbn [withHistory portfolioHistory].
    eexists. split; [reflexivity|].
    split; [by repeat constructor|]. split; [done|]. done.
Qed.

Lemma historyOf_other user rows added :
  Forall (fun h => phUserId h <> user) added ->
  historyOf user (rows ++ added) = historyOf user rows.
Proof.
  intros Hother. rewrite StorageFacts.historyOf_app.
  replace (historyOf user added) with (@nil PortfolioHistory);
    [by rewrite app_nil_r|].
  symmetry. unfold historyOf. induction Hother as [|h added Hh _ IH]; [done|].
  by rewrite filter_cons_False.
Qed.

(** X16.  The tracker follows user 1 and nobody else.  As long as user 1
    holds nothing a firing writes nothing, whatever other users hold; and
    a firing never touches the users, the positions, the trades or the
    history of any user other than 1. *)
Theorem tracker_follows_user_one_only (lmd : list (string * MarketData))
    (now : Z) (randoms : nat -> num) (db : DB) :
  let db' := portfolioTick subDays lmd now randoms db in
  (holdingsOf 1 db = [] -> db' = db)
  /\ users db' = users db
  /\ portfolio db' = portfolio db
  /\ trades db' = trades db
  /\ forall user, user <> 1 ->
       historyOf user (portfolioHistory db')
       = historyOf user (portfolioHistory db).
Proof.
  cbv zeta. unfold portfolioTick, updatePortfolioValue.
  change (getUserPortfolio (portfolio db) 1) with (holdingsOf 1 db).
  split.
  - intros ->. done.
  - destruct (decide (0 < length (holdingsOf 1 db))) as [_|_]; [|done].
    unfold recordPortfolioValue.
    destruct (decide (length (take 1 (historyOf 1 (portfolioHistory db))) = 0)).
    + rewrite StorageFacts.seed_fold.
      cbn [withHistory users portfolio trades portfolioHistory].
      split; [done|]. split; [done|]. split; [done|].
      intros user Hu. apply historyOf_other.
      eapply Forall_impl; [apply StorageFacts.seedRows_owner|].
      cbn. intros h ->. done.
    + unfold insertHistory.
      cbn [withHistory users portfolio trades portfolioHistory].
      split; [done|]. split; [done|]. split; [done|].
      intros user Hu. apply historyOf_other.
      apply Forall_singleton. cbn. done.
Qed.

End Facts.

(** *** A table with two users *)

(** The first firing for user 1 (0.5 BTC at 95000, 1000 DOGE without a
    snapshot; user 2 holds 3 BTC) with draws of 3/4 writes fifteen points
    of 47737.5, which is 47500 scaled by 1.005; the next firing writes one
    point of exactly 47500. *)
Lemma tracker_records_sum_for_user_one_witness :
  let lmd := [("BTC"%string, btcSnapshot)] in
  let draws := fun _ : nat => Fin (3 # 4) in
  let db1 := portfolioTick utcSubDays lmd 1700000000000 draws mixedDB in
  let db2 := portfolioTick utcSubDays lmd 1700000001000 draws db1 in
  map phTotalValue (portfolioHistory db1) = replicate 15 (Fin (95475 # 2))
  /\ portfolioHistory db2
     = portfolioHistory db1
       ++ [{| phId := 15; phUserId := 1; phTotalValue := Fin 47500;
              phTimestamp := 1700000001000 |}].
Proof.
  cbv zeta. split.
  - destruct (tracker_records_sum_for_user_one utcSubDays
                [("BTC"%string, btcSnapshot)] 1700000000000
                (fun _ => Fin (3 # 4)) mixedDB)
      as (added & Hadded & _ & _ & Hseed).
    + discriminate.
    + repeat constructor.
    + repeat constructor.
    + destruct (Hseed eq_refl) as [_ Hvalues].
      rewrite Hadded. cbn [portfolioHistory mixedDB withPortfolio emptyDB app].
      rewrite Hvalues. vm_compute. reflexivity.
  - destruct (tracker_records_sum_for_user_one utcSubDays
                [("BTC"%string, btcSnapshot)] 1700000001000
                (fun _ => Fin (3 # 4))
                (portfolioTick utcSubDays [("BTC"%string, btcSnapshot)]
                   1700000000000 (fun _ => Fin (3 # 4)) mixedDB))
      as (added & Hadded & _ & Hone & _).
    + discriminate.
    + repeat constructor.
    + repeat constructor.
    + rewrite Hadded, Hone; [|discriminate]. vm_compute. reflexivity.
Defined.

(** C7, refuted as stated.  User 2 holds 0.5 BTC and BTC stands at 95000:
    a firing writes nothing, and user 2 has no history point at all. *)
Lemma other_users_are_not_valued :
  portfolioTick utcSubDays [("BTC"%string, btcSnapshot)] 1700000000000
    (fun _ => n0_5) strangerDB = strangerDB
  /\ ~ recordedForEveryUser utcSubDays.
Proof.
  split; [reflexivity|]. intros Hclaim.
  destruct (Hclaim 2 [("BTC"%string, btcSnapshot)] 1700000000000%Z
              (fun _ => n0_5) strangerDB) as (h & Hlast & _).
  - discriminate.
  - repeat constructor.
  - repeat constructor.
  - vm_compute in Hlast. discriminate Hlast.
Qed.

(** With only user 2 holding something, a firing leaves the database as
    it is. *)
Lemma tracker_follows_user_one_only_witness :
  portfolioTick utcSubDays [("BTC"%string, btcSnapshot)] 1700000000000
    (fun _ => n0_5) strangerDB = strangerDB.
Proof.
  apply (tracker_follows_user_one_only utcSubDays
           [("BTC"%string, btcSnapshot)] 1700000000000 (fun _ => n0_5)
           strangerDB).
  reflexivity.
Defined.

End TrackerFacts.

(** ** Positions *)

Module PositionFacts.

Import Hub Storage NumFacts.

Lemma NoDup_map_filter {A B} (g : A -> B) (Q : A -> Prop)
    `{!forall x, Decision (Q x)} (l : list A) :
  NoDup (map g l) -> NoDup (map g (filter Q l)).
Proof.
  induction l as [|x l IH]; [done|]. cbn [map]. intros Hnd.
  apply NoDup_cons in Hnd as [Hx Hnd].
  destruct (decide (Q x)) as [HQ|HQ].
  - rewrite filter_cons_True by done. cbn [map]. apply NoDup_cons.
    split; [|by apply IH].
    intros Hin. apply Hx. apply list_elem_of_fmap in Hin as (y & -> & Hy).
    apply list_elem_of_filter in Hy as [_ Hy].
    apply list_elem_of_fmap. by exists y.
  - rewrite filter_cons_False by done. by apply IH.
Qed.

(** Elements of a list are told apart by a function that is injective on
    the list. *)
Lemma NoDup_map_inj {A B} (g : A -> B) (l : list A) x y :
  NoDup (map g l) -> x ∈ l -> y ∈ l -> g x = g y -> x = y.
Proof.
  induction l as [|z l IH]; [by intros _ ?%elem_of_nil|].
  cbn [map]. intros Hnd Hx Hy Hg.
  apply NoDup_cons in Hnd as [Hz Hnd].
  apply elem_of_cons in Hx as [->|Hx]; apply elem_of_cons in Hy as [->|Hy].
  - done.
  - exfalso. apply Hz. rewrite Hg. apply list_elem_of_fmap. by exists y.
  - exfalso. apply Hz. rewrite <- Hg. apply list_elem_of_fmap. by exists x.
  - by apply IH.
Qed.

Lemma filter_filter_implied {A} (P Q : A -> Prop)
    `{!forall x, Decision (P x)} `{!forall x, Decision (Q x)} (l : list A) :
  (forall x, x ∈ l -> P x -> Q x) -> filter P (filter Q l) = filter P l.
Proof.
  induction l as [|x l IH]; intros Himp; [done|].
  assert (IH' : filter P (filter Q l) = filter P l).
  { apply IH. intros y Hy. apply Himp. by apply list_elem_of_further. }
  destruct (decide (Q x)) as [HQ|HQ].
  - rewrite (filter_cons_True Q) by done.
    destruct (decide (P x)) as [HP|HP].
    + rewrite !(filter_cons_True P) by done. by rewrite IH'.
    + rewrite !(filter_cons_False P) by done. done.
  - rewrite (filter_cons_False Q) by done.
    rewrite (filter_cons_False P); [done|].
    intros HP. apply HQ. apply Himp; [apply list_elem_of_here|done].
Qed.

Lemma filter_map_stable {A} (P : A -> Prop) `{!forall x, Decision (P x)}
    (f : A -> A) (l : list A) :
  (forall x, x ∈ l -> (P (f x) <-> P x)) ->
  filter P (map f l) = map f (filter P l).
Proof.
  induction l as [|x l IH]; intros Himp; [done|].
  assert (IH' : filter P (map f l) = map f (filter P l)).
  { apply IH. intros y Hy. apply Himp. by apply list_elem_of_further. }
  cbn [map]. destruct (decide (P x)) as [HP|HP].
  - rewrite !filter_cons_True; [|done|].
    + cbn [map]. by rewrite IH'.
    + apply Himp; [apply list_elem_of_here|done].
  - rewrite !filter_cons_False; [done|done|].
    intros HP'. apply HP. apply Himp; [apply list_elem_of_here|done].
Qed.

Lemma map_id_on {A} (f : A -> A) (l : list A) :
  (forall x, x ∈ l -> f x = x) -> map f l = l.
Proof.
  induction l as [|x l IH]; intros H; [done|]. cbn [map].
  rewrite H by apply list_elem_of_here. f_equal. apply IH.
  intros y Hy. apply H. by apply list_elem_of_further.
Qed.

(** With one position per key, the rows under a key are the position
    itself. *)
Lemma filter_key_unique (rows : list Portfolio) (e : Portfolio) :
  NoDup (map keyOf rows) -> e ∈ rows ->
  filter (fun p => userId p = userId e /\ positionSymbol p = positionSymbol e)
    rows = [e].
Proof.
  induction rows as [|x rows IH]; [by intros _ ?%elem_of_nil|].
  cbn [map]. intros Hnd He. apply NoDup_cons in Hnd as [Hx Hnd].
  apply elem_of_cons in He as [->|He].
  - rewrite filter_cons_True by done. f_equal.
    destruct (filter _ rows) as [|y ys] eqn:E; [done|].
    exfalso. apply Hx.
    assert (Hy : y ∈ filter
       (fun p => userId p = userId x /\ positionSymbol p = positionSymbol x)
       rows) by (rewrite E; apply list_elem_of_here).
    apply list_elem_of_filter in Hy as [[H1 H2] Hy].
    apply list_elem_of_fmap. exists y. split; [|done].
    unfold keyOf. by rewrite H1, H2.
  - rewrite filter_cons_False; [by apply IH|].
    intros [H1 H2]. apply Hx. apply list_elem_of_fmap. exists e.
    split; [|done]. unfold keyOf. by rewrite H1, H2.
Qed.

Lemma filter_none {A} (P : A -> Prop) `{!forall x, Decision (P x)}
    (l : list A) :
  (forall x, x ∈ l -> ~ P x) -> filter P l = [].
Proof.
  induction l as [|x l IH]; intros Hno; [done|].
  rewrite filter_cons_False by (apply Hno; apply list_elem_of_here).
  apply IH. intros y Hy. apply Hno. by apply list_elem_of_further.
Qed.

(** The rows of the key a trade is about, before the trade. *)
Lemma findPosition_cases u s (rows : list Portfolio) :
  NoDup (map keyOf rows) ->
  (findPosition u s rows = []
   /\ filter (fun p => userId p = u /\ positionSymbol p = s) rows = [])
  \/ exists e,
       findPosition u s rows = [e]
       /\ filter (fun p => userId p = u /\ positionSymbol p = s) rows = [e]
       /\ e ∈ rows /\ userId e = u /\ positionSymbol e = s.
Proof.
  intros Hnd. unfold findPosition.
  destruct (filter _ rows) as [|e F] eqn:E; [by left|]. right.
  assert (He : e ∈ filter (fun p => userId p = u /\ positionSymbol p = s) rows)
    by (rewrite E; apply list_elem_of_here).
  apply list_elem_of_filter in He as [[Hu Hs] He].
  pose proof (filter_key_unique rows e Hnd He) as Hone.
  rewrite Hu, Hs, E in Hone. injection Hone as ->.
  exists e. done.
Qed.

(** What a trade makes of the position it is about. *)
Lemma position_after (u : nat) (s ty : string) (a p : num) (db : DB) :
  wellKeyed db ->
  positionOf u s (updatePortfolio u s ty a p db)
  = match positionOf u s db with
    | None =>
        if decide (ty = "buy"%string)
        then Some {| id := nextPortfolioId db; userId := u;
                     positionSymbol := s; amount := a; averagePrice := p |}
        else None
    | Some e =>
        if lt (abs (amount e + signedAmount ty a)) dust then None
        else Some (tradedPosition e ty a p)
    end.
Proof.
  intros (Hids & Hbound & Hkeys).
  unfold positionOf, updatePortfolio.
  destruct (findPosition_cases u s (portfolio db) Hkeys)
    as [[Hfind Hfilter]|(e & Hfind & Hfilter & He & Hu & Hs)];
    rewrite Hfind; cbn [head].
  - destruct (decide (ty = "buy"%string)); [|by rewrite Hfind].
    unfold findPosition. cbn [withPortfolio portfolio].
    rewrite filter_app, Hfilter. by rewrite filter_cons_True.
  - fold (signedAmount ty a).
    destruct (lt (abs (amount e + signedAmount ty a)) dust).
    + unfold findPosition. cbn [withPortfolio portfolio].
      rewrite filter_none; [done|].
      intros x Hx Hm. apply list_elem_of_filter in Hx as [Hid Hx].
      assert (x ∈ [e]) as ->%list_elem_of_singleton; [|done].
      rewrite <- Hfilter. by apply list_elem_of_filter.
    + unfold findPosition. cbn [withPortfolio portfolio].
      rewrite filter_map_stable.
      * rewrite Hfilter. cbn [map take head].
        rewrite decide_True by done. reflexivity.
      * intros x _. by destruct (decide (id x = id e)).
Qed.

(** X17.  What a trade does to the position it is about, in a table with
    one position per user and symbol.  Without a position, a buy opens one
    with the traded amount at the traded price and a sell does nothing.
    With a position, the signed amount is added; a total below 1e-8 in
    absolute value removes the position, otherwise a buy re-averages the
    price by value and a sell keeps the average price.  A sell is never
    refused: the amount may turn negative. *)
Theorem updatePortfolio_position (u : nat) (s ty : string) (a p : num)
    (db : DB) :
  wellKeyed db ->
  positionOf u s (updatePortfolio u s ty a p db)
  = match positionOf u s db with
    | None =>
        if decide (ty = "buy"%string)
        then Some {| id := nextPortfolioId db; userId := u;
                     positionSymbol := s; amount := a; averagePrice := p |}
        else None
    | Some e =>
        if lt (abs (amount e + signedAmount ty a)) dust then None
        else Some (tradedPosition e ty a p)
    end.
Proof. apply position_after. Qed.

(** X18.  A trade leaves every other position alone: the position of
    another user, or of the same user in another symbol, is the same
    before and after (ids being distinct). *)
Theorem updatePortfolio_others (u u' : nat) (s s' ty : string) (a p : num)
    (db : DB) :
  NoDup (map id (portfolio db)) ->
  (u', s') <> (u, s) ->
  positionOf u' s' (updatePortfolio u s ty a p db) = positionOf u' s' db.
Proof.
  intros Hids Hne. unfold positionOf, updatePortfolio.
  destruct (findPosition u s (portfolio db)) as [|e F] eqn:Hfind.
  - destruct (decide (ty = "buy"%string)); [|done].
    unfold findPosition. cbn [withPortfolio portfolio].
    rewrite filter_app, filter_cons_False, filter_nil, app_nil_r; [done|].
    cbn. intros [-> ->]. done.
  - assert (He : e ∈ findPosition u s (portfolio db))
      by (rewrite Hfind; apply list_elem_of_here).
    unfold findPosition in He. apply elem_of_take in He as (i & He & _).
    apply list_elem_of_lookup_2 in He.
    apply list_elem_of_filter in He as [[Hu Hs] He].
    assert (Hother : forall x, x ∈ portfolio db ->
              userId x = u' /\ positionSymbol x = s' -> id x <> id e).
    { intros x Hx [Hxu Hxs] Hid.
      assert (x = e) as -> by (by apply (NoDup_map_inj id (portfolio db))).
      apply Hne. congruence. }
    destruct (lt (abs _) dust).
    + unfold findPosition. cbn [withPortfolio portfolio].
      by rewrite filter_filter_implied.
    + unfold findPosition. cbn [withPortfolio portfolio].
      rewrite filter_map_stable.
      * rewrite map_id_on; [done|]. intros x Hx.
        apply list_elem_of_filter in Hx as [Hm Hx].
        rewrite decide_False; [done|]. by apply Hother.
      * intros x _. by destruct (decide (id x = id e)).
Qed.

Lemma map_map_same {A B} (g : A -> B) (f : A -> A) (l : list A) :
  (forall x, g (f x) = g x) -> map g (map f l) = map g l.
Proof.
  intros Hg. rewrite map_map. apply map_ext. intros x. apply Hg.
Qed.

(** One position per key survives a trade. *)
Lemma keys_kept (u : nat) (s ty : string) (a p : num) (db : DB) :
  wellKeyed db -> wellKeyed (updatePortfolio u s ty a p db).
Proof.
  intros (Hids & Hbound & Hkeys). unfold updatePortfolio.
  destruct (findPosition_cases u s (portfolio db) Hkeys)
    as [[Hfind Hfilter]|(e & Hfind & Hfilter & He & Hu & Hs)];
    rewrite Hfind.
  - destruct (decide (ty = "buy"%string)); [|done].
    unfold wellKeyed. cbn [withPortfolio portfolio nextPortfolioId].
    rewrite !map_app. cbn [map].
    split_and!.
    + apply NoDup_app. split_and!; [done| |apply NoDup_singleton].
      intros x Hx ->%list_elem_of_singleton.
      apply list_elem_of_fmap in Hx as (y & Hy & Hin).
      rewrite Forall_forall in Hbound. specialize (Hbound y Hin).
      cbn in Hy. lia.
    + apply Forall_app. split.
      * eapply Forall_impl; [exact Hbound|]. cbn. intros; lia.
      * apply Forall_singleton. cbn. lia.
    + apply NoDup_app. split_and!; [done| |apply NoDup_singleton].
      intros x Hx ->%list_elem_of_singleton.
      apply list_elem_of_fmap in Hx as (y & Hy & Hin).
      injection Hy as Hyu Hys.
      assert (Hy : y ∈ filter
                (fun p => userId p = u /\ positionSymbol p = s) (portfolio db))
        by (by apply list_elem_of_filter).
      rewrite Hfilter in Hy. by apply elem_of_nil in Hy.
  - destruct (lt (abs _) dust); unfold wellKeyed;
      cbn [withPortfolio portfolio nextPortfolioId].
    + split_and!.
      * by apply NoDup_map_filter.
      * rewrite Forall_forall in Hbound. apply Forall_forall.
        intros x [_ Hx]%list_elem_of_filter. by apply Hbound.
      * by apply (NoDup_map_filter (fun p => (userId p, positionSymbol p))).
    + split_and!.
      * rewrite map_map_same; [done|].
        intros x. by destruct (decide (id x = id e)).
      * apply Forall_fmap. eapply Forall_impl; [exact Hbound|].
        intros x Hx. cbn. by destruct (decide (id x = id e)).
      * rewrite map_map_same; [done|].
        intros x. by destruct (decide (id x = id e)).
Qed.

(** X19.  One position per user and symbol is an invariant of trading:
    distinct ids, ids below the key counter and distinct keys survive every
    [updatePortfolio], whatever the trade. *)
Theorem updatePortfolio_keeps_keys (u : nat) (s ty : string) (a p : num)
    (db : DB) :
  wellKeyed db -> wellKeyed (updatePortfolio u s ty a p db).
Proof. apply keys_kept. Qed.

(** X20.  Buying into a position conserves value at cost: with finite
    numbers and a total that is not dust, the new amount times the new
    average price is what the position had cost plus what the purchase
    costs.  (Exact arithmetic; the rounding of the stored decimals is not
    part of the model.) *)
Theorem buy_conserves_cost (u : nat) (s : string) (a p : num) (db : DB)
    (e : Portfolio) :
  wellKeyed db ->
  positionOf u s db = Some e ->
  isFinite (amount e) = true -> isFinite (averagePrice e) = true ->
  isFinite a = true -> isFinite p = true ->
  lt (abs (amount e + a)) dust = false ->
  exists e',
    positionOf u s (updatePortfolio u s "buy" a p db) = Some e'
    /\ id e' = id e
    /\ amount e' = (amount e + a)%num
    /\ (amount e' * averagePrice e')%num
       = (amount e * averagePrice e + a * p)%num.
Proof.
  intros Hwk Hpos Hfa Hfp Hfb Hfq Hdust.
  exists (tradedPosition e "buy" a p).
  rewrite position_after by done. rewrite Hpos.
  unfold tradedPosition, signedAmount. rewrite !decide_True by done.
  rewrite Hdust. split_and!; [done..|]. cbn [amount averagePrice].
  destruct (amount e) as [qa| | |]; [|done..].
  destruct (averagePrice e) as [qp| | |]; [|done..].
  destruct a as [b| | |]; [|done..]. destruct p as [q| | |]; [|done..].
  cbn [add mul] in *. cbn [abs] in Hdust. unfold dust in Hdust.
  apply lt_Fin_false in Hdust. rewrite Qred_correct in Hdust.
  assert (Hnz : ~ (Qred (qa + b) == 0)%Q).
  { intros Hz. rewrite Hz in Hdust. cbn in Hdust.
    apply Qle_bool_iff in Hdust. discriminate Hdust. }
  cbn [div]. apply Qis0_false in Hnz as Hz. rewrite Hz. cbn [mul add].
  f_equal. apply Qred_complete. rewrite !Qred_correct.
  rewrite Qred_correct in Hnz. field. exact Hnz.
Qed.

(** X21.  A sell is never refused by the position book: selling more than
    is held leaves a negative amount at the unchanged average price, and
    selling what is not held changes nothing. *)
Theorem sell_is_unchecked (u : nat) (s : string) (a p : num) (db : DB) :
  wellKeyed db ->
  match positionOf u s db with
  | None => updatePortfolio u s "sell" a p db = db
  | Some e =>
      lt (abs (amount e - a)) dust = false ->
      exists e',
        positionOf u s (updatePortfolio u s "sell" a p db) = Some e'
        /\ amount e' = (amount e - a)%num
        /\ averagePrice e' = averagePrice e
  end.
Proof.
  intros Hwk. destruct (positionOf u s db) as [e|] eqn:Hpos.
  - intros Hdust. exists (tradedPosition e "sell" a p).
    rewrite position_after by done. rewrite Hpos.
    unfold tradedPosition, signedAmount. rewrite !decide_False by done.
    fold (sub (amount e) a). by rewrite Hdust.
  - unfold positionOf in Hpos. unfold updatePortfolio.
    destruct (findPosition u s (portfolio db)); [|done].
    by rewrite decide_False.
Qed.

Lemma sampleBook_wellKeyed : wellKeyed (withPortfolio btcTable 2 emptyDB).
Proof.
  unfold wellKeyed. cbn. split_and!.
  - apply NoDup_singleton.
  - apply Forall_singleton. cbn. lia.
  - apply NoDup_singleton.
Qed.

Lemma updatePortfolio_position_witness :
  positionOf 1 "ETH" (updatePortfolio 1 "ETH" "buy" (Fin 2) (Fin 3000)
                        (withPortfolio btcTable 2 emptyDB))
  = Some {| id := 2; userId := 1; positionSymbol := "ETH";
            amount := Fin 2; averagePrice := Fin 3000 |}.
Proof.
  exact (updatePortfolio_position 1 "ETH" "buy" (Fin 2) (Fin 3000)
           (withPortfolio btcTable 2 emptyDB) sampleBook_wellKeyed).
Defined.

Lemma updatePortfolio_others_witness :
  positionOf 1 "BTC" (updatePortfolio 1 "ETH" "buy" (Fin 2) (Fin 3000)
                        (withPortfolio btcTable 2 emptyDB))
  = positionOf 1 "BTC" (withPortfolio btcTable 2 emptyDB).
Proof.
  apply updatePortfolio_others.
  - cbn. apply NoDup_singleton.
  - discriminate.
Defined.

Lemma updatePortfolio_keeps_keys_witness :
  wellKeyed (updatePortfolio 1 "ETH" "buy" (Fin 2) (Fin 3000)
               (withPortfolio btcTable 2 emptyDB)).
Proof.
  apply updatePortfolio_keeps_keys. exact sampleBook_wellKeyed.
Defined.

Lemma buy_conserves_cost_witness :
  exists e',
    positionOf 1 "BTC" (updatePortfolio 1 "BTC" "buy" (Fin 1) (Fin 96000)
                          (withPortfolio btcTable 2 emptyDB)) = Some e'
    /\ id e' = 1
    /\ amount e' = Fin (3 # 2)
    /\ (amount e' * averagePrice e')%num = Fin 141000.
Proof.
  exact (buy_conserves_cost 1 "BTC" (Fin 1) (Fin 96000)
           (withPortfolio btcTable 2 emptyDB)
           {| id := 1; userId := 1; positionSymbol := "BTC";
              amount := n0_5; averagePrice := Fin 90000 |}
           sampleBook_wellKeyed eq_refl eq_refl eq_refl eq_refl eq_refl
           eq_refl).
Defined.

Lemma sell_is_unchecked_witness :
  exists e',
    positionOf 1 "BTC" (updatePortfolio 1 "BTC" "sell" (Fin 2) (Fin 96000)
                          (withPortfolio btcTable 2 emptyDB)) = Some e'
    /\ amount e' = Fin (-3 # 2)
    /\ averagePrice e' = Fin 90000.
Proof.
  exact (sell_is_unchecked 1 "BTC" (Fin 2) (Fin 96000)
           (withPortfolio btcTable 2 emptyDB) sampleBook_wellKeyed eq_refl).
Defined.

End PositionFacts.

(** ** Trades *)

Module TradingFacts.

Import Hub Storage Trading NumFacts.

(** The tables [updatePortfolio] does not write. *)
Lemma updatePortfolio_frame u s ty a p db :
  let db' := updatePortfolio u s ty a p db in
  users db' = users db /\ trades db' = trades db
  /\ portfolioHistory db' = portfolioHistory db
  /\ nextHistoryId db' = nextHistoryId db
  /\ nextTradeId db' = nextTradeId db.
Proof.
  cbv zeta. unfold updatePortfolio.
  destruct (findPosition u s (portfolio db)) as [|e F].
  - by destruct (decide (ty = "buy"%string)).
  - by destruct (lt (abs _) dust).
Qed.

(** The positions after [updatePortfolio] depend on the positions and the
    key counter alone. *)
Lemma updatePortfolio_positions u s ty a p db db' :
  portfolio db = portfolio db' ->
  nextPortfolioId db = nextPortfolioId db' ->
  portfolio (updatePortfolio u s ty a p db)
  = portfolio (updatePortfolio u s ty a p db')
  /\ nextPortfolioId (updatePortfolio u s ty a p db)
     = nextPortfolioId (updatePortfolio u s ty a p db').
Proof.
  intros Hp Hn. unfold updatePortfolio. rewrite <- Hp, <- Hn.
  destruct (findPosition u s (portfolio db)) as [|e F].
  - destruct (decide (ty = "buy"%string)); [done|]. by rewrite Hp, Hn.
  - by destruct (lt (abs _) dust).
Qed.

Section Facts.

Variable subDays : Z -> Z -> Z.

(** The tables [recordPortfolioValue] does not write. *)
Lemma recordPortfolioValue_frame userId totalValue now randoms db :
  let db' := recordPortfolioValue subDays userId totalValue now randoms db in
  users db' = users db /\ portfolio db' = portfolio db
  /\ trades db' = trades db
  /\ nextPortfolioId db' = nextPortfolioId db
  /\ nextTradeId db' = nextTradeId db.
Proof.
  cbv zeta. unfold recordPortfolioValue.
  destruct (decide _); [by rewrite StorageFacts.seed_fold|done].
Qed.

(** What [createTrade] leaves of the tables. *)
Lemma createTrade_effect body t1 t2 randoms db :
  let result := createTrade subDays body t1 t2 randoms db in
  let db1 :=
    updatePortfolio (itUserId body) (itSymbol body) (itType body)
      (itAmount body) (itPrice body) db in
  users result.2 = users db
  /\ portfolio result.2 = portfolio db1
  /\ nextPortfolioId result.2 = nextPortfolioId db1
  /\ trades result.2 = trades db ++ [result.1]
  /\ tradeId result.1 = nextTradeId db.
Proof.
  cbv zeta. unfold createTrade. cbn [fst snd].
  set (trade := Build_Trade _ _ _ _ _ _ _ _ _ _).
  set (dbT := withTrades _ _ db).
  set (dbP := updatePortfolio _ _ _ _ _ dbT).
  destruct (recordPortfolioValue_frame (itUserId body)
              (costBasis (getUserPortfolio (portfolio dbP) (itUserId body)))
              t2 randoms dbP) as (Hu & Hp & Ht & Hn & _).
  destruct (updatePortfolio_frame (itUserId body) (itSymbol body)
              (itType body) (itAmount body) (itPrice body) dbT)
    as (Hu' & Ht' & _).
  fold dbP in Hu', Ht'.
  destruct (updatePortfolio_positions (itUserId body) (itSymbol body)
              (itType body) (itAmount body) (itPrice body) dbT db)
    as [Hp' Hn']; [done..|]. fold dbP in Hp', Hn'.
  rewrite Hu, Hp, Ht, Hn, Hu', Ht', Hp', Hn'. done.
Qed.

Lemma filter_update_users id newBalance (rows : list User) :
  filter (fun u => uid u = id)
    (map (fun u => if decide (uid u = id) then setBalance newBalance u
                   else u) rows)
  = map (setBalance newBalance) (filter (fun u => uid u = id) rows).
Proof.
  induction rows as [|x l IH]; [done|]. cbn [map].
  destruct (decide (uid x = id)) as [Hx|Hx].
  - rewrite (filter_cons_True _ (setBalance newBalance x)) by exact Hx.
    rewrite (filter_cons_True _ x) by exact Hx. cbn [map]. by rewrite IH.
  - rewrite !filter_cons_False by done. apply IH.
Qed.

(** After an update of the balance, the user is found with it. *)
Lemma updateUserBalance_found id newBalance db user :
  getUser id db = Some user ->
  exists db',
    updateUserBalance id newBalance db
    = Some (setBalance newBalance user, db')
    /\ db' = withUsers
               (map (fun u => if decide (uid u = id)
                              then setBalance newBalance u else u) (users db))
               db
    /\ getUser id db' = Some (setBalance newBalance user).
Proof.
  unfold getUser, updateUserBalance. intros Hget.
  pose proof (filter_update_users id newBalance (users db)) as Hfilter.
  eexists. cbn [withUsers users]. rewrite Hfilter.
  destruct (filter (fun u => uid u = id) (users db)) as [|x l]; [done|].
  injection Hget as ->. cbn [map head].
  split; [reflexivity|]. split; [reflexivity|].
  cbn [withUsers users]. by rewrite Hfilter.
Qed.

(** The handler on a request that passes its checks. *)
Lemma postTrade_accepted body t1 t2 randoms db user :
  parses body = true ->
  getUser (itUserId body) db = Some user ->
  bool_decide (itType body = "buy"%string)
  && gt (itAmount body * itPrice body) (balance user) = false ->
  let created := createTrade subDays body t1 t2 randoms db in
  let newBalance :=
    if decide (itType body = "buy"%string)
    then (balance user - itAmount body * itPrice body)%num
    else (balance user + itAmount body * itPrice body)%num in
  postTrade subDays body t1 t2 randoms db
  = (Ok created.1,
     updatePortfolio (itUserId body) (itSymbol body) (itType body)
       (itAmount body) (itPrice body)
       (withUsers
          (map (fun u => if decide (uid u = uid user)
                         then setBalance newBalance u else u)
             (users created.2))
          created.2)).
Proof.
  intros Hparse Hget Hfunds. cbv zeta. unfold postTrade.
  rewrite Hparse. cbn [negb]. rewrite Hget, Hfunds.
  destruct (createTrade subDays body t1 t2 randoms db) as [trade db1] eqn:E.
  cbn [fst snd].
  assert (Huid : uid user = itUserId body).
  { unfold getUser in Hget.
    destruct (filter _ (users db)) as [|x l] eqn:Ef; [done|].
    injection Hget as ->.
    assert (Hx : user ∈ filter (fun u => uid u = itUserId body) (users db))
      by (rewrite Ef; apply list_elem_of_here).
    by apply list_elem_of_filter in Hx as [Hx _]. }
  assert (Hget1 : getUser (uid user) db1 = Some user).
  { unfold getUser. rewrite Huid.
    pose proof (createTrade_effect body t1 t2 randoms db) as Heff.
    cbv zeta in Heff. rewrite E in Heff. cbn [fst snd] in Heff.
    destruct Heff as (-> & _). exact Hget. }
  set (newBalance := if decide _ then _ else _).
  destruct (updateUserBalance_found (uid user) newBalance db1 user Hget1)
    as (db2 & -> & -> & _).
  reflexivity.
Qed.



(** The user a request names, once found, has the id of the request. *)
Lemma getUser_uid id db user : getUser id db = Some user -> uid user = id.
Proof.
  unfold getUser. intros Hget.
  destruct (filter _ (users db)) as [|x l] eqn:Ef; [done|].
  injection Hget as ->.
  assert (Hx : user ∈ filter (fun u => uid u = id) (users db))
    by (rewrite Ef; apply list_elem_of_here).
  by apply list_elem_of_filter in Hx as [Hx _].
Qed.

(** What an answer with the trade tells about the request. *)
Lemma accepted_inv body t1 t2 randoms db :
  accepted (postTrade subDays body t1 t2 randoms db).1 ->
  parses body = true
  /\ exists user,
       getUser (itUserId body) db = Some user
       /\ bool_decide (itType body = "buy"%string)
          && gt (itAmount body * itPrice body) (balance user) = false.
Proof.
  intros Hacc. unfold postTrade in Hacc.
  destruct (parses body); [|done]. split; [done|]. cbn [negb] in Hacc.
  destruct (getUser (itUserId body) db) as [user|]; [|done].
  exists user. split; [done|].
  by destruct (bool_decide _ && gt _ _).
Qed.

(** The positions and the balance after an accepted request. *)
Lemma accepted_effect body t1 t2 randoms db user :
  parses body = true ->
  getUser (itUserId body) db = Some user ->
  bool_decide (itType body = "buy"%string)
  && gt (itAmount body * itPrice body) (balance user) = false ->
  let db' := (postTrade subDays body t1 t2 randoms db).2 in
  let once :=
    updatePortfolio (itUserId body) (itSymbol body) (itType body)
      (itAmount body) (itPrice body) in
  portfolio db' = portfolio (once (once db))
  /\ getUser (itUserId body) db'
     = Some (setBalance
               (if decide (itType body = "buy"%string)
                then (balance user - itAmount body * itPrice body)%num
                else (balance user + itAmount body * itPrice body)%num)
               user).
Proof.
  intros Hparse Hget Hfunds. cbv zeta.
  rewrite (postTrade_accepted body t1 t2 randoms db user) by done.
  cbn [fst snd].
  destruct (createTrade_effect body t1 t2 randoms db)
    as (Hu & Hp & Hn & Ht & _). cbv zeta in Hu, Hp, Hn, Ht.
  set (created := createTrade subDays body t1 t2 randoms db) in *.
  set (newBalance := if decide _ then _ else _).
  set (dbU := withUsers _ created.2).
  destruct (updatePortfolio_frame (itUserId body) (itSymbol body)
              (itType body) (itAmount body) (itPrice body) dbU)
    as (Hu' & Ht' & _). cbv zeta in Hu', Ht'.
  split.
  - apply updatePortfolio_positions; subst dbU; cbn [withUsers portfolio
      nextPortfolioId]; done.
  - pose proof (getUser_uid _ _ _ Hget) as Huid.
    assert (Hget1 : getUser (uid user) created.2 = Some user).
    { unfold getUser. rewrite Huid, Hu. exact Hget. }
    destruct (updateUserBalance_found (uid user) newBalance created.2 user
                Hget1) as (db2 & _ & -> & Hfound).
    unfold getUser in *. rewrite Hu'. rewrite <- Huid. exact Hfound.
Qed.

(** X22.  An accepted trade is applied to the positions twice: once by
    [createTrade] and once more by the handler.  The positions the handler
    leaves are those of two successive [updatePortfolio]s of the same
    trade, while one trade row is written and the balance moves by one
    trade total. *)
Theorem postTrade_updates_positions_twice (body : InsertTrade)
    (t1 t2 : Z) (randoms : nat -> num) (db : DB) :
  accepted (postTrade subDays body t1 t2 randoms db).1 ->
  let db' := (postTrade subDays body t1 t2 randoms db).2 in
  let once :=
    updatePortfolio (itUserId body) (itSymbol body) (itType body)
      (itAmount body) (itPrice body) in
  portfolio db' = portfolio (once (once db))
  /\ length (trades db') = S (length (trades db))
  /\ exists user,
       getUser (itUserId body) db = Some user
       /\ getUser (itUserId body) db'
          = Some (setBalance
                    (if decide (itType body = "buy"%string)
                     then (balance user - itAmount body * itPrice body)%num
                     else (balance user + itAmount body * itPrice body)%num)
                    user).
Proof.
  intros Hacc. cbv zeta.
  destruct (accepted_inv _ _ _ _ _ Hacc) as (Hparse & user & Hget & Hfunds).
  destruct (accepted_effect body t1 t2 randoms db user Hparse Hget Hfunds)
    as [Hpos Hbal]. cbv zeta in Hpos, Hbal.
  split; [exact Hpos|]. split; [|by exists user].
  rewrite (postTrade_accepted body t1 t2 randoms db user) by done.
  cbn [fst snd].
  destruct (createTrade_effect body t1 t2 randoms db)
    as (_ & _ & _ & Ht & _). cbv zeta in Ht.
  set (created := createTrade subDays body t1 t2 randoms db) in *.
  set (dbU := withUsers _ created.2).
  destruct (updatePortfolio_frame (itUserId body) (itSymbol body)
              (itType body) (itAmount body) (itPrice body) dbU)
    as (_ & Ht' & _). cbv zeta in Ht'.
  rewrite Ht'. subst dbU. cbn [withUsers trades]. rewrite Ht.
  rewrite length_app. cbn. lia.
Qed.

(** X23.  A buy never overdraws: when a buy is accepted for a user with a
    finite balance, the balance afterwards is at least 0 and not above
    what it was.  (Both bounds also hold of the rounded subtraction of
    binary64; that the balance goes down strictly does not: there
    500000 - 1e-12 is 500000.) *)
Theorem buy_never_overdraws (body : InsertTrade) (t1 t2 : Z)
    (randoms : nat -> num) (db : DB) (user : User) :
  itType body = "buy"%string ->
  getUser (itUserId body) db = Some user ->
  isFinite (balance user) = true ->
  accepted (postTrade subDays body t1 t2 randoms db).1 ->
  exists user',
    getUser (itUserId body) (postTrade subDays body t1 t2 randoms db).2
    = Some user'
    /\ le zero (balance user') = true
    /\ le (balance user') (balance user) = true.
Proof.
  intros Hbuy Hget Hfin Hacc.
  destruct (accepted_inv _ _ _ _ _ Hacc) as (Hparse & user0 & Hget0 & Hfunds).
  rewrite Hget in Hget0. injection Hget0 as <-.
  destruct (accepted_effect body t1 t2 randoms db user Hparse Hget Hfunds)
    as [_ Hbal]. cbv zeta in Hbal.
  eexists. split; [exact Hbal|].
  rewrite decide_True by done. cbn [setBalance balance].
  rewrite bool_decide_eq_true_2 in Hfunds by done. cbn [andb] in Hfunds.
  unfold parses in Hparse.
  apply andb_prop in Hparse as [Hparse _].
  apply andb_prop in Hparse as [Hparse _].
  apply andb_prop in Hparse as [Ha Hp].
  destruct (balance user) as [b| | |]; [|done..].
  unfold gt in *.
  destruct (itAmount body) as [a| | |], (itPrice body) as [p| | |];
    try done.
  - cbn [mul] in *. apply lt_Fin in Ha, Hp. apply lt_Fin_false in Hfunds.
    rewrite Qred_correct in Hfunds.
    assert (0 < a * p)%Q by (by apply Qmult_lt_0_compat).
    unfold sub. cbn [neg add]. split.
    + unfold le, zero. cbn. apply negb_true_iff, lt_Fin_false.
      rewrite !Qred_correct. lra.
    + unfold le. apply negb_true_iff, lt_Fin_false.
      rewrite !Qred_correct. lra.
  - cbn [mul] in *. apply lt_Fin in Ha.
    assert (Hnz : Qis0 a = false) by (apply Qis0_false; lra).
    rewrite Hnz in Hfunds.
    assert (Hpos : Qneg a = false)
      by (unfold Qneg; apply negb_false_iff, Qle_bool_iff; lra).
    rewrite Hpos in Hfunds. done.
  - cbn [mul] in *. apply lt_Fin in Hp.
    assert (Hnz : Qis0 p = false) by (apply Qis0_false; lra).
    rewrite Hnz in Hfunds.
    assert (Hpos : Qneg p = false)
      by (unfold Qneg; apply negb_false_iff, Qle_bool_iff; lra).
    rewrite Hpos in Hfunds. done.
Qed.

(** X24.  A request that is not answered with the trade leaves the
    database as it was, and no request is refused after the trade has been
    written: the balance update always finds the user the handler has just
    read. *)
Theorem refused_trade_changes_nothing (body : InsertTrade) (t1 t2 : Z)
    (randoms : nat -> num) (db : DB) :
  ~ accepted (postTrade subDays body t1 t2 randoms db).1 ->
  (postTrade subDays body t1 t2 randoms db).2 = db
  /\ (postTrade subDays body t1 t2 randoms db).1 <> Failed.
Proof.
  intros Hrefused.
  destruct (parses body) eqn:Hparse;
    [|unfold postTrade; rewrite Hparse; done].
  destruct (getUser (itUserId body) db) as [user|] eqn:Hget;
    [|unfold postTrade; rewrite Hparse, Hget; done].
  destruct (bool_decide (itType body = "buy"%string)
            && gt (itAmount body * itPrice body) (balance user)) eqn:Hfunds;
    [unfold postTrade; rewrite Hparse, Hget; cbn [negb];
     rewrite Hfunds; done|].
  exfalso. apply Hrefused.
  by rewrite (postTrade_accepted body t1 t2 randoms db user).
Qed.

(** X25.  Selling what is not held goes through: a well-formed sell of a
    symbol the user has no position in is answered with the trade, leaves
    the positions as they were and credits the balance with the trade
    total. *)
Theorem sell_unheld_is_credited (body : InsertTrade) (t1 t2 : Z)
    (randoms : nat -> num) (db : DB) (user : User) :
  parses body = true ->
  itType body = "sell"%string ->
  getUser (itUserId body) db = Some user ->
  positionOf (itUserId body) (itSymbol body) db = None ->
  accepted (postTrade subDays body t1 t2 randoms db).1
  /\ portfolio (postTrade subDays body t1 t2 randoms db).2 = portfolio db
  /\ getUser (itUserId body) (postTrade subDays body t1 t2 randoms db).2
     = Some (setBalance (balance user + itAmount body * itPrice body)%num
               user).
Proof.
  intros Hparse Hsell Hget Hnone.
  assert (Hfunds : bool_decide (itType body = "buy"%string)
            && gt (itAmount body * itPrice body) (balance user) = false).
  { rewrite bool_decide_eq_false_2; [done|]. by rewrite Hsell. }
  destruct (accepted_effect body t1 t2 randoms db user Hparse Hget Hfunds)
    as [Hp Hbal]. cbv zeta in Hp, Hbal.
  split; [by rewrite (postTrade_accepted body t1 t2 randoms db user)|].
  assert (Hsame : updatePortfolio (itUserId body) (itSymbol body)
                    (itType body) (itAmount body) (itPrice body) db = db).
  { unfold positionOf in Hnone. unfold updatePortfolio.
    destruct (findPosition _ _ (portfolio db)); [|done].
    rewrite decide_False; [done|]. by rewrite Hsell. }
  rewrite Hp, !Hsame. split; [done|].
  rewrite Hbal. rewrite decide_False; [done|]. by rewrite Hsell.
Qed.

(** X26.  A first buy shows up doubled: after an accepted buy of a finite
    amount of a symbol the user had no position in, the user holds twice
    the amount bought, at the price paid. *)
Theorem first_buy_is_doubled (body : InsertTrade) (t1 t2 : Z)
    (randoms : nat -> num) (db : DB) (qa qp : Q) :
  wellKeyed db ->
  itType body = "buy"%string ->
  itAmount body = Fin qa -> itPrice body = Fin qp ->
  positionOf (itUserId body) (itSymbol body) db = None ->
  lt (abs (itAmount body + itAmount body)) dust = false ->
  accepted (postTrade subDays body t1 t2 randoms db).1 ->
  positionOf (itUserId body) (itSymbol body)
    (postTrade subDays body t1 t2 randoms db).2
  = Some {| id := nextPortfolioId db; userId := itUserId body;
            positionSymbol := itSymbol body;
            amount := Fin (Qred (qa + qa));
            averagePrice := Fin (Qred qp) |}.
Proof.
  intros Hwk Hbuy Ha Hp Hnone Hdust Hacc.
  destruct (accepted_inv _ _ _ _ _ Hacc) as (Hparse & user & Hget & Hfunds).
  destruct (accepted_effect body t1 t2 randoms db user Hparse Hget Hfunds)
    as [Hpos _]. cbv zeta in Hpos.
  unfold positionOf at 1. rewrite Hpos.
  fold (positionOf (itUserId body) (itSymbol body)
          (updatePortfolio (itUserId body) (itSymbol body) (itType body)
             (itAmount body) (itPrice body)
             (updatePortfolio (itUserId body) (itSymbol body) (itType body)
                (itAmount body) (itPrice body) db))).
  rewrite PositionFacts.position_after
    by (by apply PositionFacts.keys_kept).
  rewrite PositionFacts.position_after by done.
  rewrite Hnone, Hbuy. rewrite decide_True by done.
  unfold signedAmount. rewrite decide_True by done. cbn [amount].
  rewrite Hdust.
  unfold tradedPosition, signedAmount. rewrite !decide_True by done.
  cbn [id userId positionSymbol amount averagePrice].
  rewrite Ha, Hp in *. cbn [add mul]. cbn [add abs] in Hdust.
  unfold dust in Hdust. apply lt_Fin_false in Hdust.
  rewrite Qred_correct in Hdust.
  assert (Hnz : ~ (Qred (qa + qa) == 0)%Q).
  { intros Hz. rewrite Hz in Hdust. cbn in Hdust.
    apply Qle_bool_iff in Hdust. discriminate Hdust. }
  cbn [div]. apply Qis0_false in Hnz as Hz. rewrite Hz.
  f_equal. f_equal. f_equal. apply Qred_complete. rewrite !Qred_correct.
  rewrite Qred_correct in Hnz. field. exact Hnz.
Qed.

End Facts.

(** *** A first trade *)

Lemma newcomer_wellKeyed : wellKeyed newcomerDB.
Proof.
  unfold wellKeyed. cbn. split_and!; [apply NoDup_nil_2|done|apply NoDup_nil_2].
Qed.

Lemma postTrade_updates_positions_twice_witness :
  let db' := (postTrade utcSubDays buyTwoEth 1700000000000 1700000000001
                (fun _ => n0_5) newcomerDB).2 in
  portfolio db'
  = [{| id := 1; userId := 1; positionSymbol := "ETH";
        amount := Fin 4; averagePrice := Fin 3000 |}]
  /\ length (trades db') = 1.
Proof.
  destruct (postTrade_updates_positions_twice utcSubDays buyTwoEth
              1700000000000 1700000000001 (fun _ => n0_5) newcomerDB I)
    as (Hpositions & Htrades & _).
  split; [exact Hpositions|exact Htrades].
Defined.

Lemma buy_never_overdraws_witness :
  exists user',
    getUser 1 (postTrade utcSubDays buyTwoEth 1700000000000 1700000000001
                 (fun _ => n0_5) newcomerDB).2 = Some user'
    /\ le zero (balance user') = true
    /\ le (balance user') (Fin 500000) = true.
Proof.
  exact (buy_never_overdraws utcSubDays buyTwoEth 1700000000000
           1700000000001 (fun _ => n0_5) newcomerDB
           {| uid := 1; username := "demo"; password := "demo";
              balance := Fin 500000 |} eq_refl eq_refl eq_refl I).
Defined.

Lemma refused_trade_changes_nothing_witness :
  (postTrade utcSubDays buyTwoEth 1700000000000 1700000000001
     (fun _ => n0_5) emptyDB).2 = emptyDB
  /\ (postTrade utcSubDays buyTwoEth 1700000000000 1700000000001
        (fun _ => n0_5) emptyDB).1 <> Failed.
Proof.
  apply refused_trade_changes_nothing. vm_compute. intros [].
Defined.

Lemma sell_unheld_is_credited_witness :
  accepted (postTrade utcSubDays sellTwoEth 1700000000000 1700000000001
              (fun _ => n0_5) newcomerDB).1
  /\ portfolio (postTrade utcSubDays sellTwoEth 1700000000000 1700000000001
                  (fun _ => n0_5) newcomerDB).2 = []
  /\ getUser 1 (postTrade utcSubDays sellTwoEth 1700000000000 1700000000001
                  (fun _ => n0_5) newcomerDB).2
     = Some {| uid := 1; username := "demo"; password := "demo";
               balance := Fin 506000 |}.
Proof.
  exact (sell_unheld_is_credited utcSubDays sellTwoEth 1700000000000
           1700000000001 (fun _ => n0_5) newcomerDB
           {| uid := 1; username := "demo"; password := "demo";
              balance := Fin 500000 |} eq_refl eq_refl eq_refl eq_refl).
Defined.

Lemma first_buy_is_doubled_witness :
  positionOf 1 "ETH"
    (postTrade utcSubDays buyTwoEth 1700000000000 1700000000001
       (fun _ => n0_5) newcomerDB).2
  = Some {| id := 1; userId := 1; positionSymbol := "ETH";
            amount := Fin 4; averagePrice := Fin 3000 |}.
Proof.
  exact (first_buy_is_doubled utcSubDays buyTwoEth 1700000000000
           1700000000001 (fun _ => n0_5) newcomerDB 2 3000
           newcomer_wellKeyed eq_refl eq_refl eq_refl eq_refl eq_refl I).
Defined.

End TradingFacts.

(** ** The history read back *)

Module HistoryViewFacts.

Import Hub Storage HistoryView NumFacts.

Lemma insertBy_perm {A} (key : A -> Z) (x : A) (l : list A) :
  insertBy key x l ≡ₚ x :: l.
Proof.
  induction l as [|y l IH]; [done|]. cbn [insertBy].
  destruct (key x <=? key y)%Z; [done|].
  rewrite IH. apply Permutation_swap.
Qed.

Lemma sortBy_perm {A} (key : A -> Z) (l : list A) : sortBy key l ≡ₚ l.
Proof.
  induction l as [|x l IH]; [done|]. unfold sortBy in *. cbn [foldr].
  rewrite insertBy_perm. by rewrite IH.
Qed.

Lemma sortBy_length {A} (key : A -> Z) (l : list A) :
  length (sortBy key l) = length l.
Proof. by rewrite sortBy_perm. Qed.

Lemma insertBy_sorted {A} (key : A -> Z) (x : A) (l : list A) :
  StronglySorted Z.le (map key l) ->
  StronglySorted Z.le (map key (insertBy key x l)).
Proof.
  induction l as [|y l IH]; intros Hs.
  - cbn. repeat constructor.
  - cbn [insertBy]. destruct (key x <=? key y)%Z eqn:E.
    + apply Z.leb_le in E. cbn [map] in *. constructor; [done|].
      apply StronglySorted_inv in Hs as [_ Hall].
      constructor; [done|].
      eapply Forall_impl; [exact Hall|]. cbn. intros; lia.
    + apply Z.leb_gt in E. cbn [map] in *.
      apply StronglySorted_inv in Hs as [Hs Hall].
      constructor; [by apply IH|].
      rewrite insertBy_perm. cbn [map]. constructor; [lia|done].
Qed.

Lemma sortBy_sorted {A} (key : A -> Z) (l : list A) :
  StronglySorted Z.le (map key (sortBy key l)).
Proof.
  induction l as [|x l IH]; [constructor|].
  unfold sortBy in *. cbn [foldr]. by apply insertBy_sorted.
Qed.

Lemma numbered_ids_from userId (timeline : list Point) (k : nat) :
  map phId
    (imap (fun index point =>
             {| phId := k + index + 1; phUserId := userId;
                phTotalValue := ptValue point;
                phTimestamp := ptTimestamp point |}) timeline)
  = seq (k + 1) (length timeline).
Proof.
  revert k. induction timeline as [|p l IH]; intros k; [done|].
  cbn [imap map length seq phId]. f_equal; [lia|].
  replace (S (k + 1)) with (S k + 1) by lia. rewrite <- IH.
  f_equal. apply imap_ext. intros i x _. cbn. f_equal. lia.
Qed.

Lemma numbered_ids userId timeline :
  map phId (numbered userId timeline) = seq 1 (length timeline).
Proof. apply (numbered_ids_from userId timeline 0). Qed.

Lemma numbered_length userId timeline :
  length (numbered userId timeline) = length timeline.
Proof. unfold numbered. apply length_imap. Qed.

Lemma numbered_points userId timeline :
  map (fun r => {| ptTimestamp := phTimestamp r;
                   ptValue := phTotalValue r |})
    (numbered userId timeline) = timeline.
Proof.
  unfold numbered.
  enough (Hgen : forall (f : nat -> nat),
    map (fun r => {| ptTimestamp := phTimestamp r;
                     ptValue := phTotalValue r |})
      (imap (fun index point =>
               {| phId := f index; phUserId := userId;
                  phTotalValue := ptValue point;
                  phTimestamp := ptTimestamp point |}) timeline)
    = timeline) by apply (Hgen (fun index => index + 1)).
  induction timeline as [|[ts v] l IH]; intros f; [done|].
  cbn [imap map]. f_equal. apply (IH (f ∘ S)).
Qed.

Lemma numbered_owner userId timeline :
  Forall (fun r => phUserId r = userId) (numbered userId timeline).
Proof.
  unfold numbered. apply Forall_forall. intros r Hr.
  apply elem_of_lookup_imap in Hr as (i & p & -> & _). done.
Qed.

Lemma numbered_timestamps userId timeline :
  map phTimestamp (numbered userId timeline) = map ptTimestamp timeline.
Proof.
  rewrite <- (numbered_points userId timeline) at 2.
  rewrite map_map. done.
Qed.

Section Facts.

Variable subDays : Z -> Z -> Z.
Variable clock : nat -> Z.
Variable randoms : nat -> nat -> num.

(** One activation. *)
Lemma getPortfolioHistory_S fuel userId timeframe tick db :
  getPortfolioHistory subDays clock randoms (S fuel) userId timeframe tick db
  = if bool_decide
         (length (snapshotsSince userId (startOf timeframe (clock tick)) db)
          = 0)
       && bool_decide
            (length (tradesSince userId (startOf timeframe (clock tick)) db)
             = 0)
    then
      if gt (costBasis (getUserPortfolio (portfolio db) userId)) zero then
        getPortfolioHistory subDays clock randoms fuel userId timeframe
          (S (S tick))
          (recordPortfolioValue subDays userId
             (costBasis (getUserPortfolio (portfolio db) userId))
             (clock (S tick)) (randoms (S tick)) db)
      else (Some [], db)
    else
      (Some (numbered userId
               (sortBy ptTimestamp
                  (map tradePoint
                     (tradesSince userId (startOf timeframe (clock tick)) db)
                   ++ map snapshotPoint
                        (snapshotsSince userId
                           (startOf timeframe (clock tick)) db)))), db).
Proof. reflexivity. Qed.

(** X27.  Whatever is returned is numbered 1, 2, 3, ... in the order
    returned, belongs to the user asked for and is in the order of time;
    the ids of the stored rows do not show. *)
Theorem history_rows_are_renumbered (fuel : nat) (userId : nat)
    (timeframe : string) (tick : nat) (db : DB)
    (rows : list PortfolioHistory) :
  (getPortfolioHistory subDays clock randoms fuel userId timeframe tick
     db).1 = Some rows ->
  map phId rows = seq 1 (length rows)
  /\ Forall (fun r => phUserId r = userId) rows
  /\ StronglySorted Z.le (map phTimestamp rows).
Proof.
  revert tick db. induction fuel as [|fuel IH]; intros tick db; [done|].
  rewrite getPortfolioHistory_S.
  destruct (bool_decide _ && bool_decide _).
  - destruct (gt _ zero); [apply IH|].
    cbn. intros [= <-]. cbn. split_and!; [done|constructor|constructor].
  - cbn [fst]. intros [= <-]. split_and!.
    + by rewrite numbered_ids, numbered_length.
    + apply numbered_owner.
    + rewrite numbered_timestamps. apply sortBy_sorted.
Qed.

(** X28.  With a trade or a snapshot of the user in the window, one
    activation answers and writes nothing: there is one row per trade and
    one per snapshot of the window, a trade carrying amount times price
    and a snapshot its total value. *)
Theorem history_lists_trades_and_snapshots (fuel : nat) (userId : nat)
    (timeframe : string) (tick : nat) (db : DB) :
  let startDate := startOf timeframe (clock tick) in
  let inTrades :=
    filter (fun t => tradeUserId t = userId
                     /\ (startDate <= tradeTimestamp t)%Z) (trades db) in
  let inSnapshots :=
    filter (fun h => phUserId h = userId
                     /\ (startDate <= phTimestamp h)%Z)
      (portfolioHistory db) in
  inTrades <> [] \/ inSnapshots <> [] ->
  exists rows,
    getPortfolioHistory subDays clock randoms (S fuel) userId timeframe tick
      db = (Some rows, db)
    /\ length rows = length inTrades + length inSnapshots
    /\ map (fun r => {| ptTimestamp := phTimestamp r;
                        ptValue := phTotalValue r |}) rows
       ≡ₚ map tradePoint inTrades ++ map snapshotPoint inSnapshots.
Proof.
  cbv zeta. intros Hsome. rewrite getPortfolioHistory_S.
  unfold tradesSince, snapshotsSince.
  set (inTrades := filter _ (trades db)) in *.
  set (inSnapshots := filter _ (portfolioHistory db)) in *.
  rewrite !sortBy_length.
  assert (Hbranch : bool_decide (length inSnapshots = 0)
                    && bool_decide (length inTrades = 0) = false).
  { apply andb_false_iff.
    destruct Hsome as [Ht|Hs]; [right|left]; apply bool_decide_eq_false_2;
      intros Hlen; by apply length_zero_iff_nil in Hlen. }
  rewrite Hbranch. eexists. split; [reflexivity|]. split.
  - rewrite numbered_length, sortBy_length, length_app, !length_map.
    by rewrite !sortBy_length.
  - rewrite numbered_points. rewrite sortBy_perm.
    by rewrite !sortBy_perm.
Qed.

(** Once a value is recorded for a user at some time, the user has a
    history row of that time. *)
Lemma recorded_now userId totalValue now draws db :
  exists h,
    h ∈ portfolioHistory
          (recordPortfolioValue subDays userId totalValue now draws db)
    /\ phUserId h = userId /\ phTimestamp h = now.
Proof.
  unfold recordPortfolioValue. destruct (decide _).
  - rewrite StorageFacts.seed_fold. cbn [withHistory portfolioHistory].
    unfold seedTimestamps, seedRows. cbn [imap fst snd].
    eexists. split.
    + apply elem_of_app. right.
      do 14 apply list_elem_of_further. apply list_elem_of_here.
    + done.
  - unfold insertHistory. cbn [withHistory portfolioHistory].
    eexists. split.
    + apply elem_of_app. right. apply list_elem_of_here.
    + done.
Qed.

(** X29.  With nothing of the user in the window, the positions valued at
    cost decide.  If that value is not above 0 the answer is empty and
    nothing is written.  If it is, the value is recorded and the history
    read again; provided the clock has not left the window between the
    recording and the second reading, that second activation answers with
    at least one row, so two activations are enough. *)
Theorem history_is_created_on_demand (fuel : nat) (userId : nat)
    (timeframe : string) (tick : nat) (db : DB) :
  tradesSince userId (startOf timeframe (clock tick)) db = [] ->
  snapshotsSince userId (startOf timeframe (clock tick)) db = [] ->
  let totalValue := costBasis (getUserPortfolio (portfolio db) userId) in
  (gt totalValue zero = false ->
   getPortfolioHistory subDays clock randoms (S fuel) userId timeframe tick
     db = (Some [], db))
  /\ (gt totalValue zero = true ->
      (startOf timeframe (clock (S (S tick))) <= clock (S tick))%Z ->
      exists rows,
        getPortfolioHistory subDays clock randoms (S (S fuel)) userId
          timeframe tick db
        = (Some rows,
           recordPortfolioValue subDays userId totalValue (clock (S tick))
             (randoms (S tick)) db)
        /\ rows <> []).
Proof.
  intros Ht Hs. cbv zeta. split.
  - intros Hzero. rewrite getPortfolioHistory_S, Ht, Hs, Hzero.
    cbn [length]. by rewrite !bool_decide_eq_true_2.
  - intros Hpos Hclock.
    rewrite getPortfolioHistory_S, Ht, Hs, Hpos. cbn [length].
    rewrite !bool_decide_eq_true_2 by done. cbn [andb].
    set (db' := recordPortfolioValue _ _ _ _ _ db).
    destruct (recorded_now userId
                (costBasis (getUserPortfolio (portfolio db) userId))
                (clock (S tick)) (randoms (S tick)) db)
      as (h & Hin & Hu & Hts). fold db' in Hin.
    rewrite getPortfolioHistory_S.
    assert (Hsnap : snapshotsSince userId
                      (startOf timeframe (clock (S (S tick)))) db' <> []).
    { unfold snapshotsSince. intros Hnil.
      apply (f_equal length) in Hnil. rewrite sortBy_length in Hnil.
      apply length_zero_iff_nil in Hnil.
      assert (Hh : h ∈ filter
                (fun h => phUserId h = userId
                          /\ (startOf timeframe (clock (S (S tick)))
                              <= phTimestamp h)%Z) (portfolioHistory db')).
      { apply list_elem_of_filter. split; [|done]. split; [done|].
        by rewrite Hts. }
      rewrite Hnil in Hh. by apply elem_of_nil in Hh. }
    rewrite (bool_decide_eq_false_2
               (length (snapshotsSince userId _ db') = 0)); cycle 1.
    { intros Hlen. by apply length_zero_iff_nil in Hlen. }
    cbn [andb]. eexists. split; [reflexivity|].
    intros Hnil. apply (f_equal length) in Hnil.
    rewrite numbered_length, sortBy_length, length_app, !length_map in Hnil.
    destruct (snapshotsSince userId _ db'); [done|]. cbn in Hnil. lia.
Qed.

End Facts.

(** *** A concrete history *)

Lemma history_rows_are_renumbered_witness :
  let rows :=
    [{| phId := 1; phUserId := 1; phTotalValue := Fin 47500;
        phTimestamp := 1699996400000 |};
     {| phId := 2; phUserId := 1; phTotalValue := Fin 47500;
        phTimestamp := 1700000000000 |}] in
  map phId rows = seq 1 (length rows)
  /\ Forall (fun r => phUserId r = 1) rows
  /\ StronglySorted Z.le (map phTimestamp rows).
Proof.
  apply (history_rows_are_renumbered utcSubDays secondsClock
           (fun _ _ => n0_5) 1 1 "1h" 0 startedDB).
  vm_compute. reflexivity.
Defined.

Lemma history_lists_trades_and_snapshots_witness :
  exists rows,
    getPortfolioHistory utcSubDays secondsClock (fun _ _ => n0_5) 1 1 "1h" 0
      startedDB = (Some rows, startedDB)
    /\ length rows = 2.
Proof.
  destruct (history_lists_trades_and_snapshots utcSubDays secondsClock
              (fun _ _ => n0_5) 0 1 "1h" 0 startedDB)
    as (rows & Hrun & Hlen & _).
  - right. vm_compute. discriminate.
  - exists rows. split; [exact Hrun|]. rewrite Hlen. vm_compute. reflexivity.
Defined.

Lemma history_is_created_on_demand_witness :
  exists rows,
    getPortfolioHistory utcSubDays secondsClock (fun _ _ => n0_5) 2 1 "24h" 0
      (withPortfolio btcTable 2 emptyDB)
    = (Some rows,
       recordPortfolioValue utcSubDays 1 (Fin 45000) 1700000001000
         (fun _ => n0_5) (withPortfolio btcTable 2 emptyDB))
    /\ rows <> [].
Proof.
  apply (proj2 (history_is_created_on_demand utcSubDays secondsClock
                  (fun _ _ => n0_5) 0 1 "24h" 0
                  (withPortfolio btcTable 2 emptyDB) eq_refl eq_refl)).
  - reflexivity.
  - vm_compute. discriminate.
Defined.

End HistoryViewFacts.

(** ** The position calculator *)

Module PositionCalculatorFacts.

Import PositionCalculator Ordering NumFacts.

Lemma min_Fin (x y : Q) :
  exists z, Num.min (Fin x) (Fin y) = Fin z /\ (z <= x)%Q /\ (z <= y)%Q.
Proof.
  unfold Num.min. destruct (lt (Fin y) (Fin x)) eqn:E.
  - apply lt_Fin in E. exists y. split; [done|]. lra.
  - apply lt_Fin_false in E. exists x. split; [done|]. lra.
Qed.

Lemma div_Fin (a b : Q) :
  Qis0 b = false -> (Fin a / Fin b)%num = Fin (Qred (a / b)).
Proof. intros Hb. cbn [div]. by rewrite Hb. Qed.

Lemma riskPerUnit_Fin (e s : Q) :
  ~ (e == s)%Q ->
  exists d,
    (if gt (Fin e) (Fin s) then (Fin e - Fin s)%num else (Fin s - Fin e)%num)
    = Fin d /\ (0 < d)%Q.
Proof.
  intros Hne. unfold gt. destruct (lt (Fin s) (Fin e)) eqn:E.
  - apply lt_Fin in E. eexists. split; [reflexivity|].
    rewrite !Qred_correct. lra.
  - apply lt_Fin_false in E. eexists. split; [reflexivity|].
    rewrite !Qred_correct. lra.
Qed.

Lemma min_with_two (risk : num) :
  isNaN risk = false ->
  Num.min risk (Fin 2) = NInf
  \/ exists m, Num.min risk (Fin 2) = Fin m /\ (m <= 2)%Q.
Proof.
  destruct risk as [r| | |]; try done; intros _.
  - right. destruct (min_Fin r 2) as (m & -> & _ & Hm). by exists m.
  - right. exists 2%Q. split; [reflexivity|lra].
  - by left.
Qed.

(** X30.  The calculator keeps both of its limits.  For a positive
    balance, a positive entry price and a stop away from the entry (all
    finite), the size it proposes risks at most 2% of the balance between
    entry and stop and is worth at most half of the balance at the entry
    price, for every risk percentage that is a number, infinite ones
    included.  A risk percentage field that is empty or holds no number is
    read as NaN, and then the size is NaN: nothing is proposed.  (Exact
    arithmetic.) *)
Theorem positionSize_within_limits (b e s : Q) (risk : num) :
  (0 < b)%Q -> (0 < e)%Q -> ~ (e == s)%Q ->
  let sizing := calculate (Fin b) risk (Some (Fin e)) (Some (Fin s)) in
  (isNaN risk = false ->
   leq (positionSize sizing * riskPerUnit sizing) (Fin b * Fin (2 # 100))
   /\ leq (positionSize sizing * Fin e) (Fin b * n0_5))
  /\ (isNaN risk = true -> positionSize sizing = NaN).
Proof.
  intros Hb He Hne. cbv zeta. unfold calculate.
  cbn [positionSize riskPerUnit].
  destruct (riskPerUnit_Fin e s Hne) as (d & -> & Hd).
  assert (Hd0 : Qis0 d = false) by (apply Qis0_false; lra).
  assert (He0 : Qis0 e = false) by (apply Qis0_false; lra).
  assert (Hb0 : Qis0 b = false) by (apply Qis0_false; lra).
  assert (Hbpos : Qneg b = false)
    by (unfold Qneg; apply negb_false_iff, Qle_bool_iff; lra).
  assert (Hdpos : Qneg d = false)
    by (unfold Qneg; apply negb_false_iff, Qle_bool_iff; lra).
  split.
  - intros Hnum. destruct (min_with_two risk Hnum) as [->|(m & -> & Hm)].
    + assert (Hepos : Qneg e = false)
        by (unfold Qneg; apply negb_false_iff, Qle_bool_iff; lra).
      unfold n0_5. cbn [mul]. rewrite Hb0, Hbpos. cbn [negb signedInf div].
      change (Qneg 100) with false.
      do 4 (rewrite ?Hd0, ?He0, ?Hdpos, ?Hepos;
            cbn [negb signedInf Num.min lt mul div]).
      unfold leq. by split.
    + unfold n0_5. cbn [mul].
      rewrite (div_Fin _ 100), (div_Fin _ d), (div_Fin _ e) by done.
      destruct (min_Fin (Qred (Qred (Qred (b * m) / 100) / d))
                  (Qred (Qred (b * (1 # 2)) / e))) as (z & -> & Hz1 & Hz2).
      rewrite !Qred_correct in Hz1. rewrite !Qred_correct in Hz2.
      unfold leq, le. cbn [mul]. split.
      * apply negb_true_iff, lt_Fin_false. rewrite !Qred_correct.
        apply Qle_trans with (b * m / 100)%Q.
        -- assert (Heq : (b * m / 100 / d * d == b * m / 100)%Q)
             by (field; lra).
           rewrite <- Heq. apply Qmult_le_compat_r; [exact Hz1|lra].
        -- assert (Hbm : (b * m <= b * 2)%Q) by (apply Qmult_le_l; lra).
           assert (Heq : (b * m / 100 == b * m * (1 # 100))%Q) by field.
           rewrite Heq. lra.
      * apply negb_true_iff, lt_Fin_false. rewrite !Qred_correct.
        assert (Heq : (b * (1 # 2) / e * e == b * (1 # 2))%Q)
          by (field; lra).
        rewrite <- Heq. apply Qmult_le_compat_r; [exact Hz2|lra].
  - by destruct risk.
Qed.

(** A risk percentage of 5 is capped at 2: with a balance of 500000, an
    entry at 95000 and a stop at 94000 both limits hold. *)
Lemma positionSize_within_limits_witness :
  let sizing :=
    calculate (Fin 500000) (Fin 5) (Some (Fin 95000)) (Some (Fin 94000)) in
  leq (positionSize sizing * riskPerUnit sizing) (Fin 500000 * Fin (2 # 100))
  /\ leq (positionSize sizing * Fin 95000) (Fin 500000 * n0_5).
Proof.
  apply (positionSize_within_limits 500000 95000 94000 (Fin 5));
    [reflexivity|reflexivity|discriminate|reflexivity].
Defined.

End PositionCalculatorFacts.
